(** * splugh: the landing-page generator, embedded and verified

    A shallow embedding of [splugh/__main__.py]: the two dataclasses and the
    marshmallow schemas derived from them, the format tables, the template
    writer and the command-line driver [main], run against a model of the
    POSIX file system: a tree of directories and regular files, without links
    and without permissions, whose paths are walked step by step as the
    kernel walks them. *)

From Stdlib Require Import String Ascii List Bool Arith ZArith Lia.
Import ListNotations.
Local Open Scope string_scope.
Local Open Scope list_scope.

Set Warnings "-register-all".

(** String concatenation, written [+] in the Python source. *)
Local Infix "+s" := String.append (at level 60, right associativity).

(** ** Python strings

    A [str] is held as its UTF-8 encoding, one [ascii] per byte.  The
    separators the program cuts at (the slash, the dot) are single bytes that
    occur in no longer sequence, so cutting the bytes cuts the text; only the
    length has to count code points instead of bytes. *)

Module Str.

(** [s.startswith(p)] *)
Fixpoint startswith (p s : string) : bool :=
  match p, s with
  | EmptyString, _ => true
  | String a p', String b s' => Ascii.eqb a b && startswith p' s'
  | String _ _, EmptyString => false
  end.

(** [s.endswith(c)] for a one-character suffix. *)
Fixpoint endswith (c : ascii) (s : string) : bool :=
  match s with
  | EmptyString => false
  | String a EmptyString => Ascii.eqb a c
  | String _ s' => endswith c s'
  end.

(** [c in s] *)
Fixpoint contains (c : ascii) (s : string) : bool :=
  match s with
  | EmptyString => false
  | String a s' => Ascii.eqb a c || contains c s'
  end.

(** [s.split(sep)], [sep] a single character. *)
Fixpoint split (sep : ascii) (s : string) : list string :=
  match s with
  | EmptyString => [EmptyString]
  | String a s' =>
      if Ascii.eqb a sep then EmptyString :: split sep s'
      else match split sep s' with
           | h :: t => String a h :: t
           | [] => [String a EmptyString]
           end
  end.

(** The last occurrence of [sep] cuts [s] in two. *)
Fixpoint rpartition (sep : ascii) (s : string) : option (string * string) :=
  match s with
  | EmptyString => None
  | String a s' =>
      match rpartition sep s' with
      | Some (l, r) => Some (String a l, r)
      | None => if Ascii.eqb a sep then Some (EmptyString, s') else None
      end
  end.

(** [s.rsplit(sep, 1)] *)
Definition rsplit1 (sep : ascii) (s : string) : list string :=
  match rpartition sep s with
  | Some (l, r) => [l; r]
  | None => [s]
  end.

(** [sep.join(l)] *)
Definition join (sep : string) (l : list string) : string := String.concat sep l.

(** [x in l] for a list of strings. *)
Definition mem (x : string) (l : list string) : bool :=
  existsb (String.eqb x) l.


(** A byte [10xxxxxx] continues the code point begun before it. *)
Definition is_continuation (a : ascii) : bool :=
  match a with
  | Ascii _ _ _ _ _ _ b6 b7 => b7 && negb b6
  end.

(** [len(s)]: the number of code points, every byte but the continuation
    bytes starting one. *)
Fixpoint len (s : string) : nat :=
  match s with
  | EmptyString => 0
  | String a s' => (if is_continuation a then 0 else 1) + len s'
  end.

End Str.

(** ** [posixpath] *)

Module Posixpath.

Definition sep : ascii := "/"%char.

(** [os.path.join(a, b)] *)
Definition join (a b : string) : string :=
  if Str.startswith "/" b then b
  else if (a =? "") || Str.endswith sep a then a +s b
  else a +s "/" +s b.

(** The loop of [normpath]: [new_comps] is the stack built so far. *)
Fixpoint norm_comps (initial_slashes : nat) (comps new_comps : list string)
  : list string :=
  match comps with
  | [] => new_comps
  | comp :: rest =>
      if (comp =? "") || (comp =? ".") then
        norm_comps initial_slashes rest new_comps
      else if negb (comp =? "..")
              || ((initial_slashes =? 0)%nat && (length new_comps =? 0)%nat)
              || (negb (length new_comps =? 0)%nat && (last new_comps "" =? ".."))
      then norm_comps initial_slashes rest (new_comps ++ [comp])
      else norm_comps initial_slashes rest (removelast new_comps)
  end.

Definition count_initial_slashes (path : string) : nat :=
  if Str.startswith "/" path then
    if Str.startswith "//" path && negb (Str.startswith "///" path) then 2 else 1
  else 0.

(** [os.path.normpath(path)] *)
Definition normpath (path : string) : string :=
  if path =? "" then "."
  else
    let initial_slashes := count_initial_slashes path in
    let comps := norm_comps initial_slashes (Str.split sep path) [] in
    let path := Str.join "/" comps in
    let path :=
      match initial_slashes with
      | 0 => path
      | 1 => "/" +s path
      | _ => "//" +s path
      end in
    if path =? "" then "." else path.

(** [os.path.abspath(path)], the working directory passed in. *)
Definition abspath (cwd path : string) : string :=
  normpath (if Str.startswith "/" path then path else join cwd path).

End Posixpath.

(** ** The data model *)

(** [ConfigObjT]: what [json.load] and [yaml.safe_load] hand back.  The
    source's alias lists mappings, sequences, [int], [str] and [float]; both
    loaders also produce booleans and [None].  A mapping keeps its items in
    insertion order; a float is never inspected, only told apart by type. *)
Inductive ConfigObjT : Type :=
| ODict (items : list (string * ConfigObjT))
| OList (elems : list ConfigObjT)
| OInt (n : Z)
| OStr (s : string)
| OFloat (mantissa exponent : Z)
| OBool (b : bool)
| ONone.

(** [@dataclass class Page] *)
Record Page : Type := mkPage {
  page_title : string;
  page_href : string;
  page_shortcut : string
}.

(** [@dataclass class Config] *)
Record Config : Type := mkConfig {
  config_title : string;
  config_pages : list Page
}.
(** ** marshmallow

    [PageSchema] and [ConfigSchema] are the schemas
    [marshmallow_dataclass.class_schema] derives from the two dataclasses:
    every field without a default is required, [str] becomes [fields.String],
    [List[Page]] a [fields.List] of [fields.Nested(PageSchema)], and the
    [validate] of the metadata is kept.  The library is a dependency of the
    program; [Schema.load] is followed here as marshmallow 3 runs it on these
    two schemas, with the library's own messages. *)

(** The keys of an error dictionary: a field name (also ["_schema"]) or the
    index of a list element. *)
Inductive Key : Type :=
| Field (name : string)
| Index (i : nat).

(** [ValidationError.messages]: a list of messages for a field, or a
    dictionary of the errors below it. *)
Inductive Messages : Type :=
| Msgs (l : list string)
| Errors (d : list (Key * Messages)).

Module Marshmallow.

Definition msg_required := "Missing data for required field.".
Definition msg_null := "Field may not be null.".
Definition msg_invalid_string := "Not a valid string.".
Definition msg_invalid_list := "Not a valid list.".
Definition msg_unknown := "Unknown field.".
Definition msg_type := "Invalid input type.".
Definition msg_length_1 := "Length must be 1.".

Definition SCHEMA := "_schema".

(** [data.get(field_name, missing)] *)
Fixpoint get (d : list (string * ConfigObjT)) (k : string) : option ConfigObjT :=
  match d with
  | [] => None
  | (k', v) :: d' => if k' =? k then Some v else get d' k
  end.

(** [mvalid.Length(equal=1)], returning the messages it raises with; the
    length is [len(value)]. *)
Definition Length_equal_1 (value : string) : list string :=
  if (Str.len value =? 1)%nat then [] else [msg_length_1].

(** [Field._validate]: every validator runs, the messages are gathered. *)
Definition run_validators (validators : list (string -> list string))
    (value : string) : list string :=
  flat_map (fun v => v value) validators.

(** [fields.String(required=True, validate=validators).deserialize]:
    [None] stands for marshmallow's [missing]. *)
Definition String_deserialize (validators : list (string -> list string))
    (value : option ConfigObjT) : Messages + string :=
  match value with
  | None => inl (Msgs [msg_required])
  | Some ONone => inl (Msgs [msg_null])
  | Some (OStr s) =>
      match run_validators validators s with
      | [] => inr s
      | errors => inl (Msgs errors)
      end
  | Some _ => inl (Msgs [msg_invalid_string])
  end.

(** [ErrorStore.store_error] for one field. *)
Definition store {A} (field_name : string) (r : Messages + A)
  : list (Key * Messages) :=
  match r with
  | inl m => [(Field field_name, m)]
  | inr _ => []
  end.

(** The keys of the input no field claims; [unknown=RAISE] is the default. *)
Definition unknown_errors (fields : list string) (d : list (string * ConfigObjT))
  : list (Key * Messages) :=
  map (fun k => (Field k, Msgs [msg_unknown]))
      (filter (fun k => negb (Str.mem k fields)) (map fst d)).

(** [PageSchema.load], errors on the left: three required string fields,
    [shortcut] with the length validator; every field is deserialized and
    every unknown key noted before the errors are looked at. *)
Definition PageSchema_do_load (data : ConfigObjT) : Messages + Page :=
  match data with
  | ODict d =>
      let title := String_deserialize [] (get d "title") in
      let href := String_deserialize [] (get d "href") in
      let shortcut := String_deserialize [Length_equal_1] (get d "shortcut") in
      let errors := store "title" title ++ store "href" href
                    ++ store "shortcut" shortcut
                    ++ unknown_errors ["title"; "href"; "shortcut"] d in
      match title, href, shortcut, errors with
      | inr t, inr h, inr s, [] => inr (mkPage t h s)
      | _, _, _, _ => inl (Errors errors)
      end
  | _ => inl (Errors [(Field SCHEMA, Msgs [msg_type])])
  end.

(** [fields.Nested(PageSchema).deserialize] on a list element. *)
Definition Nested_deserialize (value : ConfigObjT) : Messages + Page :=
  match value with
  | ONone => inl (Msgs [msg_null])
  | _ => PageSchema_do_load value
  end.

(** The loop of [fields.List._deserialize]: results and errors by index. *)
Fixpoint List_each (idx : nat) (value : list ConfigObjT)
  : list Page * list (Key * Messages) :=
  match value with
  | [] => ([], [])
  | each :: rest =>
      let (result, errors) := List_each (S idx) rest in
      match Nested_deserialize each with
      | inr p => (p :: result, errors)
      | inl m => (result, (Index idx, m) :: errors)
      end
  end.

(** [utils.is_collection]: iterable, but neither a string nor a mapping.
    Of what the loaders hand back only a sequence is one. *)
Definition as_collection (value : ConfigObjT) : option (list ConfigObjT) :=
  match value with
  | OList l => Some l
  | _ => None
  end.

(** [fields.List(fields.Nested(PageSchema), required=True).deserialize] *)
Definition List_deserialize (value : option ConfigObjT) : Messages + list Page :=
  match value with
  | None => inl (Msgs [msg_required])
  | Some ONone => inl (Msgs [msg_null])
  | Some v =>
      match as_collection v with
      | None => inl (Msgs [msg_invalid_list])
      | Some l =>
          match List_each 0 l with
          | (result, []) => inr result
          | (_, errors) => inl (Errors errors)
          end
      end
  end.

(** [ConfigSchema.load], errors on the left. *)
Definition ConfigSchema_do_load (data : ConfigObjT) : Messages + Config :=
  match data with
  | ODict d =>
      let title := String_deserialize [] (get d "title") in
      let pages := List_deserialize (get d "pages") in
      let errors := store "title" title ++ store "pages" pages
                    ++ unknown_errors ["title"; "pages"] d in
      match title, pages, errors with
      | inr t, inr ps, [] => inr (mkConfig t ps)
      | _, _, _ => inl (Errors errors)
      end
  | _ => inl (Errors [(Field SCHEMA, Msgs [msg_type])])
  end.

End Marshmallow.

(** ** The file system

    A tree of directories and regular files.  A position in the tree is the
    list of names that leads to it from the root. *)

Inductive Node : Type :=
| File (content : string)
| Dir (entries : list (string * Node)).

Module FS.

Fixpoint find_entry (name : string) (es : list (string * Node)) : option Node :=
  match es with
  | [] => None
  | (n, x) :: es' => if n =? name then Some x else find_entry name es'
  end.

Fixpoint put_entry (name : string) (v : Node) (es : list (string * Node))
  : list (string * Node) :=
  match es with
  | [] => [(name, v)]
  | (n, x) :: es' =>
      if n =? name then (name, v) :: es' else (n, x) :: put_entry name v es'
  end.

Definition remove_entry (name : string) (es : list (string * Node))
  : list (string * Node) :=
  filter (fun e => negb (fst e =? name)) es.

(** The node at a position. *)
Fixpoint lookup (p : list string) (n : Node) : option Node :=
  match p with
  | [] => Some n
  | c :: p' =>
      match n with
      | Dir es =>
          match find_entry c es with
          | Some m => lookup p' m
          | None => None
          end
      | File _ => None
      end
  end.

(** Rewrites the entries of the directory at [p]; fails when [p] is not a
    directory. *)
Fixpoint modify (p : list string)
    (f : list (string * Node) -> list (string * Node)) (n : Node) : option Node :=
  match n with
  | File _ => None
  | Dir es =>
      match p with
      | [] => Some (Dir (f es))
      | c :: p' =>
          match find_entry c es with
          | Some m =>
              match modify p' f m with
              | Some m' => Some (Dir (put_entry c m' es))
              | None => None
              end
          | None => None
          end
      end
  end.

(** A list of names as all but the last, and the last; the empty list has
    neither. *)
Definition parent_and_name (p : list string) : option (list string * string) :=
  match rev p with
  | [] => None
  | name :: rparent => Some (rev rparent, name)
  end.

(** [q] lies at or below [p]. *)
Fixpoint is_prefix (p q : list string) : bool :=
  match p, q with
  | [], _ => true
  | a :: p', b :: q' => (a =? b) && is_prefix p' q'
  | _ :: _, [] => false
  end.

(** Where the text of an absolute path points, were every name on it a
    directory: the position [normpath] computes.  No call resolves a path
    this way; it names the place a walk arrives at when it arrives. *)
Definition lexical (path : string) : list string :=
  Posixpath.norm_comps 1 (Str.split Posixpath.sep path) [].

(** The steps of a path, as the kernel takes them: the pieces between the
    slashes.  A doubled or trailing slash makes no step; [.] and [..] are
    steps like any other. *)
Definition components (path : string) : list string :=
  filter (fun c => negb (c =? "")) (Str.split Posixpath.sep path).

(** One step from the directory at [pos]: [.] stays, [..] goes to the parent
    (the root is its own), a name goes to the entry of that name. *)
Definition step (pos : list string) (c : string) : list string :=
  if c =? "." then pos
  else if c =? ".." then removelast pos
  else pos ++ [c].

(** The positions a walk comes by, the first and the last among them. *)
Fixpoint route (pos : list string) (steps : list string) : list (list string) :=
  pos :: match steps with
         | [] => []
         | c :: rest => route (step pos c) rest
         end.

(** How a walk through directories ends. *)
Inductive Reach : Type :=
| Reached (pos : list string)
| NoEnt
| NotDir.

(** The walk from the directory at [pos]: every position it comes by has to
    be a directory ([ENOTDIR] on a file, [ENOENT] on nothing). *)
Fixpoint reach (root : Node) (pos : list string) (steps : list string) : Reach :=
  match lookup pos root with
  | Some (Dir _) =>
      match steps with
      | [] => Reached pos
      | c :: rest => reach root (step pos c) rest
      end
  | Some (File _) => NotDir
  | None => NoEnt
  end.

(** What a path leads to. *)
Inductive Found : Type :=
| At (pos : list string) (node : Node)
| Absent (parent : list string) (name : string)
| ENOENT
| ENOTDIR.

(** The kernel's path resolution from the root: the walk through all steps
    but the last, which have to be directories, then the last step.
    [Absent]: the walk got as far as the parent, which has no entry of the
    last name. *)
Definition resolve (root : Node) (steps : list string) : Found :=
  match parent_and_name steps with
  | None => At [] root
  | Some (init, last) =>
      match reach root [] init with
      | Reached parent =>
          match lookup (step parent last) root with
          | Some node => At (step parent last) node
          | None => Absent parent last
          end
      | NoEnt => ENOENT
      | NotDir => ENOTDIR
      end
  end.

(** The walk comes by [o] or by something below it. *)
Definition passes (o : list string) (steps : list string) : bool :=
  existsb (is_prefix o) (route [] steps).

End FS.

(** ** The process and its world *)

(** The exceptions the program and its libraries raise.  The classes the
    program or a statement tells apart have a constructor of their own; any
    other class goes by its name. *)
Inductive Exn : Type :=
| KeyError (key : string)
| IndexError
| ValidationError (messages : Messages)
| JSONDecodeError
| YAMLError
| UnicodeDecodeError
| FileNotFoundError (path : string)
| FileExistsError (path : string)
| NotADirectoryError (path : string)
| IsADirectoryError (path : string)
| OSError (path : string)
| OtherException (class_name : string).

(** What a Python call gives: a value or a raised exception. *)
Inductive Result (A : Type) : Type :=
| Ok (a : A)
| Raise (e : Exn).
Arguments Ok {A} a.
Arguments Raise {A} e.

(** What [print(..., file=sys.stderr)] was given. *)
Inductive Output : Type :=
| Text (s : string)
| Repr (m : Messages).

(** The calls made on the file system, in order, with the paths as the
    program wrote them. *)
Inductive Event : Type :=
| EvExists (path : string)
| EvRmtree (path : string)
| EvOpen (path mode : string)
| EvWrite (path data : string)
| EvClose (path : string)
| EvMkdir (path : string).

(** [cwd] is the working directory as [os.getcwd] names it, by an absolute
    path from the root. *)
Record World : Type := mkWorld {
  cwd : string;
  fs : Node;
  stderr : list Output;
  events : list Event
}.

(** A computation runs in a world; the world it leaves behind is there also
    when it raises. *)
Definition M (A : Type) : Type := World -> Result A * World.

Definition ret {A} (a : A) : M A := fun w => (Ok a, w).

Definition bind {A B} (c : M A) (k : A -> M B) : M B :=
  fun w =>
    match c w with
    | (Ok a, w') => k a w'
    | (Raise e, w') => (Raise e, w')
    end.

Definition lift {A} (r : Result A) : M A := fun w => (r, w).

Notation "x <- c ;; k" := (bind c (fun x => k))
  (at level 61, c at next level, right associativity).
Notation "c ;;; k" := (bind c (fun _ => k))
  (at level 61, right associativity).

(** [try: c  except ValidationError as err: ...]: the messages of a caught
    error on the left, anything else passes. *)
Definition try_ValidationError {A} (c : M A) : M (Messages + A) :=
  fun w =>
    match c w with
    | (Ok a, w') => (Ok (inr a), w')
    | (Raise (ValidationError m), w') => (Ok (inl m), w')
    | (Raise e, w') => (Raise e, w')
    end.

Definition log (e : Event) (w : World) : World :=
  mkWorld (cwd w) (fs w) (stderr w) (events w ++ [e]).

Definition set_fs (n : Node) (w : World) : World :=
  mkWorld (cwd w) n (stderr w) (events w).

(** An open file: the path it was opened by and the place of the file in
    the tree. *)
Record Handle : Type := mkHandle {
  handle_path : string;
  handle_pos : list string
}.

Module OS.

(** [os.getcwd()] *)
Definition getcwd : M string := fun w => (Ok (cwd w), w).

(** [os.path.abspath(path)] *)
Definition abspath (path : string) : M string :=
  fun w => (Ok (Posixpath.abspath (cwd w) path), w).

(** The steps of the walk for [path], from the root: a relative path starts
    in the working directory. *)
Definition steps (w : World) (path : string) : list string :=
  FS.components (Posixpath.join (cwd w) path).

(** [stat(path)]: what the path leads to.  The empty path leads nowhere, and
    a path with a trailing slash leads to a directory or fails. *)
Definition stat (w : World) (path : string) : FS.Found :=
  if path =? "" then FS.ENOENT
  else
    match FS.resolve (fs w) (steps w path) with
    | FS.At pos (File content) =>
        if Str.endswith Posixpath.sep path then FS.ENOTDIR
        else FS.At pos (File content)
    | found => found
    end.

Definition path_exists (w : World) (path : string) : bool :=
  match stat w path with
  | FS.At _ _ => true
  | _ => false
  end.

(** [os.path.exists(path)]: whether [stat] succeeds. *)
Definition exists_ (path : string) : M bool :=
  fun w => (Ok (path_exists w path), log (EvExists path) w).

(** [rmdir(path)]: the last step has to name an empty directory; [.] is
    [EINVAL], [..] is [ENOTEMPTY], the root is [EBUSY]. *)
Definition rmdir (path : string) (w : World) : Result unit * World :=
  if path =? "" then (Raise (FileNotFoundError path), w)
  else
    match FS.parent_and_name (steps w path) with
    | None => (Raise (OSError path), w)
    | Some (init, last) =>
        match FS.reach (fs w) [] init with
        | FS.NoEnt => (Raise (FileNotFoundError path), w)
        | FS.NotDir => (Raise (NotADirectoryError path), w)
        | FS.Reached parent =>
            if (last =? ".") || (last =? "..") then (Raise (OSError path), w)
            else
              match FS.lookup (parent ++ [last]) (fs w) with
              | None => (Raise (FileNotFoundError path), w)
              | Some (File _) => (Raise (NotADirectoryError path), w)
              | Some (Dir (_ :: _)) => (Raise (OSError path), w)
              | Some (Dir []) =>
                  match FS.modify parent (FS.remove_entry last) (fs w) with
                  | Some n => (Ok tt, set_fs n w)
                  | None => (Raise (FileNotFoundError path), w)
                  end
              end
        end
    end.

(** [shutil.rmtree(path)], as it runs where directories can be held open:
    the path is looked up, all that the directory holds is removed through
    the open directory, and then the directory itself is removed by its path,
    with [rmdir]. *)
Definition rmtree (path : string) : M unit :=
  fun w =>
    let w' := log (EvRmtree path) w in
    match stat w path with
    | FS.At pos (Dir _) =>
        match FS.modify pos (fun _ => []) (fs w) with
        | Some n => rmdir path (set_fs n w')
        | None => (Raise (FileNotFoundError path), w')
        end
    | FS.At _ (File _) => (Raise (NotADirectoryError path), w')
    | FS.ENOTDIR => (Raise (NotADirectoryError path), w')
    | _ => (Raise (FileNotFoundError path), w')
    end.

(** [os.mkdir(path)]: the last step has to be a name that is not there. *)
Definition mkdir (path : string) : M unit :=
  fun w =>
    let w' := log (EvMkdir path) w in
    if path =? "" then (Raise (FileNotFoundError path), w')
    else
      match FS.parent_and_name (steps w path) with
      | None => (Raise (FileExistsError path), w')
      | Some (init, last) =>
          match FS.reach (fs w) [] init with
          | FS.NoEnt => (Raise (FileNotFoundError path), w')
          | FS.NotDir => (Raise (NotADirectoryError path), w')
          | FS.Reached parent =>
              if (last =? ".") || (last =? "..") then (Raise (FileExistsError path), w')
              else
                match FS.lookup (parent ++ [last]) (fs w) with
                | Some _ => (Raise (FileExistsError path), w')
                | None =>
                    match FS.modify parent (FS.put_entry last (Dir [])) (fs w) with
                    | Some n => (Ok tt, set_fs n w')
                    | None => (Raise (FileNotFoundError path), w')
                    end
                end
          end
      end.

(** [open(path, 'r', encoding='utf-8')]: the handle is what the file
    holds. *)
Definition open_r (path : string) : M string :=
  fun w =>
    let w' := log (EvOpen path "r") w in
    match stat w path with
    | FS.At _ (File content) => (Ok content, w')
    | FS.At _ (Dir _) => (Raise (IsADirectoryError path), w')
    | FS.ENOTDIR => (Raise (NotADirectoryError path), w')
    | _ => (Raise (FileNotFoundError path), w')
    end.

(** [open(path, '+w', encoding='utf-8')]: the last step has to be a name;
    the file of that name is emptied, or made when there is none. *)
Definition open_w (path : string) : M Handle :=
  fun w =>
    let w' := log (EvOpen path "+w") w in
    if path =? "" then (Raise (FileNotFoundError path), w')
    else
      match FS.parent_and_name (steps w path) with
      | None => (Raise (IsADirectoryError path), w')
      | Some (init, last) =>
          match FS.reach (fs w) [] init with
          | FS.NoEnt => (Raise (FileNotFoundError path), w')
          | FS.NotDir => (Raise (NotADirectoryError path), w')
          | FS.Reached parent =>
              if (last =? ".") || (last =? "..") then (Raise (IsADirectoryError path), w')
              else
                match FS.lookup (parent ++ [last]) (fs w) with
                | Some (Dir _) => (Raise (IsADirectoryError path), w')
                | found =>
                    if Str.endswith Posixpath.sep path then
                      (Raise (match found with
                              | Some _ => NotADirectoryError path
                              | None => IsADirectoryError path
                              end), w')
                    else
                      match FS.modify parent (FS.put_entry last (File "")) (fs w) with
                      | Some n => (Ok (mkHandle path (parent ++ [last])), set_fs n w')
                      | None => (Raise (FileNotFoundError path), w')
                      end
                end
          end
      end.

(** [file.write(data)]: the text goes to the file the handle is open on,
    whatever its path leads to by now. *)
Definition write (file : Handle) (data : string) : M unit :=
  fun w =>
    let w' := log (EvWrite (handle_path file) data) w in
    match FS.parent_and_name (handle_pos file), FS.lookup (handle_pos file) (fs w) with
    | Some (parent, name), Some (File _) =>
        match FS.modify parent (FS.put_entry name (File data)) (fs w) with
        | Some n => (Ok tt, set_fs n w')
        | None => (Ok tt, w')
        end
    | _, _ => (Ok tt, w')
    end.

(** [print(o, file=sys.stderr)] *)
Definition print_stderr (o : Output) : M unit :=
  fun w => (Ok tt, mkWorld (cwd w) (fs w) (stderr w ++ [o]) (events w)).

End OS.

(** [with open(path, mode) as file: body]: the file is closed when the body
    returns and when it raises. *)
Definition with_open {H A} (open : M H) (path : string) (body : H -> M A) : M A :=
  fun w =>
    match open w with
    | (Ok file, w1) =>
        let (r, w2) := body file w1 in
        (r, log (EvClose path) w2)
    | (Raise e, w1) => (Raise e, w1)
    end.

(** ** The program *)

(** [d[k]] on a dictionary literal. *)
Fixpoint getitem {A} (d : list (string * A)) (k : string) : Result A :=
  match d with
  | [] => Raise (KeyError k)
  | (k', v) :: d' => if k' =? k then Ok v else getitem d' k
  end.

(** [l[i]] on a list. *)
Definition index {A} (l : list A) (i : nat) : Result A :=
  match nth_error l i with
  | Some x => Ok x
  | None => Raise IndexError
  end.

(** [ConfigSchema.load(data)]: the [Config] or a raised [ValidationError]. *)
Definition ConfigSchema_load (data : ConfigObjT) : Result Config :=
  match Marshmallow.ConfigSchema_do_load data with
  | inr config => Ok config
  | inl messages => Raise (ValidationError messages)
  end.

Definition parse_ext_to_format (ext : string) : Result string :=
  let format_map := [("json", "json"); ("yaml", "yaml"); ("yml", "yaml")] in
  getitem format_map ext.

(** [ConfigParserT]; the argument is what the open file holds. *)
Definition ConfigParserT : Type := string -> Result Config.

(** The parsed command line. *)
Record Args : Type := mkArgs {
  source : string;
  output_directory : option string;
  format : option string;
  force : bool
}.

(** [@dataclass class Template] *)
Record Template : Type := mkTemplate { name : string }.

Fixpoint for_each {A} (l : list A) (body : A -> M unit) : M unit :=
  match l with
  | [] => ret tt
  | x :: l' => body x ;;; for_each l' body
  end.

Section Program.

(** [json.load] and [yaml.safe_load] on what the file holds: the data, or
    the exception the library raises (on malformed text, on bytes that are no
    UTF-8, on nesting too deep). *)
Variable json_load : string -> Result ConfigObjT.
Variable yaml_safe_load : string -> Result ConfigObjT.

(** Modelled from the spec: the templates [index.html.jinja] and
    [index.js.jinja] are data of the package and not part of the source.  The
    spec has the renderer substitute the fields of the Config into fixed
    template text, the text being a function of the Config; so the Jinja
    environment over the package's templates is what a named template makes of
    a [config]. *)
Variable environment : string -> Config -> string.

Definition json_parser : ConfigParserT :=
  fun file_contents =>
    match json_load file_contents with
    | Ok data => ConfigSchema_load data
    | Raise e => Raise e
    end.

Definition yaml_parser : ConfigParserT :=
  fun file_contents =>
    match yaml_safe_load file_contents with
    | Ok data => ConfigSchema_load data
    | Raise e => Raise e
    end.

Definition get_config_parser (file_format : string) : Result ConfigParserT :=
  getitem [("json", json_parser); ("yaml", yaml_parser)] file_format.

(** [Template.load(env)] *)
Definition Template_load (self : Template) : Config -> string :=
  environment (name self +s ".jinja").

Definition generate_jinja_templates (config : Config) (out_dir : string) : M unit :=
  let templates := [mkTemplate "index.html"; mkTemplate "index.js"] in
  for_each templates (fun template =>
    let path := Posixpath.join out_dir (name template) in
    with_open (OS.open_w path) path (fun file =>
      OS.write file (Template_load template config))).

(** The rest of [main] once the output directory is dealt with (the [try]
    block and what follows it), which both ways past the check run. *)
Definition parse_and_render (file_path file_format out_dir : string) : M Z :=
  r <- try_ValidationError
         (with_open (OS.open_r file_path) file_path (fun file =>
            parser <- lift (get_config_parser file_format) ;;
            lift (parser file))) ;;
  match r with
  | inl messages =>
      OS.print_stderr (Repr messages) ;;;
      ret 1%Z
  | inr config =>
      OS.mkdir out_dir ;;;
      generate_jinja_templates config out_dir ;;;
      ret 0%Z
  end.

(** [main], from the parsed arguments on; the value is the exit code. *)
Definition main (args : Args) : M Z :=
  file_path <- OS.abspath (source args) ;;
  file_format <-
    match format args with
    | Some f => ret f
    | None =>
        ext <- lift (index (Str.rsplit1 "."%char file_path) 1) ;;
        lift (parse_ext_to_format ext)
    end ;;
  cwd <- OS.getcwd ;;
  let out_dir :=
    Posixpath.join cwd
      (match output_directory args with
       | Some d => d
       | None => "splugh_dist"
       end) in
  out_dir_exists <- OS.exists_ out_dir ;;
  if out_dir_exists then
    if force args then
      OS.rmtree out_dir ;;;
      parse_and_render file_path file_format out_dir
    else
      OS.print_stderr (Text (out_dir +s " already exists. Refusing to operate.")) ;;;
      ret 2%Z
  else parse_and_render file_path file_format out_dir.

End Program.

(** * Vocabulary of the statements *)

(** A plain file name: one component, and not a step of the path walk. *)
Definition plain_name (nm : string) : Prop :=
  Str.split Posixpath.sep nm = [nm] /\ nm <> "" /\ nm <> "." /\ nm <> "..".

(** What [join a] puts before a relative second argument. *)
Definition dir_prefix (a : string) : string :=
  if (a =? "") || Str.endswith Posixpath.sep a then a else a +s "/".

(** The world after a call that leaves the tree [n] and logs [evs]. *)
Definition after (w : World) (n : Node) (evs : list Event) : World :=
  mkWorld (cwd w) n (stderr w) (events w ++ evs).

(** The path [main] opens: [os.path.abspath(args.source)]. *)
Definition file_path_of (args : Args) (w : World) : string :=
  Posixpath.abspath (cwd w) (source args).

(** The format [main] settles on: the [--type] given, else the table's entry
    for what follows the last dot of the path. *)
Definition file_format_of (args : Args) (w : World) : Result string :=
  match format args with
  | Some f => Ok f
  | None =>
      match index (Str.rsplit1 "."%char (file_path_of args w)) 1 with
      | Ok ext => parse_ext_to_format ext
      | Raise e => Raise e
      end
  end.

(** The output directory [main] works on. *)
Definition out_dir_of (args : Args) (w : World) : string :=
  Posixpath.join (cwd w)
    (match output_directory args with
     | Some d => d
     | None => "splugh_dist"
     end).

(** The place the text of a path points at, a relative path taken from
    [cwd]. *)
Definition locate (w : World) (path : string) : list string :=
  FS.lexical (Posixpath.join (cwd w) path).

(** The places the two paths of a run point at. *)
Definition src_at (args : Args) (w : World) : list string :=
  locate w (file_path_of args w).

Definition out_at (args : Args) (w : World) : list string :=
  locate w (out_dir_of args w).

(** The message of exit code 2. *)
Definition refusal (out_dir : string) : Output :=
  Text (out_dir +s " already exists. Refusing to operate.").

(** What the [try] block yields: the parser of the format run on what the
    source file holds. *)
Definition parsed (json_load yaml_safe_load : string -> Result ConfigObjT)
    (file_format text : string) : Result Config :=
  match get_config_parser json_load yaml_safe_load file_format with
  | Ok parser => parser text
  | Raise e => Raise e
  end.

(** [except ValidationError] on a result. *)
Definition caught {A} (r : Result A) : Result (Messages + A) :=
  match r with
  | Ok a => Ok (inr a)
  | Raise (ValidationError m) => Ok (inl m)
  | Raise e => Raise e
  end.

(** The entries of a freshly rendered output directory. *)
Definition rendered (environment : string -> Config -> string) (config : Config)
  : list (string * Node) :=
  [("index.html", File (environment "index.html.jinja" config));
   ("index.js", File (environment "index.js.jinja" config))].

(** The calls that write one template's file. *)
Definition write_events (out_dir nm data : string) : list Event :=
  let path := Posixpath.join out_dir nm in
  [EvOpen path "+w"; EvWrite path data; EvClose path].

(** The calls of [generate_jinja_templates]. *)
Definition render_events (environment : string -> Config -> string)
    (config : Config) (out_dir : string) : list Event :=
  write_events out_dir "index.html" (environment "index.html.jinja" config)
  ++ write_events out_dir "index.js" (environment "index.js.jinja" config).

(** The calls of the [try] block on the source file. *)
Definition read_events (file_path : string) : list Event :=
  [EvOpen file_path "r"; EvClose file_path].

(** The parser an extension selects: the table of extensions, then the table
    of parsers. *)
Definition parser_for_extension (json_load yaml_safe_load : string -> Result ConfigObjT)
    (ext : string) : Result ConfigParserT :=
  match parse_ext_to_format ext with
  | Ok file_format => get_config_parser json_load yaml_safe_load file_format
  | Raise e => Raise e
  end.

(** A step that is a name. *)
Definition proper (c : string) : Prop := c <> "." /\ c <> "..".

(** The exception of [open] for reading on what its path leads to, when that
    is no file. *)
Definition open_error (found : FS.Found) (path : string) : Exn :=
  match found with
  | FS.At _ (Dir _) => IsADirectoryError path
  | FS.ENOTDIR => NotADirectoryError path
  | _ => FileNotFoundError path
  end.

(** The path is walked to its end without coming by [o]: a file or a
    directory elsewhere, reached by a way that does not lead through [o]. *)
Definition clear_of (o : list string) (w : World) (path : string) : Prop :=
  FS.passes o (OS.steps w path) = false.

(** The path names the directory at [o] and reaches it from outside: its
    last step enters [o], and no step before starts in [o] or below. *)
Definition enters (o : list string) (w : World) (path : string) : Prop :=
  FS.passes o (removelast (OS.steps w path)) = false.

(** ** What the schema forbids, said field by field

    The contract of the validator in its own words: which constraint fails
    where.  A violation is a path into the input (field names and list
    indices) and the message of the constraint that fails there. *)

(** The report as a list of paths and messages. *)
Fixpoint flatten (m : Messages) : list (list Key * string) :=
  match m with
  | Msgs l => map (pair []) l
  | Errors d =>
      (fix each (d : list (Key * Messages)) : list (list Key * string) :=
         match d with
         | [] => []
         | (k, m') :: d' =>
             map (fun pm => (k :: fst pm, snd pm)) (flatten m') ++ each d'
         end) d
  end.

(** What a mapping holds under a key: the value of the first item of that
    key, or nothing when no item has it. *)
Inductive field_of : list (string * ConfigObjT) -> string -> option ConfigObjT -> Prop :=
| FO_none k : field_of [] k None
| FO_here k v d : field_of ((k, v) :: d) k (Some v)
| FO_later k k' v' d ov :
    k' <> k -> field_of d k ov -> field_of ((k', v') :: d) k ov.

(** A required string: present, not null, a string. *)
Inductive StringViolation : option ConfigObjT -> string -> Prop :=
| SV_missing : StringViolation None Marshmallow.msg_required
| SV_null : StringViolation (Some ONone) Marshmallow.msg_null
| SV_type v :
    v <> ONone -> (forall s, v <> OStr s) ->
    StringViolation (Some v) Marshmallow.msg_invalid_string.

(** A key of the mapping that is no field of the schema. *)
Definition unknown_key (fields : list string) (d : list (string * ConfigObjT))
    (k : string) : Prop :=
  In k (map fst d) /\ ~ In k fields.

(** A page: a mapping of three required strings and nothing else, the
    shortcut one character long. *)
Inductive PageViolation : ConfigObjT -> list Key -> string -> Prop :=
| PV_type data :
    (forall d, data <> ODict d) ->
    PageViolation data [Field "_schema"] Marshmallow.msg_type
| PV_title d v msg :
    field_of d "title" v -> StringViolation v msg ->
    PageViolation (ODict d) [Field "title"] msg
| PV_href d v msg :
    field_of d "href" v -> StringViolation v msg ->
    PageViolation (ODict d) [Field "href"] msg
| PV_shortcut d v msg :
    field_of d "shortcut" v -> StringViolation v msg ->
    PageViolation (ODict d) [Field "shortcut"] msg
| PV_length d s :
    field_of d "shortcut" (Some (OStr s)) ->
    Str.len s <> 1 ->
    PageViolation (ODict d) [Field "shortcut"] Marshmallow.msg_length_1
| PV_unknown d k :
    unknown_key ["title"; "href"; "shortcut"] d k ->
    PageViolation (ODict d) [Field k] Marshmallow.msg_unknown.

(** An element of [pages]: not null, and a page. *)
Inductive ElementViolation : ConfigObjT -> list Key -> string -> Prop :=
| EV_null : ElementViolation ONone [] Marshmallow.msg_null
| EV_page each path msg :
    each <> ONone -> PageViolation each path msg ->
    ElementViolation each path msg.

(** The required list [pages]: present, not null, a sequence (a mapping is
    none), every element a page. *)
Inductive PagesViolation : option ConfigObjT -> list Key -> string -> Prop :=
| LV_missing : PagesViolation None [] Marshmallow.msg_required
| LV_null : PagesViolation (Some ONone) [] Marshmallow.msg_null
| LV_type v :
    v <> ONone -> (forall l, v <> OList l) ->
    PagesViolation (Some v) [] Marshmallow.msg_invalid_list
| LV_element l i each path msg :
    nth_error l i = Some each ->
    ElementViolation each path msg ->
    PagesViolation (Some (OList l)) (Index i :: path) msg.

(** A config: a mapping of a required string [title] and the required
    [pages], and nothing else. *)
Inductive ConfigViolation : ConfigObjT -> list Key -> string -> Prop :=
| CV_type data :
    (forall d, data <> ODict d) ->
    ConfigViolation data [Field "_schema"] Marshmallow.msg_type
| CV_title d v msg :
    field_of d "title" v -> StringViolation v msg ->
    ConfigViolation (ODict d) [Field "title"] msg
| CV_pages d v path msg :
    field_of d "pages" v -> PagesViolation v path msg ->
    ConfigViolation (ODict d) (Field "pages" :: path) msg
| CV_unknown d k :
    unknown_key ["title"; "pages"] d k ->
    ConfigViolation (ODict d) [Field k] Marshmallow.msg_unknown.

(** ** What a run leaves alone *)

(** The files outside [o] are the same in both trees: the same paths, the
    same text. *)
Definition same_files_outside (o : list string) (n n' : Node) : Prop :=
  forall q content,
    FS.is_prefix o q = false ->
    (FS.lookup q n = Some (File content) <-> FS.lookup q n' = Some (File content)).

(** What is at a position, the entries of a directory left aside. *)
Inductive Kind : Type :=
| Nothing
| AFile (content : string)
| ADir.

Definition kind (q : list string) (n : Node) : Kind :=
  match FS.lookup q n with
  | None => Nothing
  | Some (File content) => AFile content
  | Some (Dir _) => ADir
  end.

(** Outside [o] the two trees have the same files and the same
    directories. *)
Definition agree_off (o : list string) (n n' : Node) : Prop :=
  forall q, FS.is_prefix o q = false -> kind q n = kind q n'.

(** A computation that, started in the working directory [cw], stays there
    and changes nothing outside [o], however it ends. *)
Definition leaves_outside (cw : string) (o : list string) {A} (c : M A) : Prop :=
  forall w,
    cwd w = cw ->
    cwd (snd (c w)) = cw /\ agree_off o (fs w) (fs (snd (c w))).



(** ** A config as data *)

(** The mapping that spells a page out, field by field. *)
Definition page_to_data (p : Page) : ConfigObjT :=
  ODict [("title", OStr (page_title p));
         ("href", OStr (page_href p));
         ("shortcut", OStr (page_shortcut p))].

(** The mapping that spells a config out. *)
Definition config_to_data (c : Config) : ConfigObjT :=
  ODict [("title", OStr (config_title c));
         ("pages", OList (map page_to_data (config_pages c)))].

(** The element [each] of the input spells the page [p]: a mapping with the
    page's three strings under their names, and no other key. *)
Definition spells_page (each : ConfigObjT) (p : Page) : Prop :=
  exists d,
    each = ODict d
    /\ field_of d "title" (Some (OStr (page_title p)))
    /\ field_of d "href" (Some (OStr (page_href p)))
    /\ field_of d "shortcut" (Some (OStr (page_shortcut p)))
    /\ forall k, In k (map fst d) -> In k ["title"; "href"; "shortcut"].

(** All shortcuts of a config are one character long. *)
Definition well_formed (c : Config) : Prop :=
  Forall (fun p => Str.len (page_shortcut p) = 1) (config_pages c).

(** What the deserializer of a format makes of what the file holds; a token
    that is no format has no deserializer, and the lookup of its parser
    fails. *)
Definition deserialized (json_load yaml_safe_load : string -> Result ConfigObjT)
    (file_format text : string) : Result ConfigObjT :=
  if file_format =? "json" then json_load text
  else if file_format =? "yaml" then yaml_safe_load text
  else Raise (KeyError file_format).

(** A deserializer knows nothing of the schema: whatever it raises, it is
    not marshmallow's [ValidationError]. *)
Definition no_ValidationError (load : string -> Result ConfigObjT) : Prop :=
  forall text messages, load text <> Raise (ValidationError messages).

(** ** Sample inputs *)

(** A page as deserialized, with the given shortcut. *)
Definition sample_page (shortcut : string) : ConfigObjT :=
  ODict [("title", OStr "A"); ("href", OStr "/a"); ("shortcut", OStr shortcut)].

Definition sample_valid : ConfigObjT :=
  ODict [("title", OStr "Home"); ("pages", OList [sample_page "a"])].

(** Three things wrong at once: the title, and two of the pages. *)
Definition sample_invalid : ConfigObjT :=
  ODict [("title", OInt 3); ("pages", OList [sample_page "ab"; sample_page "b"; ONone])].

Definition valid_text : string :=
  "{title: Home, pages: [{title: A, href: /a, shortcut: a}]}".

Definition invalid_text : string :=
  "{title: 3, pages: [{title: A, href: /a, shortcut: ab}, {title: A, href: /a, shortcut: b}, null]}".

(** A deserializer that knows the two texts and takes any other for
    malformed. *)
Definition sample_load (text : string) : Result ConfigObjT :=
  if text =? valid_text then Ok sample_valid
  else if text =? invalid_text then Ok sample_invalid
  else Raise YAMLError.

(** The same for JSON. *)
Definition sample_json_load (text : string) : Result ConfigObjT :=
  match sample_load text with
  | Ok data => Ok data
  | Raise _ => Raise JSONDecodeError
  end.

(** Templates that print their own name and the title. *)
Definition sample_environment (template : string) (config : Config) : string :=
  template +s ": " +s config_title config.

(** A site directory with two configs, one config without extension and
    the output of an earlier run. *)
Definition sample_site : list (string * Node) :=
  [("config.yaml", File valid_text);
   ("bad.yaml", File invalid_text);
   ("config", File valid_text);
   ("splugh_dist", Dir [("old.txt", File "old")])].

Definition sample_world : World :=
  mkWorld "/srv/site" (Dir [("srv", Dir [("site", Dir sample_site)])]) [] [].

(** The same site in a directory with a dot in its name. *)
Definition dotted_world : World :=
  mkWorld "/srv/my.site" (Dir [("srv", Dir [("my.site", Dir sample_site)])]) [] [].

(** An empty directory to render into, in another place. *)
Definition empty_world : World :=
  mkWorld "/" (Dir [("tmp", Dir [("out", Dir [])])]) [] [].

(** An output directory with a stale page and a file of the user's. *)
Definition stale_world : World :=
  mkWorld "/srv"
    (Dir [("srv", Dir [("out", Dir [("index.html", File "stale");
                                    ("notes.txt", File "keep")])])])
    [] [].

(** An output directory where a directory sits under the name [index.js]. *)
Definition blocked_world : World :=
  mkWorld "/srv"
    (Dir [("srv", Dir [("out", Dir [("index.js", Dir [])])])])
    [] [].

(** A site whose config is cut short. *)
Definition broken_world : World :=
  mkWorld "/srv/site"
    (Dir [("srv", Dir [("site", Dir [("broken.json", File "{title: ");
                                     ("splugh_dist", Dir [])])])])
    [] [].

(** A site whose config lies in the output directory of an earlier run. *)
Definition nested_world : World :=
  mkWorld "/srv/site"
    (Dir [("srv", Dir [("site", Dir [("splugh_dist",
                                      Dir [("config.yaml", File valid_text)])])])])
    [] [].

Definition sample_config : Config := mkConfig "Home" [mkPage "A" "/a" "a"].

(** [e] with an acute accent, and a rightwards arrow: one character each,
    two and three bytes. *)
Definition e_acute : string :=
  String (ascii_of_nat 195) (String (ascii_of_nat 169) EmptyString).

Definition arrow : string :=
  String (ascii_of_nat 226) (String (ascii_of_nat 134) (String (ascii_of_nat 146) EmptyString)).

(** * Proofs *)

(** ** Strings and paths *)

Lemma split_nonempty (c : ascii) (s : string) : Str.split c s <> [].
Proof.
  destruct s as [|x s]; simpl; [discriminate|].
  destruct (Ascii.eqb x c); [discriminate|].
  destruct (Str.split c s); discriminate.
Qed.

Lemma split_app_sep (c : ascii) (a b : string) :
  Str.split c (a +s String c b) = Str.split c a ++ Str.split c b.
Proof.
  induction a as [|x a IH]; simpl.
  - now rewrite Ascii.eqb_refl.
  - destruct (Ascii.eqb x c); rewrite IH; [reflexivity|].
    destruct (Str.split c a) eqn:E; [|reflexivity].
    now apply split_nonempty in E.
Qed.

Lemma endswith_inv (c : ascii) (s : string) :
  Str.endswith c s = true -> exists s', s = s' +s String c EmptyString.
Proof.
  induction s as [|x s IH]; simpl; [discriminate|].
  destruct s as [|y s].
  - intros H. apply Ascii.eqb_eq in H. subst. now exists EmptyString.
  - intros H. destruct (IH H) as [s' E]. exists (String x s'). simpl. now rewrite <- E.
Qed.

Lemma append_assoc (a b c : string) : (a +s b) +s c = a +s b +s c.
Proof. induction a; simpl; [reflexivity | now rewrite IHa]. Qed.

Lemma append_empty_r (a : string) : a +s "" = a.
Proof. induction a; simpl; [reflexivity | now rewrite IHa]. Qed.

Lemma components_cat (a b : string) :
  FS.components (a +s "/" +s b) = FS.components a ++ FS.components b.
Proof.
  unfold FS.components.
  change (a +s "/" +s b) with (a +s String Posixpath.sep b).
  now rewrite split_app_sep, filter_app.
Qed.

Lemma components_plain (nm : string) : plain_name nm -> FS.components nm = [nm].
Proof.
  intros (E & H & _). unfold FS.components. rewrite E. simpl.
  apply String.eqb_neq in H. now rewrite H.
Qed.

Lemma components_child (a nm : string) :
  plain_name nm ->
  FS.components (a +s "/" +s nm) = FS.components a ++ [nm].
Proof. intros H. now rewrite components_cat, (components_plain nm H). Qed.

Lemma components_trailing_sep (a : string) :
  FS.components (a +s "/") = FS.components a.
Proof.
  change (a +s "/") with (a +s "/" +s "").
  rewrite components_cat. apply app_nil_r.
Qed.

Lemma join_dir_prefix (a b : string) :
  Posixpath.join a b = if Str.startswith "/" b then b else dir_prefix a +s b.
Proof.
  unfold Posixpath.join, dir_prefix.
  destruct (Str.startswith "/" b); [reflexivity|].
  destruct ((a =? "") || Str.endswith Posixpath.sep a); [reflexivity|].
  now rewrite append_assoc.
Qed.

Lemma dir_prefix_cases (a : string) :
  a = "" \/ exists a', dir_prefix a = a' +s "/" /\ (a = a' \/ a = a' +s "/").
Proof.
  unfold dir_prefix. destruct (String.eqb_spec a "") as [->|Ha]; [now left|right].
  simpl. destruct (Str.endswith Posixpath.sep a) eqn:E.
  - destruct (endswith_inv _ _ E) as [a' ->]. exists a'. now split; [|right].
  - exists a. now split; [|left].
Qed.

Lemma plain_name_relative (nm : string) :
  plain_name nm -> Str.startswith "/" nm = false.
Proof.
  intros (E & _). destruct nm as [|x nm]; [reflexivity|].
  cbn [Str.startswith]. destruct (Ascii.eqb_spec "/" x) as [<-|]; [|reflexivity].
  simpl in E. discriminate E.
Qed.
Lemma components_dir_prefix (a x : string) :
  plain_name x -> FS.components (dir_prefix a +s x) = FS.components a ++ [x].
Proof.
  intros H. destruct (dir_prefix_cases a) as [->|(a' & E & [->| ->])].
  - now apply components_plain.
  - rewrite E, append_assoc. now apply components_child.
  - rewrite E, append_assoc, components_trailing_sep. now apply components_child.
Qed.

Lemma components_dir_prefix_only (a : string) :
  FS.components (dir_prefix a) = FS.components a.
Proof.
  destruct (dir_prefix_cases a) as [->|(a' & E & [->| ->])]; [reflexivity| |];
    rewrite E, ?components_trailing_sep; reflexivity.
Qed.

Lemma startswith_append (a b : string) :
  a <> "" -> Str.startswith "/" (a +s b) = Str.startswith "/" a.
Proof. destruct a; [congruence | reflexivity]. Qed.

Lemma dir_prefix_nonempty (a : string) : a <> "" -> dir_prefix a <> "".
Proof.
  unfold dir_prefix. intros H.
  destruct ((a =? "") || Str.endswith Posixpath.sep a); [assumption|].
  destruct a; [congruence | discriminate].
Qed.
(** The file [nm] of the directory [d] is one step beyond [d]. *)
Lemma components_join_join (c d nm : string) :
  plain_name nm ->
  FS.components (Posixpath.join c (Posixpath.join d nm))
  = FS.components (Posixpath.join c d) ++ [nm].
Proof.
  intros H. pose proof (plain_name_relative nm H) as Hr.
  rewrite (join_dir_prefix d nm), Hr.
  destruct (String.eqb_spec d "") as [->|Hd].
  - simpl. rewrite !join_dir_prefix, Hr. simpl.
    rewrite append_empty_r, components_dir_prefix_only.
    now apply components_dir_prefix.
  - rewrite (join_dir_prefix c (dir_prefix d +s nm)), (join_dir_prefix c d).
    rewrite startswith_append by now apply dir_prefix_nonempty.
    assert (Str.startswith "/" (dir_prefix d) = Str.startswith "/" d) as ->.
    { unfold dir_prefix. destruct ((d =? "") || Str.endswith Posixpath.sep d);
        [reflexivity | now apply startswith_append]. }
    destruct (Str.startswith "/" d).
    + now apply components_dir_prefix.
    + destruct (dir_prefix_cases d) as [->|(d' & E & [->| ->])]; [congruence| |];
        rewrite E, (append_assoc d' "/" nm),
          <- (append_assoc (dir_prefix c) d' ("/" +s nm)),
          components_child by assumption;
        [reflexivity|].
      now rewrite <- (append_assoc (dir_prefix c) d' "/"), components_trailing_sep.
Qed.

Example rsplit1_last_dot : Str.rsplit1 "."%char "/a/b.tar.gz" = ["/a/b.tar"; "gz"].
Proof. reflexivity. Qed.

Example rsplit1_no_dot : Str.rsplit1 "."%char "/a/b" = ["/a/b"].
Proof. reflexivity. Qed.

Example split_keeps_empty_pieces :
  Str.split "/"%char "/a//b/" = [""; "a"; ""; "b"; ""].
Proof. reflexivity. Qed.

Example abspath_normalises :
  Posixpath.abspath "/srv/www" "../etc/./conf.yml" = "/srv/etc/conf.yml".
Proof. reflexivity. Qed.

Example abspath_keeps_absolute : Posixpath.abspath "/srv/www" "//etc/conf" = "//etc/conf".
Proof. reflexivity. Qed.

Example abspath_of_empty : Posixpath.abspath "/srv/www" "" = "/srv/www".
Proof. reflexivity. Qed.

(** ** The file-system tree *)

Lemma find_put_entry_same (nm : string) (v : Node) (es : list (string * Node)) :
  FS.find_entry nm (FS.put_entry nm v es) = Some v.
Proof.
  induction es as [|[n x] es IH]; simpl.
  - now rewrite String.eqb_refl.
  - destruct (n =? nm) eqn:E; simpl; [now rewrite String.eqb_refl | now rewrite E].
Qed.

Lemma find_put_entry_other (nm nm' : string) (v : Node) (es : list (string * Node)) :
  nm' <> nm -> FS.find_entry nm' (FS.put_entry nm v es) = FS.find_entry nm' es.
Proof.
  intros H. induction es as [|[n x] es IH]; simpl.
  - apply String.eqb_neq in H. now rewrite String.eqb_sym, H.
  - destruct (n =? nm) eqn:E; simpl.
    + apply String.eqb_eq in E. subst n.
      assert ((nm =? nm') = false) as -> by (apply String.eqb_neq; congruence).
      reflexivity.
    + now rewrite IH.
Qed.

Lemma find_remove_entry_same (nm : string) (es : list (string * Node)) :
  FS.find_entry nm (FS.remove_entry nm es) = None.
Proof.
  induction es as [|[n x] es IH]; simpl; [reflexivity|].
  destruct (n =? nm) eqn:E; simpl; [assumption | now rewrite E].
Qed.

Lemma find_remove_entry_other (nm nm' : string) (es : list (string * Node)) :
  nm' <> nm -> FS.find_entry nm' (FS.remove_entry nm es) = FS.find_entry nm' es.
Proof.
  intros H. induction es as [|[n x] es IH]; simpl; [reflexivity|].
  destruct (n =? nm) eqn:E; simpl.
  - apply String.eqb_eq in E. subst n.
    assert ((nm =? nm') = false) as -> by (apply String.eqb_neq; congruence).
    assumption.
  - now rewrite IH.
Qed.

Lemma lookup_app (p q : list string) (n : Node) :
  FS.lookup (p ++ q) n
  = match FS.lookup p n with Some m => FS.lookup q m | None => None end.
Proof.
  revert n. induction p as [|c p IH]; intros n; simpl; [reflexivity|].
  destruct n as [|es]; [reflexivity|].
  destruct (FS.find_entry c es); [apply IH | reflexivity].
Qed.

(** Rewriting the entries of an existing directory succeeds, and the
    directory then holds the new entries. *)
Lemma modify_dir (p : list string) f (n : Node) (es : list (string * Node)) :
  FS.lookup p n = Some (Dir es) ->
  exists n', FS.modify p f n = Some n' /\ FS.lookup p n' = Some (Dir (f es)).
Proof.
  revert n. induction p as [|c p IH]; intros n; simpl.
  - intros [= ->]. now exists (Dir (f es)).
  - destruct n as [|es0]; [discriminate|].
    destruct (FS.find_entry c es0) as [m|] eqn:E; [|discriminate].
    intros H. destruct (IH m H) as (m' & -> & L).
    exists (Dir (FS.put_entry c m' es0)). split; [reflexivity|].
    simpl. now rewrite find_put_entry_same.
Qed.

Lemma parent_and_name_snoc (p : list string) (nm : string) :
  FS.parent_and_name (p ++ [nm]) = Some (p, nm).
Proof. unfold FS.parent_and_name. rewrite rev_app_distr. simpl. now rewrite rev_involutive. Qed.

Lemma parent_and_name_inv (p parent : list string) (nm : string) :
  FS.parent_and_name p = Some (parent, nm) -> p = parent ++ [nm].
Proof.
  unfold FS.parent_and_name. destruct (rev p) as [|x r] eqn:E; [discriminate|].
  intros [= <- <-]. rewrite <- (rev_involutive p), E. reflexivity.
Qed.

Lemma parent_and_name_root (p : list string) :
  FS.parent_and_name p = None -> p = [].
Proof.
  unfold FS.parent_and_name. destruct (rev p) eqn:E; [|discriminate].
  intros _. now rewrite <- (rev_involutive p), E.
Qed.

Lemma is_prefix_app (p q : list string) : FS.is_prefix p (p ++ q) = true.
Proof. induction p; simpl; [reflexivity | now rewrite String.eqb_refl]. Qed.

Lemma put_entry_twice (nm : string) (v v' : Node) (es : list (string * Node)) :
  FS.put_entry nm v' (FS.put_entry nm v es) = FS.put_entry nm v' es.
Proof.
  induction es as [|[n x] es IH]; simpl.
  - now rewrite String.eqb_refl.
  - destruct (n =? nm) eqn:E; simpl; [now rewrite String.eqb_refl|].
    now rewrite E, IH.
Qed.

Lemma put_entry_present (nm : string) (v : Node) (es : list (string * Node)) :
  FS.find_entry nm es = Some v -> FS.put_entry nm v es = es.
Proof.
  induction es as [|[n x] es IH]; simpl; [discriminate|].
  destruct (String.eqb_spec n nm) as [->|H].
  - now intros [= ->].
  - intros E. now rewrite (IH E).
Qed.

Lemma is_prefix_inv (p q : list string) :
  FS.is_prefix p q = true -> exists rest, q = p ++ rest.
Proof.
  revert q. induction p as [|a p IH]; intros q; simpl.
  - intros _. now exists q.
  - destruct q as [|b q]; [discriminate|].
    intros H. apply andb_true_iff in H as [E H]. apply String.eqb_eq in E. subst b.
    destruct (IH q H) as [rest ->]. now exists rest.
Qed.

Lemma is_prefix_refl (p : list string) : FS.is_prefix p p = true.
Proof. rewrite <- (app_nil_r p) at 2. apply is_prefix_app. Qed.

Lemma is_prefix_trans (a b c : list string) :
  FS.is_prefix a b = true -> FS.is_prefix b c = true -> FS.is_prefix a c = true.
Proof.
  intros H1 H2. apply is_prefix_inv in H1 as [r1 ->]. apply is_prefix_inv in H2 as [r2 ->].
  rewrite <- app_assoc. apply is_prefix_app.
Qed.

Lemma is_prefix_removelast (p : list string) : FS.is_prefix (removelast p) p = true.
Proof.
  destruct (FS.parent_and_name p) as [[parent nm]|] eqn:E.
  - apply parent_and_name_inv in E. subst p. rewrite removelast_last. apply is_prefix_app.
  - apply parent_and_name_root in E. now subst p.
Qed.

(** *** What stays when a directory is rewritten *)

Lemma kind_nil_dir (es : list (string * Node)) : kind [] (Dir es) = ADir.
Proof. reflexivity. Qed.

Lemma kind_cons (c : string) (rest : list string) (es : list (string * Node)) :
  kind (c :: rest) (Dir es)
  = match FS.find_entry c es with Some m => kind rest m | None => Nothing end.
Proof. unfold kind. simpl. now destruct (FS.find_entry c es). Qed.

(** Rewriting the directory at [p] changes what is at [q] only when [q]
    runs through an entry of [p] that the rewriting touches. *)
Lemma modify_kind (p : list string) f (n n' : Node) (q : list string) :
  FS.modify p f n = Some n' ->
  (forall es nm rest, FS.lookup p n = Some (Dir es) -> q = p ++ nm :: rest ->
     FS.find_entry nm (f es) = FS.find_entry nm es) ->
  kind q n' = kind q n.
Proof.
  revert n n' q. induction p as [|c p IH]; intros n n' q; simpl.
  - destruct n as [|es]; [discriminate|]. intros [= <-] K.
    destruct q as [|nm rest]; [reflexivity|].
    now rewrite !kind_cons, (K es nm rest eq_refl eq_refl).
  - destruct n as [|es]; [discriminate|].
    destruct (FS.find_entry c es) as [m|] eqn:E; [|discriminate].
    destruct (FS.modify p f m) as [m'|] eqn:Em; [|discriminate].
    intros [= <-] K.
    destruct q as [|d rest]; [reflexivity|]. rewrite !kind_cons.
    destruct (String.eqb_spec d c) as [->|Hd].
    + rewrite find_put_entry_same, E.
      apply (IH m m' rest Em). intros es' nm rest' Hl ->.
      now apply (K es' nm rest').
    + now rewrite find_put_entry_other.
Qed.

Lemma agree_off_refl (o : list string) (n : Node) : agree_off o n n.
Proof. now intros q _. Qed.

Lemma agree_off_sym (o : list string) (n n' : Node) :
  agree_off o n n' -> agree_off o n' n.
Proof. intros H q Hq. symmetry. now apply H. Qed.

Lemma agree_off_trans (o : list string) (n1 n2 n3 : Node) :
  agree_off o n1 n2 -> agree_off o n2 n3 -> agree_off o n1 n3.
Proof. intros H1 H2 q Hq. now rewrite (H1 q Hq), (H2 q Hq). Qed.

(** What agrees outside a place agrees outside any place above it. *)
Lemma agree_off_mono (o o' : list string) (n n' : Node) :
  FS.is_prefix o' o = true -> agree_off o n n' -> agree_off o' n n'.
Proof.
  intros P H q Hq. apply H.
  destruct (FS.is_prefix o q) eqn:E; [|reflexivity].
  now rewrite (is_prefix_trans _ _ _ P E) in Hq.
Qed.

(** Rewriting one entry of a directory changes nothing outside that
    entry. *)
Lemma agree_off_entry (parent : list string) (nm : string) f (n n' : Node) :
  FS.modify parent f n = Some n' ->
  (forall es c, c <> nm -> FS.find_entry c (f es) = FS.find_entry c es) ->
  agree_off (parent ++ [nm]) n n'.
Proof.
  intros Em K q Hq. symmetry. apply (modify_kind parent f n n' q Em).
  intros es c rest _ ->. apply K. intros ->.
  change (nm :: rest) with ([nm] ++ rest) in Hq.
  now rewrite app_assoc, is_prefix_app in Hq.
Qed.

(** Rewriting a directory changes nothing outside it. *)
Lemma agree_off_below (pos : list string) f (n n' : Node) :
  FS.modify pos f n = Some n' -> agree_off pos n n'.
Proof.
  intros Em q Hq. symmetry. apply (modify_kind pos f n n' q Em).
  intros es c rest _ ->. now rewrite is_prefix_app in Hq.
Qed.

Lemma agree_same_files (o : list string) (n n' : Node) :
  agree_off o n n' -> same_files_outside o n n'.
Proof.
  intros H q content Hq. specialize (H q Hq). unfold kind in H.
  destruct (FS.lookup q n) as [[c|es]|], (FS.lookup q n') as [[c'|es']|];
    try discriminate; try (split; discriminate);
    injection H as ->; reflexivity.
Qed.

(** A place with something below it is a directory. *)
Lemma kind_above (o v : list string) (n : Node) :
  FS.is_prefix o v = true -> kind v n = ADir -> kind o n = ADir.
Proof.
  intros P K. apply is_prefix_inv in P as [rest ->]. unfold kind in *.
  rewrite lookup_app in K. destruct (FS.lookup o n) as [[c|es]|]; try discriminate.
  - now destruct rest.
  - reflexivity.
Qed.

(** *** The walk *)

Lemma reach_kind (n : Node) (pos steps : list string) :
  FS.reach n pos steps
  = match kind pos n with
    | ADir =>
        match steps with
        | [] => FS.Reached pos
        | c :: rest => FS.reach n (FS.step pos c) rest
        end
    | AFile _ => FS.NotDir
    | Nothing => FS.NoEnt
    end.
Proof. unfold kind. destruct steps; simpl; now destruct (FS.lookup pos n) as [[|]|]. Qed.

Lemma reach_app (n : Node) (pos a b : list string) :
  FS.reach n pos (a ++ b)
  = match FS.reach n pos a with
    | FS.Reached p => FS.reach n p b
    | r => r
    end.
Proof.
  revert pos. induction a as [|c a IH]; intros pos.
  - simpl app. rewrite (reach_kind n pos []), (reach_kind n pos b).
    destruct (kind pos n) eqn:K; try reflexivity.
    now rewrite (reach_kind n pos b), K.
  - simpl app. rewrite (reach_kind n pos (c :: a ++ b)), (reach_kind n pos (c :: a)).
    destruct (kind pos n); try reflexivity. apply IH.
Qed.

Lemma reach_final (n : Node) (pos steps p : list string) :
  FS.reach n pos steps = FS.Reached p -> p = fold_left FS.step steps pos.
Proof.
  revert pos. induction steps as [|c steps IH]; intros pos; rewrite reach_kind;
    destruct (kind pos n); try discriminate.
  - now intros [= <-].
  - apply IH.
Qed.

(** Where a walk arrives there is a directory. *)
Lemma reach_dir (n : Node) (pos steps p : list string) :
  FS.reach n pos steps = FS.Reached p -> kind p n = ADir.
Proof.
  revert pos. induction steps as [|c steps IH]; intros pos; rewrite reach_kind;
    destruct (kind pos n) eqn:K; try discriminate.
  - now intros [= <-].
  - apply IH.
Qed.

(** Every position a walk comes by is a directory. *)
Lemma reach_route_dirs (n : Node) (pos steps p : list string) :
  FS.reach n pos steps = FS.Reached p ->
  Forall (fun v => kind v n = ADir) (FS.route pos steps).
Proof.
  revert pos. induction steps as [|c steps IH]; intros pos; rewrite reach_kind;
    destruct (kind pos n) eqn:K; try discriminate; intros H; simpl.
  - now repeat constructor.
  - constructor; [assumption | now apply IH].
Qed.

(** A walk that arrives does not come by a place that is no directory. *)
Lemma reach_avoids (n : Node) (o pos steps p : list string) :
  FS.reach n pos steps = FS.Reached p ->
  kind o n <> ADir ->
  existsb (FS.is_prefix o) (FS.route pos steps) = false.
Proof.
  intros R K. apply reach_route_dirs in R.
  induction R as [|v l Hv _ IH]; [reflexivity|]. simpl. rewrite IH, orb_false_r.
  destruct (FS.is_prefix o v) eqn:P; [|reflexivity].
  now destruct K; apply (kind_above o v n).
Qed.

(** Two trees that agree outside [o] are walked alike by a walk that does
    not come by [o]. *)
Lemma reach_agree (o : list string) (n n' : Node) (pos steps : list string) :
  agree_off o n n' ->
  existsb (FS.is_prefix o) (FS.route pos steps) = false ->
  FS.reach n pos steps = FS.reach n' pos steps.
Proof.
  intros A. revert pos. induction steps as [|c steps IH]; intros pos H;
    simpl in H; apply orb_false_iff in H as [Hp H];
    rewrite (reach_kind n), (reach_kind n'), (A pos Hp);
    destruct (kind pos n'); try reflexivity.
  now apply IH.
Qed.

Lemma route_snoc (pos init : list string) (last : string) :
  FS.route pos (init ++ [last])
  = FS.route pos init ++ [FS.step (fold_left FS.step init pos) last].
Proof.
  revert pos. induction init as [|c init IH]; intros pos; simpl; [reflexivity|].
  now rewrite IH.
Qed.

Lemma route_end (pos steps : list string) :
  In (fold_left FS.step steps pos) (FS.route pos steps).
Proof.
  revert pos. induction steps as [|c steps IH]; intros pos; simpl; [now left|].
  right. apply IH.
Qed.

Lemma resolve_snoc (n : Node) (init : list string) (last : string) :
  FS.resolve n (init ++ [last])
  = match FS.reach n [] init with
    | FS.Reached parent =>
        match FS.lookup (FS.step parent last) n with
        | Some node => FS.At (FS.step parent last) node
        | None => FS.Absent parent last
        end
    | FS.NoEnt => FS.ENOENT
    | FS.NotDir => FS.ENOTDIR
    end.
Proof. unfold FS.resolve. now rewrite parent_and_name_snoc. Qed.

(** A list of steps is empty or has a last step. *)
Lemma steps_cases (steps : list string) :
  steps = [] \/ exists init last, steps = init ++ [last].
Proof.
  destruct (FS.parent_and_name steps) as [[init last]|] eqn:E.
  - right. exists init, last. now apply parent_and_name_inv.
  - left. now apply parent_and_name_root.
Qed.

Lemma resolve_at_lookup (n : Node) (steps pos : list string) (node : Node) :
  FS.resolve n steps = FS.At pos node -> FS.lookup pos n = Some node.
Proof.
  destruct (steps_cases steps) as [->|(init & last & ->)].
  - now intros [= <- <-].
  - rewrite resolve_snoc. destruct (FS.reach n [] init); try discriminate.
    destruct (FS.lookup (FS.step pos0 last) n) eqn:L; [|discriminate].
    now intros [= <- <-].
Qed.

(** A path that leads to a directory can be walked to its end. *)
Lemma resolve_at_dir (n : Node) (steps pos : list string) (es : list (string * Node)) :
  FS.resolve n steps = FS.At pos (Dir es) -> FS.reach n [] steps = FS.Reached pos.
Proof.
  destruct (steps_cases steps) as [->|(init & last & ->)].
  - now intros [= <- ->].
  - rewrite resolve_snoc, reach_app.
    destruct (FS.reach n [] init) as [parent| |] eqn:R; try discriminate.
    destruct (FS.lookup (FS.step parent last) n) eqn:L; [|discriminate].
    intros [= <- ->]. apply reach_dir in R.
    rewrite (reach_kind n parent [last]), R, (reach_kind _ _ []). unfold kind. now rewrite L.
Qed.

Lemma reach_resolve (n : Node) (steps pos : list string) :
  FS.reach n [] steps = FS.Reached pos ->
  exists es, FS.resolve n steps = FS.At pos (Dir es).
Proof.
  intros R. pose proof (reach_dir _ _ _ _ R) as K. unfold kind in K.
  destruct (FS.lookup pos n) as [[|es]|] eqn:L; try discriminate. exists es.
  destruct (steps_cases steps) as [->|(init & last & ->)].
  - rewrite reach_kind in R. destruct (kind [] n); try discriminate.
    injection R as <-. simpl in L. now injection L as ->.
  - rewrite resolve_snoc. rewrite reach_app in R.
    destruct (FS.reach n [] init) as [parent| |]; try discriminate.
    rewrite (reach_kind n parent [last]) in R.
    destruct (kind parent n); try discriminate.
    apply reach_final in R. simpl in R. subst pos. now rewrite L.
Qed.

(** Where a path leads is where its text points. *)
Lemma resolve_final (n : Node) (steps pos : list string) (node : Node) :
  FS.resolve n steps = FS.At pos node -> pos = fold_left FS.step steps [].
Proof.
  destruct (steps_cases steps) as [->|(init & last & ->)].
  - now intros [= <- _].
  - rewrite resolve_snoc.
    destruct (FS.reach n [] init) as [parent| |] eqn:R; try discriminate.
    destruct (FS.lookup (FS.step parent last) n); [|discriminate].
    intros [= <- _]. rewrite fold_left_app. simpl. now rewrite <- (reach_final _ _ _ _ R).
Qed.

Lemma step_proper (pos : list string) (c : string) :
  proper c -> FS.step pos c = pos ++ [c].
Proof.
  intros [H1 H2]. unfold FS.step. apply String.eqb_neq in H1, H2. now rewrite H1, H2.
Qed.

Lemma proper_dots (c : string) : proper c -> (c =? ".") || (c =? "..") = false.
Proof. intros [H1 H2]. apply String.eqb_neq in H1, H2. now rewrite H1, H2. Qed.

Lemma plain_proper (nm : string) : plain_name nm -> proper nm.
Proof. now intros (_ & _ & H). Qed.

(** A missing last step is a name: [.] and [..] are never missing. *)
Lemma resolve_absent (n : Node) (steps parent : list string) (nm : string) :
  FS.resolve n steps = FS.Absent parent nm ->
  exists init,
    steps = init ++ [nm] /\ FS.reach n [] init = FS.Reached parent
    /\ proper nm /\ FS.lookup (parent ++ [nm]) n = None.
Proof.
  destruct (steps_cases steps) as [->|(init & last & ->)]; [discriminate|].
  rewrite resolve_snoc.
  destruct (FS.reach n [] init) as [p| |] eqn:R; try discriminate.
  destruct (FS.lookup (FS.step p last) n) eqn:L; [discriminate|].
  intros [= -> ->]. exists init. pose proof (reach_dir _ _ _ _ R) as K.
  assert (proper nm) as P.
  { split; intros ->; unfold FS.step in L; simpl in L.
    - unfold kind in K. now rewrite L in K.
    - assert (kind (removelast parent) n = ADir) as K'
        by (apply (kind_above _ parent); [apply is_prefix_removelast | exact K]).
      unfold kind in K'. now rewrite L in K'. }
  split; [reflexivity|]. split; [exact R|]. split; [exact P|].
  now rewrite <- (step_proper parent nm P).
Qed.

(** A path that enters [o] with its last step: that step is a name, and the
    walk before it stays outside [o]. *)
Lemma resolve_enters (n : Node) (steps o : list string) (node : Node) :
  FS.resolve n steps = FS.At o node ->
  FS.passes o (removelast steps) = false ->
  exists init nm parent,
    steps = init ++ [nm] /\ proper nm /\ o = parent ++ [nm]
    /\ FS.reach n [] init = FS.Reached parent
    /\ existsb (FS.is_prefix o) (FS.route [] init) = false.
Proof.
  unfold FS.passes. destruct (steps_cases steps) as [->|(init & last & ->)].
  - intros [= <- _]. discriminate.
  - rewrite resolve_snoc, removelast_last.
    destruct (FS.reach n [] init) as [parent| |] eqn:R; try discriminate.
    destruct (FS.lookup (FS.step parent last) n); [|discriminate].
    intros [= <- _] H. exists init, last, parent.
    assert (FS.is_prefix (FS.step parent last) parent = false) as Hp.
    { apply reach_final in R. subst parent.
      destruct (FS.is_prefix _ _) eqn:E; [|reflexivity].
      rewrite <- H. symmetry. apply existsb_exists. eexists. split; [apply route_end | exact E]. }
    assert (proper last) as P.
    { split; intros ->; unfold FS.step in Hp; simpl in Hp.
      - now rewrite is_prefix_refl in Hp.
      - now rewrite is_prefix_removelast in Hp. }
    rewrite (step_proper parent last P) in *. now repeat split; try apply P.
Qed.

(** A file found off [o], by a walk that does not come by [o], is found
    again in any tree that agrees outside [o]. *)
Lemma resolve_agree_file (o : list string) (n n' : Node) (steps pos : list string)
    (content : string) :
  agree_off o n n' ->
  FS.passes o steps = false ->
  FS.resolve n steps = FS.At pos (File content) ->
  FS.resolve n' steps = FS.At pos (File content).
Proof.
  unfold FS.passes. intros A. destruct (steps_cases steps) as [->|(init & last & ->)].
  - simpl. intros H [= <- ->]. apply orb_false_iff in H as [H _].
    specialize (A [] H). unfold kind in A. simpl in A.
    destruct n' as [c|]; [|discriminate]. now injection A as ->.
  - rewrite route_snoc, existsb_app. intros H. apply orb_false_iff in H as [Hi Hl].
    rewrite !resolve_snoc, <- (reach_agree o n n' [] init A Hi).
    destruct (FS.reach n [] init) as [parent| |] eqn:R; try discriminate.
    rewrite <- (reach_final _ _ _ _ R) in Hl. simpl in Hl. apply orb_false_iff in Hl as [Hl _].
    specialize (A _ Hl). unfold kind in A.
    destruct (FS.lookup (FS.step parent last) n) as [node|]; [|discriminate].
    intros [= <- ->]. now destruct (FS.lookup (FS.step parent last) n') as [[c|]|];
      try discriminate; injection A as ->.
Qed.

(** ** The system calls *)

Lemma after_after (w : World) (n n' : Node) (evs evs' : list Event) :
  after (after w n evs) n' evs' = after w n' (evs ++ evs').
Proof. unfold after. simpl. now rewrite app_assoc. Qed.

Lemma log_after (e : Event) (w : World) : log e w = after w (fs w) [e].
Proof. reflexivity. Qed.

Lemma after_nil (w : World) : after w (fs w) [] = w.
Proof. destruct w. unfold after. simpl. now rewrite app_nil_r. Qed.

(** What a path leads to depends on the working directory and the tree
    only. *)
Lemma stat_same (w w' : World) (path : string) :
  cwd w' = cwd w -> fs w' = fs w -> OS.stat w' path = OS.stat w path.
Proof. intros C F. unfold OS.stat, OS.steps. now rewrite C, F. Qed.

Lemma path_exists_same (w w' : World) (path : string) :
  cwd w' = cwd w -> fs w' = fs w -> OS.path_exists w' path = OS.path_exists w path.
Proof. intros C F. unfold OS.path_exists. now rewrite (stat_same w w' path C F). Qed.

Lemma stat_dir (w : World) (path : string) (pos : list string)
    (es : list (string * Node)) :
  OS.stat w path = FS.At pos (Dir es) ->
  path <> "" /\ FS.resolve (fs w) (OS.steps w path) = FS.At pos (Dir es).
Proof.
  unfold OS.stat. destruct (String.eqb_spec path "") as [->|N]; [discriminate|].
  destruct (FS.resolve (fs w) (OS.steps w path)) as [p [c|es']| | |]; try discriminate.
  - destruct (Str.endswith Posixpath.sep path); discriminate.
  - now intros [= -> ->].
Qed.

Lemma stat_file (w : World) (path : string) (pos : list string) (content : string) :
  OS.stat w path = FS.At pos (File content) ->
  path <> "" /\ Str.endswith Posixpath.sep path = false
  /\ FS.resolve (fs w) (OS.steps w path) = FS.At pos (File content).
Proof.
  unfold OS.stat. destruct (String.eqb_spec path "") as [->|N]; [discriminate|].
  destruct (FS.resolve (fs w) (OS.steps w path)) as [p [c|es']| | |]; try discriminate.
  destruct (Str.endswith Posixpath.sep path); [discriminate|]. now intros [= -> ->].
Qed.

Lemma stat_absent (w : World) (path : string) (parent : list string) (nm : string) :
  OS.stat w path = FS.Absent parent nm ->
  path <> "" /\ FS.resolve (fs w) (OS.steps w path) = FS.Absent parent nm.
Proof.
  unfold OS.stat. destruct (String.eqb_spec path "") as [->|N]; [discriminate|].
  destruct (FS.resolve (fs w) (OS.steps w path)) as [p [c|es']| | |]; try discriminate.
  - destruct (Str.endswith Posixpath.sep path); discriminate.
  - now intros [= -> ->].
Qed.

(** A file found by a way that does not come by [o] is found again when the
    tree has changed at [o] only. *)
Lemma stat_agree_file (o : list string) (w w' : World) (path : string)
    (pos : list string) (content : string) :
  cwd w' = cwd w ->
  agree_off o (fs w) (fs w') ->
  clear_of o w path ->
  OS.stat w path = FS.At pos (File content) ->
  OS.stat w' path = FS.At pos (File content).
Proof.
  intros C A P S. destruct (stat_file _ _ _ _ S) as (N & E & R).
  unfold OS.stat, OS.steps. rewrite C.
  apply String.eqb_neq in N. rewrite N.
  fold (OS.steps w path). rewrite (resolve_agree_file o _ _ _ _ _ A P R). now rewrite E.
Qed.

Lemma is_prefix_snoc_self (p : list string) (x : string) :
  FS.is_prefix (p ++ [x]) p = false.
Proof. induction p as [|a p IH]; simpl; [reflexivity | now rewrite IH, andb_false_r]. Qed.

(** A place below which there is something is not nothing. *)
Lemma kind_above_something (o v : list string) (n : Node) :
  FS.is_prefix o v = true -> kind v n <> Nothing -> kind o n <> Nothing.
Proof.
  intros P K. apply is_prefix_inv in P as [rest ->]. unfold kind in *.
  rewrite lookup_app in K.
  destruct (FS.lookup o n) as [[c|es]|]; [discriminate | discriminate | now destruct K].
Qed.

(** What is found in a tree that has nothing at [o] is found by a way that
    does not come by [o]. *)
Lemma resolve_avoids_absent (o : list string) (n : Node) (steps pos : list string)
    (node : Node) :
  FS.resolve n steps = FS.At pos node ->
  kind o n = Nothing ->
  FS.passes o steps = false.
Proof.
  unfold FS.passes. intros R K.
  assert (FS.is_prefix o pos = false) as Hp.
  { destruct (FS.is_prefix o pos) eqn:E; [|reflexivity].
    pose proof (resolve_at_lookup _ _ _ _ R) as L.
    destruct (kind_above_something o pos n E); [|assumption].
    unfold kind. rewrite L. now destruct node. }
  destruct (steps_cases steps) as [->|(init & last & ->)].
  - injection R as <- _. simpl. now rewrite Hp.
  - rewrite resolve_snoc in R.
    destruct (FS.reach n [] init) as [parent| |] eqn:Rp; try discriminate.
    destruct (FS.lookup (FS.step parent last) n); [|discriminate].
    injection R as <- _.
    rewrite route_snoc, existsb_app, <- (reach_final _ _ _ _ Rp). simpl.
    rewrite Hp. simpl. rewrite orb_false_r.
    apply (reach_avoids n o [] init parent Rp). now rewrite K.
Qed.

(** [shutil.rmtree] on a directory that its path enters from outside: the
    directory goes, with all below it and nothing else, and the walk to its
    parent is as before. *)
Lemma rmtree_removes (path : string) (w : World) (pos : list string)
    (es : list (string * Node)) :
  OS.stat w path = FS.At pos (Dir es) ->
  enters pos w path ->
  exists n1 init nm parent,
    OS.rmtree path w = (Ok tt, after w n1 [EvRmtree path])
    /\ OS.steps w path = init ++ [nm] /\ proper nm /\ pos = parent ++ [nm]
    /\ FS.reach n1 [] init = FS.Reached parent
    /\ kind pos n1 = Nothing
    /\ agree_off pos (fs w) n1.
Proof.
  intros S En. destruct (stat_dir _ _ _ _ S) as (N & R).
  destruct (resolve_enters _ _ _ _ R En) as (init & nm & parent & Es & P & -> & Rp & Av).
  pose proof (resolve_at_lookup _ _ _ _ R) as L.
  destruct (modify_dir (parent ++ [nm]) (fun _ => []) _ _ L) as (ne & Ee & Le).
  pose proof (agree_off_below _ _ _ _ Ee) as Ae.
  assert (FS.reach ne [] init = FS.Reached parent) as Re
    by now rewrite <- (reach_agree _ _ _ _ _ Ae Av).
  pose proof (reach_dir _ _ _ _ Re) as Kp. unfold kind in Kp.
  destruct (FS.lookup parent ne) as [[|esp]|] eqn:Lp; try discriminate.
  destruct (modify_dir parent (FS.remove_entry nm) _ _ Lp) as (n1 & E1 & L1).
  assert (agree_off (parent ++ [nm]) ne n1) as A1.
  { apply (agree_off_entry parent nm _ _ _ E1). intros es0 c Hc.
    now apply find_remove_entry_other. }
  exists n1, init, nm, parent. repeat split; try assumption.
  - unfold OS.rmtree. rewrite S, Ee. unfold OS.rmdir.
    apply String.eqb_neq in N. rewrite N.
    change (OS.steps (set_fs ne (log (EvRmtree path) w)) path) with (OS.steps w path).
    rewrite Es, parent_and_name_snoc. cbn [fs set_fs]. rewrite Re, (proper_dots nm P), Le, E1.
    reflexivity.
  - apply P.
  - apply P.
  - now rewrite <- (reach_agree _ _ _ _ _ A1 Av).
  - unfold kind. rewrite lookup_app, L1. simpl. now rewrite find_remove_entry_same.
  - now apply (agree_off_trans _ _ ne).
Qed.

(** [os.mkdir] where the walk reaches a directory that has no entry of the
    last name: the new directory is there, empty, nothing else has changed,
    and the path can now be walked to its end. *)
Lemma mkdir_creates (path : string) (w : World) (init : list string) (nm : string)
    (parent : list string) :
  path <> "" ->
  OS.steps w path = init ++ [nm] ->
  FS.reach (fs w) [] init = FS.Reached parent ->
  proper nm ->
  FS.lookup (parent ++ [nm]) (fs w) = None ->
  exists n1,
    OS.mkdir path w = (Ok tt, after w n1 [EvMkdir path])
    /\ FS.lookup (parent ++ [nm]) n1 = Some (Dir [])
    /\ agree_off (parent ++ [nm]) (fs w) n1
    /\ FS.reach n1 [] (OS.steps w path) = FS.Reached (parent ++ [nm]).
Proof.
  intros N Es Rp P L.
  pose proof (reach_dir _ _ _ _ Rp) as Kp. unfold kind in Kp.
  destruct (FS.lookup parent (fs w)) as [[|esp]|] eqn:Lp; try discriminate.
  destruct (modify_dir parent (FS.put_entry nm (Dir [])) _ _ Lp) as (n1 & E1 & L1).
  assert (agree_off (parent ++ [nm]) (fs w) n1) as A1.
  { apply (agree_off_entry parent nm _ _ _ E1). intros es0 c Hc.
    now apply find_put_entry_other. }
  assert (FS.lookup (parent ++ [nm]) n1 = Some (Dir [])) as Ln
    by (rewrite lookup_app, L1; simpl; now rewrite find_put_entry_same).
  exists n1. repeat split; try assumption.
  - unfold OS.mkdir. apply String.eqb_neq in N. rewrite N, Es, parent_and_name_snoc, Rp.
    now rewrite (proper_dots nm P), L, E1.
  - rewrite Es, reach_app.
    rewrite <- (reach_agree _ _ _ _ _ A1
                  (reach_avoids _ (parent ++ [nm]) _ _ _ Rp
                     ltac:(unfold kind; rewrite L; discriminate))), Rp.
    rewrite (reach_kind n1 parent [nm]), <- (A1 parent (is_prefix_snoc_self parent nm)).
    unfold kind at 1. rewrite Lp, (step_proper parent nm P), (reach_kind _ _ []).
    unfold kind. now rewrite Ln.
Qed.

Lemma startswith_nonempty (b : string) : Str.startswith "/" b = true -> b <> "".
Proof. now destruct b. Qed.

Lemma append_nonempty_r (a b : string) : b <> "" -> a +s b <> "".
Proof. destruct a; [now simpl | discriminate]. Qed.

Lemma join_nonempty (a b : string) : b <> "" -> Posixpath.join a b <> "".
Proof.
  intros H. unfold Posixpath.join. destruct (Str.startswith "/" b); [assumption|].
  destruct ((a =? "") || Str.endswith Posixpath.sep a).
  - now apply append_nonempty_r.
  - apply append_nonempty_r. discriminate.
Qed.

Lemma endswith_append (c : ascii) (a b : string) :
  b <> "" -> Str.endswith c (a +s b) = Str.endswith c b.
Proof.
  intros H. induction a as [|x a IH]; [reflexivity|]. simpl.
  destruct (a +s b) eqn:E; [|exact IH].
  destruct a; [simpl in E; congruence | discriminate].
Qed.

Lemma plain_no_trailing_sep (nm : string) :
  plain_name nm -> Str.endswith Posixpath.sep nm = false.
Proof.
  intros (E & _). destruct (Str.endswith Posixpath.sep nm) eqn:H; [|reflexivity].
  destruct (endswith_inv _ _ H) as [s' ->]. rewrite split_app_sep in E.
  destruct (Str.split Posixpath.sep s') as [|x l] eqn:S; [now apply split_nonempty in S|].
  simpl in E. destruct l; discriminate.
Qed.

Lemma join_no_trailing_sep (a nm : string) :
  plain_name nm -> Str.endswith Posixpath.sep (Posixpath.join a nm) = false.
Proof.
  intros H. pose proof (plain_no_trailing_sep nm H) as E.
  assert (nm <> "") as N by apply H.
  unfold Posixpath.join. destruct (Str.startswith "/" nm); [assumption|].
  destruct ((a =? "") || Str.endswith Posixpath.sep a).
  - now rewrite endswith_append.
  - rewrite endswith_append by discriminate. now rewrite (endswith_append _ "/" nm).
Qed.

Lemma steps_join (w : World) (d nm : string) :
  plain_name nm -> OS.steps w (Posixpath.join d nm) = OS.steps w d ++ [nm].
Proof. intros H. unfold OS.steps. now apply components_join_join. Qed.

Lemma plain_index_html : plain_name "index.html".
Proof. repeat split; discriminate. Qed.

Lemma plain_index_js : plain_name "index.js".
Proof. repeat split; discriminate. Qed.

(** One turn of the loop of [generate_jinja_templates]: the file [nm] of the
    directory [out_dir] is opened for writing, written and closed. *)
Lemma write_one_file (out_dir nm data : string) (w : World) (pos : list string)
    (es : list (string * Node)) :
  plain_name nm ->
  FS.reach (fs w) [] (OS.steps w out_dir) = FS.Reached pos ->
  FS.lookup pos (fs w) = Some (Dir es) ->
  (forall es', FS.find_entry nm es <> Some (Dir es')) ->
  let path := Posixpath.join out_dir nm in
  exists n',
    with_open (OS.open_w path) path (fun file => OS.write file data) w
    = (Ok tt, after w n' [EvOpen path "+w"; EvWrite path data; EvClose path])
    /\ FS.lookup pos n' = Some (Dir (FS.put_entry nm (File data) es))
    /\ agree_off (pos ++ [nm]) (fs w) n'
    /\ FS.reach n' [] (OS.steps w out_dir) = FS.Reached pos.
Proof.
  intros Hnm R L E. cbv zeta. pose proof (plain_proper nm Hnm) as P.
  assert ((Posixpath.join out_dir nm =? "") = false) as N
    by (apply String.eqb_neq, join_nonempty, Hnm).
  pose proof (steps_join w out_dir nm Hnm) as St.
  pose proof (join_no_trailing_sep out_dir nm Hnm) as Ts.
  set (path := Posixpath.join out_dir nm) in *.
  destruct (modify_dir pos (FS.put_entry nm (File "")) _ _ L) as (n0 & E0 & L0).
  destruct (modify_dir pos (FS.put_entry nm (File data)) _ _ L0) as (n1 & E1 & L1).
  rewrite put_entry_twice in L1.
  assert (agree_off (pos ++ [nm]) (fs w) n1) as A.
  { apply (agree_off_trans _ _ n0).
    - apply (agree_off_entry pos nm _ _ _ E0). intros es0 c Hc.
      now apply find_put_entry_other.
    - apply (agree_off_entry pos nm _ _ _ E1). intros es0 c Hc.
      now apply find_put_entry_other. }
  exists n1. repeat split; try assumption.
  - unfold with_open, OS.open_w. rewrite N, St, parent_and_name_snoc, R.
    rewrite (proper_dots nm P), lookup_app, L. cbn [FS.lookup]. rewrite Ts, E0.
    assert (forall found : option Node,
              (forall es', found <> Some (Dir es')) ->
              match match found with Some m => Some m | None => None end with
              | Some (Dir _) => (Raise (IsADirectoryError path), log (EvOpen path "+w") w)
              | _ => (Ok (mkHandle path (pos ++ [nm])),
                      set_fs n0 (log (EvOpen path "+w") w))
              end
              = (Ok (mkHandle path (pos ++ [nm])), set_fs n0 (log (EvOpen path "+w") w)))
      as K.
    { intros [[c|es']|] H; try reflexivity. now destruct (H es'). }
    rewrite (K _ E). unfold OS.write. cbn [handle_pos handle_path fs set_fs log].
    rewrite parent_and_name_snoc, lookup_app, L0. cbn [FS.lookup].
    rewrite find_put_entry_same, E1.
    unfold log, set_fs, after. simpl. now rewrite <- !app_assoc.
  - apply reach_dir in R as K.
    rewrite <- (reach_agree _ _ _ _ _ A
                  (reach_avoids _ (pos ++ [nm]) _ _ _ R
                     ltac:(unfold kind; rewrite lookup_app, L; cbn [FS.lookup];
                           destruct (FS.find_entry nm es) as [[c|es']|] eqn:F;
                             try discriminate; now destruct (E es')))).
    exact R.
Qed.

(** A path that can be walked to a directory leads to it. *)
Lemma stat_of_reach (w : World) (path : string) (pos : list string) :
  path <> "" ->
  FS.reach (fs w) [] (OS.steps w path) = FS.Reached pos ->
  exists es, OS.stat w path = FS.At pos (Dir es).
Proof.
  intros N R. destruct (reach_resolve _ _ _ R) as [es E]. exists es.
  unfold OS.stat. apply String.eqb_neq in N. now rewrite N, E.
Qed.

Lemma stat_dir_reach (w : World) (path : string) (pos : list string)
    (es : list (string * Node)) :
  OS.stat w path = FS.At pos (Dir es) ->
  path <> "" /\ FS.reach (fs w) [] (OS.steps w path) = FS.Reached pos
  /\ FS.lookup pos (fs w) = Some (Dir es).
Proof.
  intros S. destruct (stat_dir _ _ _ _ S) as (N & R).
  repeat split; [assumption | now apply (resolve_at_dir _ _ _ es) | now apply (resolve_at_lookup _ (OS.steps w path))].
Qed.

(** Where nothing is, no path leads. *)
Lemma stat_nothing (w : World) (path : string) (pos : list string) (node : Node) :
  OS.stat w path = FS.At pos node -> kind pos (fs w) <> Nothing.
Proof.
  unfold OS.stat. destruct (path =? ""); [discriminate|].
  destruct (FS.resolve (fs w) (OS.steps w path)) as [p nd| | |] eqn:R; try discriminate.
  intros H. assert (p = pos) as -> by (destruct nd; [destruct (Str.endswith _ _)|]; congruence).
  apply resolve_at_lookup in R. unfold kind. rewrite R. now destruct nd.
Qed.

(** ** The driver, stage by stage *)

Section Driver.

Variable json_load yaml_safe_load : string -> Result ConfigObjT.
Variable environment : string -> Config -> string.

Local Abbreviation main := (main json_load yaml_safe_load environment).
Local Abbreviation parse_and_render :=
  (parse_and_render json_load yaml_safe_load environment).
Local Abbreviation get_config_parser := (get_config_parser json_load yaml_safe_load).
Local Abbreviation generate_jinja_templates := (generate_jinja_templates environment).

(** [main] is the format resolution, the check of the output directory and
    then the rest. *)
Lemma main_stages (args : Args) (w : World) :
  main args w =
  match file_format_of args w with
  | Raise e => (Raise e, w)
  | Ok file_format =>
      let out_dir := out_dir_of args w in
      let w1 := after w (fs w) [EvExists out_dir] in
      if OS.path_exists w out_dir then
        if force args then
          match OS.rmtree out_dir w1 with
          | (Ok _, w2) => parse_and_render (file_path_of args w) file_format out_dir w2
          | (Raise e, w2) => (Raise e, w2)
          end
        else
          (Ok 2%Z,
           mkWorld (cwd w) (fs w) (stderr w ++ [refusal out_dir])
                   (events w ++ [EvExists out_dir]))
      else parse_and_render (file_path_of args w) file_format out_dir w1
  end.
Proof.
  unfold main, file_format_of, bind, OS.abspath, OS.getcwd, OS.exists_, lift, ret.
  fold (file_path_of args w).
  destruct (format args) as [f|].
  - fold (out_dir_of args w).
    destruct (OS.path_exists w (out_dir_of args w)); [|reflexivity].
    destruct (force args); reflexivity.
  - destruct (index (Str.rsplit1 "."%char (file_path_of args w)) 1) as [ext|e];
      [|reflexivity].
    destruct (parse_ext_to_format ext) as [f|e]; [|reflexivity].
    fold (out_dir_of args w).
    destruct (OS.path_exists w (out_dir_of args w)); [|reflexivity].
    destruct (force args); reflexivity.
Qed.

Lemma get_config_parser_unknown (file_format : string) :
  file_format <> "json" -> file_format <> "yaml" ->
  get_config_parser file_format = Raise (KeyError file_format).
Proof.
  intros H1 H2. unfold get_config_parser. cbn [getitem].
  apply String.eqb_neq in H1, H2.
  now rewrite (String.eqb_sym "json"), H1, (String.eqb_sym "yaml"), H2.
Qed.

(** The [try] block on a readable source file. *)
Lemma try_read (file_path file_format text : string) (w : World) (pos : list string) :
  OS.stat w file_path = FS.At pos (File text) ->
  try_ValidationError
    (with_open (OS.open_r file_path) file_path (fun file =>
       parser <- lift (get_config_parser file_format) ;;
       lift (parser file))) w
  = (caught (parsed json_load yaml_safe_load file_format text),
     after w (fs w) (read_events file_path)).
Proof.
  intros L. unfold try_ValidationError, with_open, OS.open_r, bind, lift, parsed.
  rewrite L.
  assert (log (EvClose file_path) (log (EvOpen file_path "r") w)
          = after w (fs w) (read_events file_path)) as W.
  { unfold log, after, read_events. simpl. now rewrite <- app_assoc. }
  destruct (get_config_parser file_format) as [parser|e].
  - destruct (parser text) as [c|[]]; rewrite W; reflexivity.
  - destruct e; rewrite W; reflexivity.
Qed.

Lemma parse_and_render_invalid (file_path file_format out_dir text : string)
    (w : World) (pos : list string) (messages : Messages) :
  OS.stat w file_path = FS.At pos (File text) ->
  parsed json_load yaml_safe_load file_format text = Raise (ValidationError messages) ->
  parse_and_render file_path file_format out_dir w
  = (Ok 1%Z,
     mkWorld (cwd w) (fs w) (stderr w ++ [Repr messages])
             (events w ++ read_events file_path)).
Proof.
  intros L P. unfold parse_and_render. unfold bind at 1.
  rewrite (try_read _ _ _ _ _ L), P. reflexivity.
Qed.

Lemma parse_and_render_raise (file_path file_format out_dir text : string)
    (w : World) (pos : list string) (e : Exn) :
  OS.stat w file_path = FS.At pos (File text) ->
  parsed json_load yaml_safe_load file_format text = Raise e ->
  (forall messages, e <> ValidationError messages) ->
  parse_and_render file_path file_format out_dir w
  = (Raise e, after w (fs w) (read_events file_path)).
Proof.
  intros L P N. unfold parse_and_render. unfold bind at 1.
  rewrite (try_read _ _ _ _ _ L), P.
  destruct e; try reflexivity. now destruct (N messages).
Qed.

(** Rendering into a directory that is there, over no subdirectory of the
    two names. *)
Lemma generate_in_dir (config : Config) (out_dir : string) (w : World)
    (pos : list string) (es : list (string * Node)) :
  FS.reach (fs w) [] (OS.steps w out_dir) = FS.Reached pos ->
  FS.lookup pos (fs w) = Some (Dir es) ->
  (forall es', FS.find_entry "index.html" es <> Some (Dir es')) ->
  (forall es', FS.find_entry "index.js" es <> Some (Dir es')) ->
  exists n',
    generate_jinja_templates config out_dir w
    = (Ok tt, after w n' (render_events environment config out_dir))
    /\ FS.lookup pos n'
       = Some (Dir (FS.put_entry "index.js"
                      (File (environment "index.js.jinja" config))
                      (FS.put_entry "index.html"
                         (File (environment "index.html.jinja" config)) es)))
    /\ agree_off pos (fs w) n'
    /\ FS.reach n' [] (OS.steps w out_dir) = FS.Reached pos.
Proof.
  intros R L Eh Ej.
  unfold generate_jinja_templates, for_each, bind, Template_load. simpl name.
  destruct (write_one_file out_dir "index.html"
              (environment ("index.html" +s ".jinja") config) w pos es
              plain_index_html R L Eh) as (n1 & -> & L1 & A1 & R1).
  destruct (write_one_file out_dir "index.js"
              (environment ("index.js" +s ".jinja") config)
              (after w n1 (write_events out_dir "index.html"
                             (environment "index.html.jinja" config))) pos _
              plain_index_js R1 L1) as (n2 & E2 & L2 & A2 & R2).
  { intros es'. rewrite find_put_entry_other by discriminate. apply Ej. }
  exists n2. repeat split; try assumption.
  - unfold write_events in E2. simpl in E2 |- *. rewrite E2.
    unfold ret. now rewrite after_after.
  - apply (agree_off_trans _ _ n1);
      [apply (agree_off_mono (pos ++ ["index.html"])) | apply (agree_off_mono (pos ++ ["index.js"]))];
      try assumption; apply is_prefix_app.
Qed.

(** The [try] block and the rendering, where the output directory can be
    made: the source holds a valid config, the walk of the output path gets to
    a directory that has no entry of the last name. *)
Lemma parse_and_render_valid (file_path file_format out_dir text : string)
    (w : World) (spos : list string) (config : Config) (init : list string)
    (nm : string) (parent : list string) :
  OS.stat w file_path = FS.At spos (File text) ->
  parsed json_load yaml_safe_load file_format text = Ok config ->
  out_dir <> "" ->
  OS.steps w out_dir = init ++ [nm] ->
  FS.reach (fs w) [] init = FS.Reached parent ->
  proper nm ->
  FS.lookup (parent ++ [nm]) (fs w) = None ->
  exists n',
    parse_and_render file_path file_format out_dir w
    = (Ok 0%Z,
       after w n' (read_events file_path ++ [EvMkdir out_dir]
                   ++ render_events environment config out_dir))
    /\ OS.stat (after w n' []) out_dir
       = FS.At (parent ++ [nm]) (Dir (rendered environment config))
    /\ agree_off (parent ++ [nm]) (fs w) n'.
Proof.
  intros L P N Es Rp Pn Ln. unfold parse_and_render. unfold bind at 1.
  rewrite (try_read _ _ _ _ _ L), P. simpl caught. cbv iota beta. unfold bind.
  destruct (mkdir_creates out_dir (after w (fs w) (read_events file_path)) init nm parent
              N Es Rp Pn Ln) as (n1 & -> & L1 & A1 & R1).
  rewrite after_after.
  destruct (generate_in_dir config out_dir
              (after w n1 (read_events file_path ++ [EvMkdir out_dir]))
              (parent ++ [nm]) [] R1 L1) as (n2 & -> & L2 & A2 & R2);
    try discriminate.
  exists n2. repeat split.
  - unfold ret. now rewrite after_after, <- app_assoc.
  - destruct (stat_of_reach (after w n2 []) out_dir (parent ++ [nm]) N R2) as [es S].
    rewrite S. destruct (stat_dir_reach _ _ _ _ S) as (_ & _ & L3).
    simpl in L3, L2. rewrite L2 in L3. now injection L3 as <-.
  - now apply (agree_off_trans _ _ n1).
Qed.

(** Past the check when nothing is at the output path. *)
Lemma main_absent (args : Args) (w : World) (file_format : string) :
  file_format_of args w = Ok file_format ->
  OS.path_exists w (out_dir_of args w) = false ->
  main args w
  = parse_and_render (file_path_of args w) file_format (out_dir_of args w)
      (after w (fs w) [EvExists (out_dir_of args w)]).
Proof. intros F L. rewrite main_stages, F. cbv zeta. now rewrite L. Qed.

Lemma stat_exists (w : World) (path : string) (pos : list string) (node : Node) :
  OS.stat w path = FS.At pos node -> OS.path_exists w path = true.
Proof. unfold OS.path_exists. now intros ->. Qed.

(** Past the check under [--force]: the directory is gone, the walk to its
    parent is as before, and outside it nothing has changed. *)
Lemma main_forced (args : Args) (w : World) (file_format : string)
    (pos : list string) (es : list (string * Node)) :
  file_format_of args w = Ok file_format ->
  force args = true ->
  OS.stat w (out_dir_of args w) = FS.At pos (Dir es) ->
  enters pos w (out_dir_of args w) ->
  exists n1 init nm parent,
    main args w
    = parse_and_render (file_path_of args w) file_format (out_dir_of args w)
        (after w n1 [EvExists (out_dir_of args w); EvRmtree (out_dir_of args w)])
    /\ OS.steps w (out_dir_of args w) = init ++ [nm] /\ proper nm
    /\ pos = parent ++ [nm]
    /\ FS.reach n1 [] init = FS.Reached parent
    /\ kind pos n1 = Nothing
    /\ agree_off pos (fs w) n1.
Proof.
  intros F Hf S En. rewrite main_stages, F. cbv zeta.
  rewrite (stat_exists _ _ _ _ S), Hf.
  destruct (rmtree_removes (out_dir_of args w)
              (after w (fs w) [EvExists (out_dir_of args w)]) pos es S En)
    as (n1 & init & nm & parent & -> & Es & P & Ep & R & K & A).
  rewrite after_after. exists n1, init, nm, parent.
  repeat split; try assumption; apply P.
Qed.

(** What is not there has no path leading to it. *)
Lemma gone_not_exists (w : World) (path : string) (init : list string) (nm : string)
    (parent : list string) :
  OS.steps w path = init ++ [nm] -> proper nm ->
  (forall p, FS.reach (fs w) [] init = FS.Reached p -> p = parent) ->
  kind (parent ++ [nm]) (fs w) = Nothing ->
  OS.path_exists w path = false.
Proof.
  intros Es P Rp K. unfold OS.path_exists, OS.stat.
  destruct (path =? ""); [reflexivity|]. rewrite Es, resolve_snoc.
  destruct (FS.reach (fs w) [] init) as [p| |] eqn:R; try reflexivity.
  rewrite (Rp p eq_refl), (step_proper parent nm P).
  revert K. unfold kind.
  now destruct (FS.lookup (parent ++ [nm]) (fs w)) as [[c|es]|].
Qed.

Lemma kind_nothing_lookup (q : list string) (n : Node) :
  kind q n = Nothing -> FS.lookup q n = None.
Proof. unfold kind. now destruct (FS.lookup q n) as [[c|es]|]. Qed.

(** Past the check under [--force] the output path leads nowhere. *)
Lemma removed_not_exists (w w' : World) (path : string)
    (init : list string) (nm : string) (parent : list string) :
  cwd w' = cwd w ->
  OS.steps w path = init ++ [nm] -> proper nm ->
  FS.reach (fs w') [] init = FS.Reached parent ->
  kind (parent ++ [nm]) (fs w') = Nothing ->
  OS.path_exists w' path = false.
Proof.
  intros C Es P R K. apply (gone_not_exists _ path init nm parent); try assumption.
  - unfold OS.steps in *. now rewrite C.
  - rewrite R. now intros p [= <-].
Qed.


(** The run under [--force] over a directory its path enters from outside,
    with a valid config in a source file found by a way that does not lead
    through the directory. *)
Lemma main_forced_valid (args : Args) (w : World) (file_format text : string)
    (config : Config) (pos spos : list string) (es : list (string * Node)) :
  force args = true ->
  OS.stat w (out_dir_of args w) = FS.At pos (Dir es) ->
  enters pos w (out_dir_of args w) ->
  file_format_of args w = Ok file_format ->
  OS.stat w (file_path_of args w) = FS.At spos (File text) ->
  clear_of pos w (file_path_of args w) ->
  parsed json_load yaml_safe_load file_format text = Ok config ->
  exists n',
    main args w
    = (Ok 0%Z,
       after w n'
         ([EvExists (out_dir_of args w); EvRmtree (out_dir_of args w)]
          ++ read_events (file_path_of args w)
          ++ [EvMkdir (out_dir_of args w)]
          ++ render_events environment config (out_dir_of args w)))
    /\ OS.stat (after w n' []) (out_dir_of args w)
       = FS.At pos (Dir (rendered environment config))
    /\ agree_off pos (fs w) n'.
Proof.
  intros Hf S En F Ls Cl P.
  destruct (main_forced args w file_format pos es F Hf S En)
    as (n1 & init & nm & parent & -> & Es & Pn & -> & R & K & A).
  destruct (parse_and_render_valid (file_path_of args w) file_format
              (out_dir_of args w) text
              (after w n1 [EvExists (out_dir_of args w); EvRmtree (out_dir_of args w)])
              spos config init nm parent) as (n2 & -> & S2 & A2); try assumption.
  - now apply (stat_agree_file (parent ++ [nm]) w).
  - apply (stat_dir _ _ _ _ S).
  - now apply kind_nothing_lookup.
  - exists n2. rewrite after_after. repeat split.
    + exact S2.
    + now apply (agree_off_trans _ _ n1).
Qed.


(** The run up to the failure of the parser, past the check of the output
    directory. *)
Lemma main_parser_fails (args : Args) (w : World) (file_format text : string)
    (spos : list string) :
  file_format_of args w = Ok file_format ->
  (OS.path_exists w (out_dir_of args w) = false
   \/ (force args = true
       /\ exists pos es,
            OS.stat w (out_dir_of args w) = FS.At pos (Dir es)
            /\ enters pos w (out_dir_of args w)
            /\ clear_of pos w (file_path_of args w))) ->
  OS.stat w (file_path_of args w) = FS.At spos (File text) ->
  exists n1,
    let w1 := after w n1
                ([EvExists (out_dir_of args w)]
                 ++ (if OS.path_exists w (out_dir_of args w)
                     then [EvRmtree (out_dir_of args w)] else [])) in
    main args w
    = parse_and_render (file_path_of args w) file_format (out_dir_of args w) w1
    /\ OS.stat w1 (file_path_of args w) = FS.At spos (File text)
    /\ OS.path_exists w1 (out_dir_of args w) = false.
Proof.
  intros F [L|(Hf & pos & es & S & En & Cl)] Ls.
  - exists (fs w). cbv zeta. rewrite L. split; [now apply main_absent|]. split.
    + now rewrite (stat_same w).
    + now rewrite (path_exists_same w).
  - destruct (main_forced args w file_format pos es F Hf S En)
      as (n1 & init & nm & parent & -> & Es & Pn & -> & R & K & A).
    exists n1. cbv zeta. rewrite (stat_exists _ _ _ _ S). split; [reflexivity|]. split.
    + now apply (stat_agree_file (parent ++ [nm]) w).
    + now apply (removed_not_exists w _ _ init nm parent).
Qed.

(** C6: when the source file deserializes and the schema rejects it, the
    run (past the check of the output directory: nothing is at the output
    path, or [--force] has removed the directory there, which did not hold
    the source) prints the messages of the validation error, field by field,
    to the error stream and exits with code 1. *)
Theorem validation_error_exits_1 (args : Args) (w : World)
    (file_format text : string) (spos : list string) (messages : Messages) :
  file_format_of args w = Ok file_format ->
  (OS.path_exists w (out_dir_of args w) = false
   \/ (force args = true
       /\ exists pos es,
            OS.stat w (out_dir_of args w) = FS.At pos (Dir es)
            /\ enters pos w (out_dir_of args w)
            /\ clear_of pos w (file_path_of args w))) ->
  OS.stat w (file_path_of args w) = FS.At spos (File text) ->
  parsed json_load yaml_safe_load file_format text = Raise (ValidationError messages) ->
  exists w',
    main args w = (Ok 1%Z, w')
    /\ stderr w' = stderr w ++ [Repr messages].
Proof.
  intros F C Ls P.
  destruct (main_parser_fails args w file_format text spos F C Ls) as (n1 & -> & S1 & _).
  rewrite (parse_and_render_invalid _ _ _ text _ spos messages S1 P).
  eexists. split; reflexivity.
Qed.

(** C9: under [--force], with a directory at the output path and a source
    file, not reached through it, that the schema rejects, the directory has
    been removed by the time validation fails and is not made again: the run
    exits with code 1, the messages on the error stream, and nothing is left
    at the output path. *)
Theorem force_then_validation_error_loses_directory (args : Args) (w : World)
    (file_format text : string) (messages : Messages) (pos spos : list string)
    (es : list (string * Node)) :
  force args = true ->
  OS.stat w (out_dir_of args w) = FS.At pos (Dir es) ->
  enters pos w (out_dir_of args w) ->
  file_format_of args w = Ok file_format ->
  OS.stat w (file_path_of args w) = FS.At spos (File text) ->
  clear_of pos w (file_path_of args w) ->
  parsed json_load yaml_safe_load file_format text = Raise (ValidationError messages) ->
  exists w',
    main args w = (Ok 1%Z, w')
    /\ OS.path_exists w' (out_dir_of args w) = false
    /\ FS.lookup pos (fs w') = None
    /\ stderr w' = stderr w ++ [Repr messages]
    /\ events w'
       = events w
         ++ [EvExists (out_dir_of args w); EvRmtree (out_dir_of args w)]
         ++ read_events (file_path_of args w).
Proof.
  intros Hf S En F Ls Cl P.
  destruct (main_forced args w file_format pos es F Hf S En)
    as (n1 & init & nm & parent & -> & Es & Pn & -> & R & K & A).
  assert (OS.stat (after w n1 [EvExists (out_dir_of args w); EvRmtree (out_dir_of args w)])
            (file_path_of args w) = FS.At spos (File text)) as S1
    by now apply (stat_agree_file (parent ++ [nm]) w).
  rewrite (parse_and_render_invalid _ _ _ text _ spos messages S1 P).
  eexists. split; [reflexivity|]. repeat split.
  - now apply (removed_not_exists w _ _ init nm parent).
  - now apply kind_nothing_lookup.
  - cbn [events after]. now rewrite <- app_assoc.
Qed.

(** Rendering into an empty directory that a path leads to. *)
Lemma generate_in_empty (config : Config) (out_dir : string) (w : World)
    (pos : list string) :
  OS.stat w out_dir = FS.At pos (Dir []) ->
  exists n',
    generate_jinja_templates config out_dir w
    = (Ok tt, after w n' (render_events environment config out_dir))
    /\ OS.stat (after w n' []) out_dir = FS.At pos (Dir (rendered environment config))
    /\ agree_off pos (fs w) n'.
Proof.
  intros S. destruct (stat_dir_reach _ _ _ _ S) as (N & R & L).
  destruct (generate_in_dir config out_dir w pos [] R L) as (n' & E & L' & A & R');
    try discriminate.
  exists n'. repeat split; try assumption.
  destruct (stat_of_reach (after w n' []) out_dir pos N R') as [es S'].
  rewrite S'. destruct (stat_dir_reach _ _ _ _ S') as (_ & _ & L3).
  simpl in L3, L'. rewrite L' in L3. now injection L3 as <-.
Qed.

(** C8: rendering a config into an empty directory writes two files there,
    [index.html] and [index.js], and nothing else anywhere: the text of each is
    what its template makes of the config and of nothing but the config, so
    two renderings of one config, into whichever two empty directories of
    whichever worlds, leave the same bytes under the same names. *)
Theorem rendering_is_deterministic (config : Config) (d1 d2 : string)
    (w1 w2 : World) (pos1 pos2 : list string) :
  OS.stat w1 d1 = FS.At pos1 (Dir []) ->
  OS.stat w2 d2 = FS.At pos2 (Dir []) ->
  exists w1' w2',
    generate_jinja_templates config d1 w1 = (Ok tt, w1')
    /\ generate_jinja_templates config d2 w2 = (Ok tt, w2')
    /\ OS.stat w1' d1
       = FS.At pos1 (Dir [("index.html", File (environment "index.html.jinja" config));
                          ("index.js", File (environment "index.js.jinja" config))])
    /\ OS.stat w2' d2
       = FS.At pos2 (Dir [("index.html", File (environment "index.html.jinja" config));
                          ("index.js", File (environment "index.js.jinja" config))])
    /\ agree_off pos1 (fs w1) (fs w1')
    /\ agree_off pos2 (fs w2) (fs w2')
    /\ events w1'
       = events w1
         ++ write_events d1 "index.html" (environment "index.html.jinja" config)
         ++ write_events d1 "index.js" (environment "index.js.jinja" config)
    /\ events w2'
       = events w2
         ++ write_events d2 "index.html" (environment "index.html.jinja" config)
         ++ write_events d2 "index.js" (environment "index.js.jinja" config).
Proof.
  intros S1 S2.
  destruct (generate_in_empty config d1 w1 pos1 S1) as (n1 & E1 & R1 & A1).
  destruct (generate_in_empty config d2 w2 pos2 S2) as (n2 & E2 & R2 & A2).
  exists (after w1 n1 (render_events environment config d1)),
         (after w2 n2 (render_events environment config d2)).
  now repeat split.
Qed.

(** C7, as the code has it: [get_config_parser] knows the two tokens
    [json] and [yaml], each parser deserializes and then validates, and any
    other token, [yml] among them, is a [KeyError]; [yml] is an extension
    only, which [parse_ext_to_format] turns into [yaml] before the parser is
    looked up. *)
Theorem parser_selection (token text : string) :
  get_config_parser token
  = (if token =? "json" then Ok (json_parser json_load)
     else if token =? "yaml" then Ok (yaml_parser yaml_safe_load)
     else Raise (KeyError token))
  /\ json_parser json_load text
     = match json_load text with
       | Ok data => ConfigSchema_load data
       | Raise e => Raise e
       end
  /\ yaml_parser yaml_safe_load text
     = match yaml_safe_load text with
       | Ok data => ConfigSchema_load data
       | Raise e => Raise e
       end
  /\ parser_for_extension json_load yaml_safe_load token
     = (if token =? "json" then Ok (json_parser json_load)
        else if (token =? "yaml") || (token =? "yml")
             then Ok (yaml_parser yaml_safe_load)
        else Raise (KeyError token)).
Proof.
  repeat split.
  - unfold get_config_parser. cbn [getitem].
    rewrite (String.eqb_sym "json"), (String.eqb_sym "yaml").
    destruct (token =? "json"); [reflexivity|]. now destruct (token =? "yaml").
  - unfold parser_for_extension, parse_ext_to_format. cbn [getitem].
    rewrite (String.eqb_sym "json"), (String.eqb_sym "yaml"), (String.eqb_sym "yml").
    destruct (token =? "json"); [reflexivity|].
    destruct (token =? "yaml"); [reflexivity|].
    now destruct (token =? "yml").
Qed.

Lemma rpartition_without (c : ascii) (s : string) :
  Str.contains c s = false -> Str.rpartition c s = None.
Proof.
  induction s as [|a s IH]; simpl; [reflexivity|].
  intros H. apply orb_false_iff in H as [Ha Hs]. now rewrite (IH Hs), Ha.
Qed.

(** C10, as the code has it: with no [--type], when the absolute path of
    the source (the working directory joined with [SRC], normalised) holds no
    dot, [rsplit] gives one piece and taking the second raises [IndexError],
    which nothing catches: the run ends there, before any call on the file
    system, and returns no exit code. *)
Theorem no_dot_in_absolute_path_raises_IndexError (args : Args) (w : World) :
  format args = None ->
  Str.contains "."%char (file_path_of args w) = false ->
  main args w = (Raise IndexError, w).
Proof.
  intros Hf Hd. rewrite main_stages. unfold file_format_of, Str.rsplit1.
  now rewrite Hf, (rpartition_without _ _ Hd).
Qed.

(** C1, as the code has it: an unrecognised [--type] is looked up only
    inside the [try] block.  Past the check of the output directory (nothing
    is at the output path, or [--force] has removed the directory there, which
    did not hold the source) and with a source file that opens, the run has by
    then removed the output directory, if there was one, and opened and closed
    the source file; it then fails with the [KeyError] of the token, before
    the output directory is made and before anything is written. *)
Theorem unknown_type_fails_after_the_source_is_opened (args : Args) (w : World)
    (token text : string) (spos : list string) :
  format args = Some token ->
  token <> "json" -> token <> "yaml" ->
  (OS.path_exists w (out_dir_of args w) = false
   \/ (force args = true
       /\ exists pos es,
            OS.stat w (out_dir_of args w) = FS.At pos (Dir es)
            /\ enters pos w (out_dir_of args w)
            /\ clear_of pos w (file_path_of args w))) ->
  OS.stat w (file_path_of args w) = FS.At spos (File text) ->
  exists w',
    main args w = (Raise (KeyError token), w')
    /\ events w'
       = events w
         ++ [EvExists (out_dir_of args w)]
         ++ (if OS.path_exists w (out_dir_of args w)
             then [EvRmtree (out_dir_of args w)] else [])
         ++ read_events (file_path_of args w)
    /\ OS.path_exists w' (out_dir_of args w) = false
    /\ stderr w' = stderr w.
Proof.
  intros Hfmt H1 H2 Hcheck Ls.
  assert (file_format_of args w = Ok token) as F
    by (unfold file_format_of; now rewrite Hfmt).
  assert (parsed json_load yaml_safe_load token text = Raise (KeyError token)) as P
    by (unfold parsed; now rewrite get_config_parser_unknown).
  assert (forall messages, KeyError token <> ValidationError messages) as N
    by discriminate.
  destruct (main_parser_fails args w token text spos F Hcheck Ls) as (n1 & -> & S1 & X1).
  rewrite (parse_and_render_raise _ _ _ text _ spos _ S1 P N).
  eexists. split; [reflexivity|]. repeat split.
  - cbn [events after]. now rewrite <- !app_assoc.
  - now rewrite <- X1.
Qed.

(** With no [--type], an extension that is no key of the table raises
    [KeyError] while the format is resolved: no call on the file system has
    been made, the world is as it was. *)
Theorem unknown_extension_fails_before_any_call (args : Args) (w : World)
    (stem ext : string) :
  format args = None ->
  Str.rpartition "."%char (file_path_of args w) = Some (stem, ext) ->
  ext <> "json" -> ext <> "yaml" -> ext <> "yml" ->
  main args w = (Raise (KeyError ext), w).
Proof.
  intros Hf Hp H1 H2 H3. rewrite main_stages.
  unfold file_format_of, Str.rsplit1. rewrite Hf, Hp.
  unfold index, parse_ext_to_format. cbn [nth_error getitem].
  apply String.eqb_neq in H1, H2, H3.
  now rewrite (String.eqb_sym "json"), H1, (String.eqb_sym "yaml"), H2,
    (String.eqb_sym "yml"), H3.
Qed.

(** The run where the output path leads to nothing yet, in a directory that
    is there, and the source holds a valid config. *)
Lemma main_fresh (args : Args) (w : World) (file_format text : string)
    (config : Config) (parent spos : list string) (nm : string) :
  file_format_of args w = Ok file_format ->
  OS.stat w (out_dir_of args w) = FS.Absent parent nm ->
  OS.stat w (file_path_of args w) = FS.At spos (File text) ->
  parsed json_load yaml_safe_load file_format text = Ok config ->
  exists n',
    main args w
    = (Ok 0%Z,
       after w n'
         ([EvExists (out_dir_of args w)]
          ++ read_events (file_path_of args w)
          ++ [EvMkdir (out_dir_of args w)]
          ++ render_events environment config (out_dir_of args w)))
    /\ OS.stat (after w n' []) (out_dir_of args w)
       = FS.At (parent ++ [nm]) (Dir (rendered environment config))
    /\ agree_off (parent ++ [nm]) (fs w) n'.
Proof.
  intros F S Ls P. destruct (stat_absent _ _ _ _ S) as (N & R).
  destruct (resolve_absent _ _ _ _ R) as (init & Es & Rp & Pn & L).
  rewrite (main_absent args w file_format F)
    by (unfold OS.path_exists; now rewrite S).
  destruct (parse_and_render_valid (file_path_of args w) file_format
              (out_dir_of args w) text
              (after w (fs w) [EvExists (out_dir_of args w)])
              spos config init nm parent) as (n2 & -> & S2 & A2); try assumption.
  exists n2. rewrite after_after. now repeat split.
Qed.

(** A first run: nothing is at the output path, the directory it is to be
    made in is there, and the source holds a valid config.  The run reads the
    source, makes the directory, renders into it and exits with code 0. *)
Theorem fresh_run_renders (args : Args) (w : World) (file_format text : string)
    (config : Config) (parent spos : list string) (nm : string) :
  file_format_of args w = Ok file_format ->
  OS.stat w (out_dir_of args w) = FS.Absent parent nm ->
  OS.stat w (file_path_of args w) = FS.At spos (File text) ->
  parsed json_load yaml_safe_load file_format text = Ok config ->
  exists w',
    main args w = (Ok 0%Z, w')
    /\ events w'
       = events w
         ++ [EvExists (out_dir_of args w)]
         ++ read_events (file_path_of args w)
         ++ [EvMkdir (out_dir_of args w)]
         ++ render_events environment config (out_dir_of args w)
    /\ OS.stat w' (out_dir_of args w)
       = FS.At (parent ++ [nm]) (Dir (rendered environment config))
    /\ stderr w' = stderr w.
Proof.
  intros F S Ls P.
  destruct (main_fresh args w file_format text config parent spos nm F S Ls P)
    as (n' & -> & S' & _).
  eexists. split; [reflexivity|]. repeat split. exact S'.
Qed.

End Driver.
(** ** The validator *)

(** What a mapping holds under a key is what [get] finds. *)
Lemma field_of_get (d : list (string * ConfigObjT)) (k : string) :
  field_of d k (Marshmallow.get d k).
Proof.
  induction d as [|[k' v] d IH]; simpl; [constructor|].
  destruct (String.eqb_spec k' k) as [->|H]; now constructor.
Qed.

Lemma field_of_fun (d : list (string * ConfigObjT)) (k : string)
    (v : option ConfigObjT) :
  field_of d k v -> v = Marshmallow.get d k.
Proof.
  induction 1; simpl.
  - reflexivity.
  - now rewrite String.eqb_refl.
  - apply String.eqb_neq in H. now rewrite H.
Qed.

Lemma field_of_missing (d : list (string * ConfigObjT)) (k : string) :
  ~ In k (map fst d) -> field_of d k None.
Proof.
  induction d as [|[k' v] d IH]; simpl; intros H; constructor.
  - intros ->. apply H. now left.
  - apply IH. intros Hin. apply H. now right.
Qed.

Lemma flatten_cons (k : Key) (m : Messages) (d : list (Key * Messages)) :
  flatten (Errors ((k, m) :: d))
  = map (fun pm => (k :: fst pm, snd pm)) (flatten m) ++ flatten (Errors d).
Proof. reflexivity. Qed.

Lemma flatten_app (a b : list (Key * Messages)) :
  flatten (Errors (a ++ b)) = flatten (Errors a) ++ flatten (Errors b).
Proof.
  induction a as [|[k m] a IH]; [reflexivity|].
  rewrite <- app_comm_cons, !flatten_cons, IH. now rewrite app_assoc.
Qed.

Lemma in_flatten_cons (k : Key) (m : Messages) (d : list (Key * Messages))
    (path : list Key) (msg : string) :
  In (path, msg) (flatten (Errors ((k, m) :: d)))
  <-> (exists p, path = k :: p /\ In (p, msg) (flatten m))
      \/ In (path, msg) (flatten (Errors d)).
Proof.
  rewrite flatten_cons, in_app_iff, in_map_iff. split.
  - intros [([p s] & [= <- <-] & H)|H]; [left; now exists p | now right].
  - intros [(p & -> & H)|H]; [left; now exists (p, msg) | now right].
Qed.

Lemma mem_In (k : string) (l : list string) : Str.mem k l = true <-> In k l.
Proof.
  unfold Str.mem. rewrite existsb_exists. split.
  - intros (x & H & E). apply String.eqb_eq in E. now subst.
  - intros H. exists k. split; [assumption | apply String.eqb_refl].
Qed.

Lemma in_flatten_store {A} (f : string) (r : Messages + A) (path : list Key)
    (msg : string) :
  In (path, msg) (flatten (Errors (Marshmallow.store f r)))
  <-> exists m p, r = inl m /\ path = Field f :: p /\ In (p, msg) (flatten m).
Proof.
  destruct r as [m|a]; unfold Marshmallow.store.
  - rewrite in_flatten_cons. split.
    + intros [(p & -> & H)|[]]. now exists m, p.
    + intros (m' & p & [= <-] & -> & H). left. now exists p.
  - split; [intros [] | intros (m & p & [=] & _)].
Qed.

Lemma in_flatten_unknown (fields : list string) (d : list (string * ConfigObjT))
    (path : list Key) (msg : string) :
  In (path, msg) (flatten (Errors (Marshmallow.unknown_errors fields d)))
  <-> exists k, unknown_key fields d k /\ path = [Field k]
                /\ msg = Marshmallow.msg_unknown.
Proof.
  unfold Marshmallow.unknown_errors, unknown_key.
  induction (map fst d) as [|k ks IH].
  - simpl. split; [intros [] | intros (k & ([] & _) & _)].
  - cbn [filter In]. destruct (Str.mem k fields) eqn:E; cbn [negb map].
    + rewrite IH. split.
      * intros (k' & (Hin & Hn) & Hp). exists k'. now repeat split; [right|..].
      * intros (k' & ([<-|Hin] & Hn) & Hp).
        -- apply mem_In in E. contradiction.
        -- now exists k'.
    + rewrite in_flatten_cons, IH. split.
      * intros [(p & -> & [[= <- <-]|[]])|(k' & (Hin & Hn) & Hp)].
        -- exists k. repeat split; [now left|].
           intros Hin. apply mem_In in Hin. congruence.
        -- exists k'. now repeat split; [right|..].
      * intros (k' & ([<-|Hin] & Hn) & -> & ->).
        -- left. exists []. split; [reflexivity | now left].
        -- right. now exists k'.
Qed.

(** A required string field without validators. *)
Lemma String_deserialize_plain (v : option ConfigObjT) :
  match Marshmallow.String_deserialize [] v with
  | inr s => v = Some (OStr s) /\ forall msg, ~ StringViolation v msg
  | inl m => forall path msg,
      In (path, msg) (flatten m) <-> path = [] /\ StringViolation v msg
  end.
Proof.
  destruct v as [[]|]; simpl;
    try (split; [reflexivity | intros msg H; inversion H; congruence]);
    intros path msg; (split;
      [ intros [[= <- <-]|[]]; split; [reflexivity|]; constructor; congruence
      | intros [-> H]; inversion H; subst; try (now left); congruence ]).
Qed.

(** The [shortcut] field: a required string, with the length validator. *)
Lemma String_deserialize_shortcut (v : option ConfigObjT) :
  match Marshmallow.String_deserialize [Marshmallow.Length_equal_1] v with
  | inr s =>
      v = Some (OStr s) /\ Str.len s = 1
      /\ forall msg, ~ StringViolation v msg
  | inl m => forall path msg,
      In (path, msg) (flatten m)
      <-> path = []
          /\ (StringViolation v msg
              \/ exists s, v = Some (OStr s) /\ Str.len s <> 1
                           /\ msg = Marshmallow.msg_length_1)
  end.
Proof.
  destruct v as [[]|]; simpl;
    try (intros path msg; split;
      [ intros [[= <- <-]|[]]; split; [reflexivity|]; left; constructor; congruence
      | intros [-> [H|(s0 & [=] & _)]]; inversion H; subst; try (now left); congruence ]).
  unfold Marshmallow.run_validators, Marshmallow.Length_equal_1. simpl.
  destruct (Nat.eqb_spec (Str.len s) 1) as [E|E]; simpl.
  - repeat split; [assumption|]. intros msg H. inversion H; congruence.
  - intros path msg. split.
    + intros [[= <- <-]|[]]. split; [reflexivity|]. right. now exists s.
    + intros [-> [H|(s0 & [= <-] & _ & ->)]]; [inversion H; congruence | now left].
Qed.

(** The errors [PageSchema.load] gathers on a mapping are the violations of
    the page contract, all of them. *)
Lemma page_errors_are_violations (d : list (string * ConfigObjT))
    (path : list Key) (msg : string) :
  In (path, msg)
     (flatten (Errors
        (Marshmallow.store "title"
           (Marshmallow.String_deserialize [] (Marshmallow.get d "title"))
         ++ Marshmallow.store "href"
              (Marshmallow.String_deserialize [] (Marshmallow.get d "href"))
         ++ Marshmallow.store "shortcut"
              (Marshmallow.String_deserialize [Marshmallow.Length_equal_1]
                 (Marshmallow.get d "shortcut"))
         ++ Marshmallow.unknown_errors ["title"; "href"; "shortcut"] d)))
  <-> PageViolation (ODict d) path msg.
Proof.
  pose proof (String_deserialize_plain (Marshmallow.get d "title")) as Pt.
  pose proof (String_deserialize_plain (Marshmallow.get d "href")) as Ph.
  pose proof (String_deserialize_shortcut (Marshmallow.get d "shortcut")) as Ps.
  rewrite !flatten_app, !in_app_iff, !in_flatten_store, in_flatten_unknown.
  split.
  - intros [(m & p & E & -> & H)|[(m & p & E & -> & H)|[(m & p & E & -> & H)
            |(k & U & -> & ->)]]].
    + rewrite E in Pt. apply Pt in H as [-> H].
      apply PV_title with (Marshmallow.get d "title"); [apply field_of_get | exact H].
    + rewrite E in Ph. apply Ph in H as [-> H].
      apply PV_href with (Marshmallow.get d "href"); [apply field_of_get | exact H].
    + rewrite E in Ps. apply Ps in H as [-> [H|(s & G & L & ->)]].
      * apply PV_shortcut with (Marshmallow.get d "shortcut"); [apply field_of_get | exact H].
      * apply PV_length with s; [rewrite <- G; apply field_of_get | exact L].
    + now apply PV_unknown.
  - intros H. inversion H; subst;
      repeat match goal with
             | K : field_of _ _ _ |- _ => apply field_of_fun in K; try subst v
             end.
    + now destruct (H0 d).
    + left. destruct (Marshmallow.String_deserialize [] (Marshmallow.get d "title")) as [m|s].
      * exists m, []. repeat split. now apply Pt.
      * now destruct (proj2 Pt msg).
    + right; left.
      destruct (Marshmallow.String_deserialize [] (Marshmallow.get d "href")) as [m|s].
      * exists m, []. repeat split. now apply Ph.
      * now destruct (proj2 Ph msg).
    + right; right; left.
      destruct (Marshmallow.String_deserialize [Marshmallow.Length_equal_1] _) as [m|s].
      * exists m, []. repeat split. apply Ps. split; [reflexivity | now left].
      * now destruct (proj2 (proj2 Ps) msg).
    + right; right; left.
      destruct (Marshmallow.String_deserialize [Marshmallow.Length_equal_1] _) as [m|s0].
      * exists m, []. repeat split. apply Ps. split; [reflexivity|]. right. now exists s.
      * destruct Ps as (G & L & _). congruence.
    + right; right; right. now exists k.
Qed.

(** [PageSchema.load] answers with a page that breaks nothing, or with a
    report of exactly what the input breaks. *)
Lemma PageSchema_report (data : ConfigObjT) :
  match Marshmallow.PageSchema_do_load data with
  | inr page =>
      Str.len (page_shortcut page) = 1
      /\ forall path msg, ~ PageViolation data path msg
  | inl m =>
      forall path msg, In (path, msg) (flatten m) <-> PageViolation data path msg
  end.
Proof.
  destruct data as [d| | | | | |];
    try (simpl; intros path msg; split;
         [ intros [[= <- <-]|[]]; apply PV_type; discriminate
         | intros H; inversion H; subst; now left ]).
  pose proof (page_errors_are_violations d) as E.
  pose proof (String_deserialize_shortcut (Marshmallow.get d "shortcut")) as Ps.
  unfold Marshmallow.PageSchema_do_load.
  destruct (Marshmallow.String_deserialize [] (Marshmallow.get d "title")) as [mt|t];
    [exact E|].
  destruct (Marshmallow.String_deserialize [] (Marshmallow.get d "href")) as [mh|h];
    [exact E|].
  destruct (Marshmallow.String_deserialize [Marshmallow.Length_equal_1]
              (Marshmallow.get d "shortcut")) as [ms|s]; [exact E|].
  simpl in E |- *.
  destruct (Marshmallow.unknown_errors ["title"; "href"; "shortcut"] d); [|exact E].
  split; [apply Ps|]. intros path msg H. now apply E in H.
Qed.

Lemma Nested_report (each : ConfigObjT) :
  match Marshmallow.Nested_deserialize each with
  | inr page =>
      Str.len (page_shortcut page) = 1
      /\ forall path msg, ~ ElementViolation each path msg
  | inl m =>
      forall path msg, In (path, msg) (flatten m) <-> ElementViolation each path msg
  end.
Proof.
  pose proof (PageSchema_report each) as R.
  destruct each as [d| | | | | |];
    try (cbn [Marshmallow.Nested_deserialize];
         destruct (Marshmallow.PageSchema_do_load _) as [m|page];
         [ intros path msg; rewrite R; split;
           [ intros H; now apply EV_page
           | intros H; inversion H; now subst ]
         | split; [apply R|]; intros path msg H; inversion H; subst;
           now apply (proj2 R path msg) ]).
  simpl. intros path msg. split.
  - intros [[= <- <-]|[]]. constructor.
  - intros H. inversion H; subst; [now left | congruence].
Qed.

(** The loop over the elements: the pages that passed, and for the others
    the violations of each under its index. *)
Lemma List_each_report (l : list ConfigObjT) (idx : nat) :
  Forall (fun p => Str.len (page_shortcut p) = 1)
         (fst (Marshmallow.List_each idx l))
  /\ forall path msg,
       In (path, msg) (flatten (Errors (snd (Marshmallow.List_each idx l))))
       <-> exists i each p,
             nth_error l i = Some each /\ path = Index (idx + i) :: p
             /\ ElementViolation each p msg.
Proof.
  revert idx. induction l as [|each rest IH]; intros idx.
  - split; [constructor|]. intros path msg. simpl. split; [intros []|].
    intros (i & e & p & H & _). now destruct i.
  - cbn [Marshmallow.List_each]. destruct (IH (S idx)) as (F & R).
    destruct (Marshmallow.List_each (S idx) rest) as [result errors].
    pose proof (Nested_report each) as N.
    destruct (Marshmallow.Nested_deserialize each) as [m|page]; cbn [fst snd] in *.
    + split; [exact F|]. intros path msg. rewrite in_flatten_cons, R. split.
      * intros [(p & -> & H)|(i & e & p & H & -> & V)].
        -- exists 0, each, p. rewrite Nat.add_0_r. repeat split. now apply N.
        -- exists (S i), e, p. now rewrite Nat.add_succ_r.
      * intros ([|i] & e & p & H & -> & V).
        -- injection H as <-. left. exists p. rewrite Nat.add_0_r. split; [reflexivity|].
           now apply N.
        -- right. exists i, e, p. now rewrite Nat.add_succ_r.
    + split; [constructor; [apply N | exact F]|]. intros path msg. rewrite R. split.
      * intros (i & e & p & H & -> & V). exists (S i), e, p. now rewrite Nat.add_succ_r.
      * intros ([|i] & e & p & H & -> & V).
        -- injection H as <-. now destruct (proj2 N p msg).
        -- exists i, e, p. now rewrite Nat.add_succ_r.
Qed.

Lemma List_deserialize_report (v : option ConfigObjT) :
  match Marshmallow.List_deserialize v with
  | inr ps =>
      Forall (fun p => Str.len (page_shortcut p) = 1) ps
      /\ forall path msg, ~ PagesViolation v path msg
  | inl m =>
      forall path msg, In (path, msg) (flatten m) <-> PagesViolation v path msg
  end.
Proof.
  destruct v as [v|].
  2:{ simpl. intros path msg. split.
      - intros [[= <- <-]|[]]. constructor.
      - intros H. inversion H. now left. }
  destruct v as [d|l| | | | |];
    try (simpl; intros path msg; split;
         [ intros [[= <- <-]|[]]; constructor; (discriminate || congruence)
         | intros H; inversion H; subst; try (now left); congruence ]).
  assert (Marshmallow.List_deserialize (Some (OList l))
          = match Marshmallow.List_each 0 l with
            | (result, []) => inr result
            | (_, errors) => inl (Errors errors)
            end) as -> by reflexivity.
  assert (forall path msg,
            (exists i each p, nth_error l i = Some each /\ path = Index (0 + i) :: p
                              /\ ElementViolation each p msg)
            <-> PagesViolation (Some (OList l)) path msg) as Q.
  { intros path msg. split.
    - intros (i & e & p & H & -> & V). now apply LV_element with e.
    - intros H. inversion H; subst.
      + match goal with K : forall l, OList _ <> OList l |- _ => now destruct (K l) end.
      + now exists i, each, path0. }
  destruct (List_each_report l 0) as (F & R).
  destruct (Marshmallow.List_each 0 l) as [result [|e errors]]; cbn [fst snd] in *.
  - split; [exact F|]. intros path msg H. apply Q, R in H. destruct H.
  - intros path msg. now rewrite R, Q.
Qed.

(** The errors [ConfigSchema.load] gathers on a mapping are the violations of
    the config contract, all of them. *)
Lemma config_errors_are_violations (d : list (string * ConfigObjT))
    (path : list Key) (msg : string) :
  In (path, msg)
     (flatten (Errors
        (Marshmallow.store "title"
           (Marshmallow.String_deserialize [] (Marshmallow.get d "title"))
         ++ Marshmallow.store "pages"
              (Marshmallow.List_deserialize (Marshmallow.get d "pages"))
         ++ Marshmallow.unknown_errors ["title"; "pages"] d)))
  <-> ConfigViolation (ODict d) path msg.
Proof.
  pose proof (String_deserialize_plain (Marshmallow.get d "title")) as Pt.
  pose proof (List_deserialize_report (Marshmallow.get d "pages")) as Pl.
  rewrite !flatten_app, !in_app_iff, !in_flatten_store, in_flatten_unknown.
  split.
  - intros [(m & p & E & -> & H)|[(m & p & E & -> & H)|(k & U & -> & ->)]].
    + rewrite E in Pt. apply Pt in H as [-> H].
      apply CV_title with (Marshmallow.get d "title"); [apply field_of_get | exact H].
    + rewrite E in Pl. apply Pl in H.
      apply CV_pages with (Marshmallow.get d "pages"); [apply field_of_get | exact H].
    + now apply CV_unknown.
  - intros H. inversion H; subst;
      repeat match goal with
             | K : field_of _ _ _ |- _ => apply field_of_fun in K; try subst v
             end.
    + now destruct (H0 d).
    + left. destruct (Marshmallow.String_deserialize [] (Marshmallow.get d "title")) as [m|s].
      * exists m, []. repeat split. now apply Pt.
      * now destruct (proj2 Pt msg).
    + right; left.
      destruct (Marshmallow.List_deserialize (Marshmallow.get d "pages")) as [m|ps].
      * exists m, path0. repeat split. now apply Pl.
      * now destruct (proj2 Pl path0 msg).
    + right; right. now exists k.
Qed.

(** [ConfigSchema.load] answers with a config that breaks nothing, every
    page's shortcut one character long, or with a report of exactly what the
    input breaks. *)
Lemma ConfigSchema_report (data : ConfigObjT) :
  match Marshmallow.ConfigSchema_do_load data with
  | inr config =>
      Forall (fun p => Str.len (page_shortcut p) = 1) (config_pages config)
      /\ forall path msg, ~ ConfigViolation data path msg
  | inl m =>
      forall path msg, In (path, msg) (flatten m) <-> ConfigViolation data path msg
  end.
Proof.
  destruct data as [d| | | | | |];
    try (simpl; intros path msg; split;
         [ intros [[= <- <-]|[]]; apply CV_type; discriminate
         | intros H; inversion H; subst; now left ]).
  pose proof (config_errors_are_violations d) as E.
  pose proof (List_deserialize_report (Marshmallow.get d "pages")) as Pl.
  unfold Marshmallow.ConfigSchema_do_load.
  destruct (Marshmallow.String_deserialize [] (Marshmallow.get d "title")) as [mt|t];
    [exact E|].
  destruct (Marshmallow.List_deserialize (Marshmallow.get d "pages")) as [ml|ps];
    [exact E|].
  simpl in E |- *.
  destruct (Marshmallow.unknown_errors ["title"; "pages"] d); [|exact E].
  split; [apply Pl|]. intros path msg H. now apply E in H.
Qed.

(** C4: a page whose shortcut is a string of any length but 1 (0 and 2
    among them) fails validation with the length message under [shortcut]; a
    shortcut of length 1 draws no message under [shortcut]; so the shortcut of
    a loaded page, and of every page of a loaded config, has length 1.  The
    length is that of Python's [len]: the number of characters, not of
    bytes. *)
Theorem shortcut_has_length_1 :
  (forall d s,
     field_of d "shortcut" (Some (OStr s)) -> Str.len s <> 1 ->
     exists m,
       Marshmallow.PageSchema_do_load (ODict d) = inl m
       /\ In ([Field "shortcut"], Marshmallow.msg_length_1) (flatten m))
  /\ (forall d s,
        field_of d "shortcut" (Some (OStr s)) -> Str.len s = 1 ->
        forall m msg,
          Marshmallow.PageSchema_do_load (ODict d) = inl m ->
          ~ In ([Field "shortcut"], msg) (flatten m))
  /\ (forall data page,
        Marshmallow.PageSchema_do_load data = inr page ->
        Str.len (page_shortcut page) = 1)
  /\ (forall data config,
        ConfigSchema_load data = Ok config ->
        Forall (fun p => Str.len (page_shortcut p) = 1) (config_pages config)).
Proof.
  repeat split.
  - intros d s G L. pose proof (PageSchema_report (ODict d)) as R.
    assert (PageViolation (ODict d) [Field "shortcut"] Marshmallow.msg_length_1) as V
      by now apply PV_length with s.
    destruct (Marshmallow.PageSchema_do_load (ODict d)) as [m|page].
    + exists m. split; [reflexivity | now apply R].
    + now destruct (proj2 R _ _ V).
  - intros d s G L m msg E H. pose proof (PageSchema_report (ODict d)) as R.
    rewrite E in R. apply R in H. apply field_of_fun in G. inversion H; subst.
    + match goal with K : field_of _ _ _ |- _ => apply field_of_fun in K; subst v end.
      rewrite <- G in *. match goal with K : StringViolation _ _ |- _ => inversion K end.
      congruence.
    + match goal with K : field_of _ _ _ |- _ => apply field_of_fun in K end. congruence.
    + match goal with K : unknown_key _ _ _ |- _ => destruct K as [_ K]; apply K end.
      simpl. auto.
  - intros data page E. pose proof (PageSchema_report data) as R.
    rewrite E in R. apply R.
  - intros data config E. pose proof (ConfigSchema_report data) as R.
    unfold ConfigSchema_load in E.
    destruct (Marshmallow.ConfigSchema_do_load data); [discriminate|].
    injection E as ->. apply R.
Qed.

(** C5: a mapping without the key [title], or without the key [pages],
    fails validation with the required-field message under that field's name;
    and whatever the input, [ConfigSchema.load] returns a config that breaks no
    constraint, or raises a [ValidationError] whose messages are exactly the
    violations of the input, every one of them with its path. *)
Theorem validation_is_all_or_every_violation :
  (forall d,
     ~ In "title" (map fst d) ->
     exists m,
       ConfigSchema_load (ODict d) = Raise (ValidationError m)
       /\ In ([Field "title"], Marshmallow.msg_required) (flatten m))
  /\ (forall d,
        ~ In "pages" (map fst d) ->
        exists m,
          ConfigSchema_load (ODict d) = Raise (ValidationError m)
          /\ In ([Field "pages"], Marshmallow.msg_required) (flatten m))
  /\ (forall data,
        (exists config,
           ConfigSchema_load data = Ok config
           /\ forall path msg, ~ ConfigViolation data path msg)
        \/ (exists m,
              ConfigSchema_load data = Raise (ValidationError m)
              /\ forall path msg,
                   In (path, msg) (flatten m) <-> ConfigViolation data path msg)).
Proof.
  assert (forall d path msg,
            ConfigViolation (ODict d) path msg ->
            exists m, ConfigSchema_load (ODict d) = Raise (ValidationError m)
                      /\ In (path, msg) (flatten m)) as K.
  { intros d path msg V. pose proof (ConfigSchema_report (ODict d)) as R.
    unfold ConfigSchema_load.
    destruct (Marshmallow.ConfigSchema_do_load (ODict d)) as [m|config].
    - exists m. split; [reflexivity | now apply R].
    - now destruct (proj2 R _ _ V). }
  repeat split.
  - intros d G. apply K. apply CV_title with None; [now apply field_of_missing | constructor].
  - intros d G. apply K. apply CV_pages with None; [now apply field_of_missing | constructor].
  - intros data. pose proof (ConfigSchema_report data) as R.
    unfold ConfigSchema_load.
    destruct (Marshmallow.ConfigSchema_do_load data) as [m|config].
    + right. now exists m.
    + left. exists config. split; [reflexivity | apply R].
Qed.

(** ** What a run leaves alone *)

(** The place the text of a path points at is where its steps lead when
    each is taken in turn. *)
Lemma norm_comps_steps (l acc : list string) :
  Forall (fun x => x <> "..") acc ->
  Posixpath.norm_comps 1 l acc
  = fold_left FS.step (filter (fun c => negb (c =? "")) l) acc.
Proof.
  revert acc. induction l as [|c l IH]; intros acc Hacc; [reflexivity|].
  cbn [Posixpath.norm_comps filter].
  destruct (String.eqb_spec c "") as [->|H0]; cbn [orb negb]; [now apply IH|].
  cbn [fold_left]. unfold FS.step at 2.
  destruct (String.eqb_spec c ".") as [->|H1]; [now apply IH|].
  destruct (String.eqb_spec c "..") as [->|H2]; cbn [negb orb andb].
  - assert ((last acc "" =? "..") = false) as E.
    { apply String.eqb_neq. destruct acc as [|a acc]; [discriminate|].
      rewrite Forall_forall in Hacc. apply Hacc.
      destruct (@exists_last _ (a :: acc)) as (l' & x & E); [discriminate|].
      rewrite E, last_last. apply in_or_app. right. now left. }
    rewrite E, andb_false_r. apply IH.
    rewrite Forall_forall in *. intros x Hx. apply Hacc.
    destruct (FS.parent_and_name acc) as [[p nm]|] eqn:P.
    + apply parent_and_name_inv in P. subst acc. rewrite removelast_last in Hx.
      apply in_or_app. now left.
    + apply parent_and_name_root in P. now subst acc.
  - apply IH. apply Forall_app. split; [assumption|]. now repeat constructor.
Qed.

Lemma lexical_final (path : string) :
  FS.lexical path = fold_left FS.step (FS.components path) [].
Proof. unfold FS.lexical, FS.components. now apply norm_comps_steps. Qed.

Lemma leaves_ret {A} (cw : string) (o : list string) (a : A) :
  leaves_outside cw o (ret a).
Proof. intros w Hw. split; [exact Hw | apply agree_off_refl]. Qed.

Lemma leaves_lift {A} (cw : string) (o : list string) (r : Result A) :
  leaves_outside cw o (lift r).
Proof. intros w Hw. split; [exact Hw | apply agree_off_refl]. Qed.

Lemma leaves_bind {A B} (cw : string) (o : list string) (c : M A) (k : A -> M B) :
  leaves_outside cw o c -> (forall a, leaves_outside cw o (k a)) ->
  leaves_outside cw o (bind c k).
Proof.
  intros Hc Hk w Hw. unfold bind. destruct (Hc w Hw) as [C S].
  destruct (c w) as [[a|e] w1]; simpl in C, S.
  - destruct (Hk a w1 C) as [C' S']. split; [exact C'|].
    now apply agree_off_trans with (fs w1).
  - now split.
Qed.

(** After [os.getcwd()] the program holds the working directory itself. *)
Lemma leaves_getcwd_bind {B} (cw : string) (o : list string) (k : string -> M B) :
  leaves_outside cw o (k cw) -> leaves_outside cw o (bind OS.getcwd k).
Proof. intros H w Hw. unfold bind, OS.getcwd. rewrite Hw. now apply H. Qed.

Lemma leaves_try {A} (cw : string) (o : list string) (c : M A) :
  leaves_outside cw o c -> leaves_outside cw o (try_ValidationError c).
Proof.
  intros Hc w Hw. unfold try_ValidationError. destruct (Hc w Hw) as [C S].
  destruct (c w) as [[a|[]] w1]; now split.
Qed.

Lemma leaves_with_open {H A} (cw : string) (o : list string) (open : M H)
    (path : string) (body : H -> M A) :
  leaves_outside cw o open -> (forall h, leaves_outside cw o (body h)) ->
  leaves_outside cw o (with_open open path body).
Proof.
  intros Ho Hb w Hw. unfold with_open. destruct (Ho w Hw) as [C S].
  destruct (open w) as [[h|e] w1]; simpl in C, S; [|now split].
  destruct (Hb h w1 C) as [C' S']. destruct (body h w1) as [r w2]. simpl in *.
  split; [exact C'|]. now apply agree_off_trans with (fs w1).
Qed.

(** The calls that change nothing in the tree. *)
Lemma leaves_exists (cw : string) (o : list string) (path : string) :
  leaves_outside cw o (OS.exists_ path).
Proof. intros w Hw. split; [exact Hw | apply agree_off_refl]. Qed.

Lemma leaves_abspath (cw : string) (o : list string) (path : string) :
  leaves_outside cw o (OS.abspath path).
Proof. intros w Hw. split; [exact Hw | apply agree_off_refl]. Qed.

Lemma leaves_print (cw : string) (o : list string) (out : Output) :
  leaves_outside cw o (OS.print_stderr out).
Proof. intros w Hw. split; [exact Hw | apply agree_off_refl]. Qed.

Lemma leaves_open_r (cw : string) (o : list string) (path : string) :
  leaves_outside cw o (OS.open_r path).
Proof.
  intros w Hw. unfold OS.open_r.
  destruct (OS.stat w path) as [p [c|es]| | |];
    (split; [exact Hw | apply agree_off_refl]).
Qed.

(** The calls that change the tree change it where the text of their path
    points, or below. *)
Ltac unchanged := split; [reflexivity | apply agree_off_refl].

Lemma rmdir_agree (path : string) (w : World) :
  cwd (snd (OS.rmdir path w)) = cwd w
  /\ agree_off (locate w path) (fs w) (fs (snd (OS.rmdir path w))).
Proof.
  unfold OS.rmdir, locate. rewrite lexical_final. fold (OS.steps w path).
  destruct (path =? ""); [unchanged|].
  destruct (FS.parent_and_name (OS.steps w path)) as [[init last]|] eqn:P; [|unchanged].
  apply parent_and_name_inv in P. rewrite P, fold_left_app.
  destruct (FS.reach (fs w) [] init) as [parent| |] eqn:R; try unchanged.
  rewrite <- (reach_final _ _ _ _ R). cbn [fold_left].
  destruct ((last =? ".") || (last =? "..")) eqn:D; [unchanged|].
  apply orb_false_iff in D as [D1 D2]. apply String.eqb_neq in D1, D2.
  rewrite (step_proper parent last (conj D1 D2)).
  destruct (FS.lookup (parent ++ [last]) (fs w)) as [[c|[|e es]]|]; try unchanged.
  destruct (FS.modify parent (FS.remove_entry last) (fs w)) as [n|] eqn:Em; [|unchanged].
  split; [reflexivity|]. cbn [snd fs set_fs].
  apply (agree_off_entry parent last _ _ _ Em). intros es0 c Hc.
  now apply find_remove_entry_other.
Qed.

Lemma leaves_rmtree (cw path : string) :
  leaves_outside cw (FS.lexical (Posixpath.join cw path)) (OS.rmtree path).
Proof.
  intros w Hw. rewrite <- Hw. fold (locate w path). unfold OS.rmtree.
  destruct (OS.stat w path) as [pos [c|es]| | |] eqn:S; try unchanged.
  destruct (FS.modify pos (fun _ => []) (fs w)) as [n|] eqn:Em; [|unchanged].
  destruct (rmdir_agree path (set_fs n (log (EvRmtree path) w))) as [C A].
  split; [exact C|]. apply (agree_off_trans _ _ n); [|exact A].
  destruct (stat_dir _ _ _ _ S) as (_ & R). apply resolve_final in R.
  unfold locate. rewrite lexical_final. fold (OS.steps w path). rewrite <- R.
  now apply (agree_off_below pos (fun _ => [])).
Qed.

Lemma leaves_mkdir (cw path : string) :
  leaves_outside cw (FS.lexical (Posixpath.join cw path)) (OS.mkdir path).
Proof.
  intros w Hw. rewrite <- Hw. unfold OS.mkdir. rewrite lexical_final. fold (OS.steps w path).
  destruct (path =? ""); [unchanged|].
  destruct (FS.parent_and_name (OS.steps w path)) as [[init last]|] eqn:P; [|unchanged].
  apply parent_and_name_inv in P. rewrite P, fold_left_app.
  destruct (FS.reach (fs w) [] init) as [parent| |] eqn:R; try unchanged.
  rewrite <- (reach_final _ _ _ _ R). cbn [fold_left].
  destruct ((last =? ".") || (last =? "..")) eqn:D; [unchanged|].
  apply orb_false_iff in D as [D1 D2]. apply String.eqb_neq in D1, D2.
  rewrite (step_proper parent last (conj D1 D2)).
  destruct (FS.lookup (parent ++ [last]) (fs w)); [unchanged|].
  destruct (FS.modify parent (FS.put_entry last (Dir [])) (fs w)) as [n|] eqn:Em; [|unchanged].
  split; [reflexivity|]. cbn [snd fs set_fs log].
  apply (agree_off_entry parent last _ _ _ Em). intros es0 c Hc.
  now apply find_put_entry_other.
Qed.

Lemma write_agree (file : Handle) (data : string) (w : World) :
  cwd (snd (OS.write file data w)) = cwd w
  /\ agree_off (handle_pos file) (fs w) (fs (snd (OS.write file data w))).
Proof.
  unfold OS.write.
  destruct (FS.parent_and_name (handle_pos file)) as [[parent nm]|] eqn:P; [|unchanged].
  apply parent_and_name_inv in P. rewrite P.
  destruct (FS.lookup (parent ++ [nm]) (fs w)) as [[c|es]|]; try unchanged.
  destruct (FS.modify parent (FS.put_entry nm (File data)) (fs w)) as [n|] eqn:Em;
    [|unchanged].
  split; [reflexivity|]. cbn [snd fs set_fs log].
  apply (agree_off_entry parent nm _ _ _ Em). intros es0 c0 Hc.
  now apply find_put_entry_other.
Qed.

(** Writing a file of the directory [out_dir]. *)
Lemma leaves_write_file (cw out_dir nm data : string) :
  plain_name nm ->
  leaves_outside cw (FS.lexical (Posixpath.join cw out_dir))
    (with_open (OS.open_w (Posixpath.join out_dir nm)) (Posixpath.join out_dir nm)
       (fun file => OS.write file data)).
Proof.
  intros Hnm w Hw. rewrite <- Hw. rewrite lexical_final. fold (OS.steps w out_dir).
  pose proof (steps_join w out_dir nm Hnm) as St.
  set (path := Posixpath.join out_dir nm) in *.
  unfold with_open, OS.open_w.
  destruct (path =? ""); [unchanged|]. rewrite St, parent_and_name_snoc.
  destruct (FS.reach (fs w) [] (OS.steps w out_dir)) as [parent| |] eqn:R; try unchanged.
  rewrite <- (reach_final _ _ _ _ R).
  destruct ((nm =? ".") || (nm =? "..")); [unchanged|].
  assert (forall n,
            FS.modify parent (FS.put_entry nm (File "")) (fs w) = Some n ->
            let r := OS.write (mkHandle path (parent ++ [nm])) data
                       (set_fs n (log (EvOpen path "+w") w)) in
            cwd (snd r) = cwd w /\ agree_off parent (fs w) (fs (snd r))) as K.
  { intros n Em r.
    destruct (write_agree (mkHandle path (parent ++ [nm])) data
                (set_fs n (log (EvOpen path "+w") w))) as [C A].
    fold r in C, A. split; [exact C|].
    apply (agree_off_mono (parent ++ [nm])); [apply is_prefix_app|].
    apply (agree_off_trans _ _ n); [|exact A].
    apply (agree_off_entry parent nm _ _ _ Em). intros es0 c0 Hc.
    now apply find_put_entry_other. }
  destruct (FS.lookup (parent ++ [nm]) (fs w)) as [[c|es]|]; try unchanged;
    (destruct (Str.endswith Posixpath.sep path); [unchanged|]);
    (destruct (FS.modify parent (FS.put_entry nm (File "")) (fs w)) as [n|];
       [|unchanged]);
    specialize (K n eq_refl); cbv zeta in K;
    destruct (OS.write _ data _) as [r0 w2]; exact K.
Qed.

Section Frame.

Variable json_load yaml_safe_load : string -> Result ConfigObjT.
Variable environment : string -> Config -> string.

Lemma leaves_generate (cw : string) (config : Config) (out_dir : string) :
  leaves_outside cw (FS.lexical (Posixpath.join cw out_dir))
    (generate_jinja_templates environment config out_dir).
Proof.
  unfold generate_jinja_templates. cbn [for_each].
  apply leaves_bind; [apply leaves_write_file, plain_index_html | intros _].
  apply leaves_bind; [apply leaves_write_file, plain_index_js | intros _].
  apply leaves_ret.
Qed.

Lemma leaves_parse_and_render (cw file_path file_format out_dir : string) :
  leaves_outside cw (FS.lexical (Posixpath.join cw out_dir))
    (parse_and_render json_load yaml_safe_load environment
       file_path file_format out_dir).
Proof.
  unfold parse_and_render. apply leaves_bind.
  - apply leaves_try, leaves_with_open; [apply leaves_open_r | intros file].
    apply leaves_bind; [apply leaves_lift | intros parser; apply leaves_lift].
  - intros [messages|config].
    + apply leaves_bind; [apply leaves_print | intros _; apply leaves_ret].
    + apply leaves_bind; [apply leaves_mkdir | intros _].
      apply leaves_bind; [apply leaves_generate | intros _; apply leaves_ret].
Qed.

Lemma leaves_main (args : Args) (w : World) :
  leaves_outside (cwd w) (out_at args w)
    (main json_load yaml_safe_load environment args).
Proof.
  unfold main, out_at, locate, out_dir_of.
  apply leaves_bind; [apply leaves_abspath | intros file_path].
  apply leaves_bind.
  { destruct (format args); [apply leaves_ret|].
    apply leaves_bind; [apply leaves_lift | intros ext; apply leaves_lift]. }
  intros file_format. apply leaves_getcwd_bind.
  apply leaves_bind; [apply leaves_exists | intros [|]].
  - destruct (force args).
    + apply leaves_bind; [apply leaves_rmtree | intros _].
      apply leaves_parse_and_render.
    + apply leaves_bind; [apply leaves_print | intros _; apply leaves_ret].
  - apply leaves_parse_and_render.
Qed.

(** Whatever the arguments and however the run ends, by an exit code or by
    an exception, no file outside the output directory has been added, removed
    or changed. *)
Theorem main_leaves_files_outside_the_output_directory (args : Args) (w : World)
    (q : list string) (content : string) :
  FS.is_prefix (out_at args w) q = false ->
  (FS.lookup q (fs w) = Some (File content)
   <-> FS.lookup q (fs (snd (main json_load yaml_safe_load environment args w)))
       = Some (File content)).
Proof.
  revert q content. change (same_files_outside (out_at args w) (fs w)
    (fs (snd (main json_load yaml_safe_load environment args w)))).
  apply agree_same_files. apply (leaves_main args w w eq_refl).
Qed.

End Frame.

(** ** What an exit code tells *)

(** A file found once a directory is gone was there before. *)
Lemma stat_file_before (o : list string) (w w1 : World) (path : string)
    (pos : list string) (content : string) :
  cwd w1 = cwd w ->
  agree_off o (fs w) (fs w1) ->
  kind o (fs w1) = Nothing ->
  OS.stat w1 path = FS.At pos (File content) ->
  OS.stat w path = FS.At pos (File content).
Proof.
  intros C A K S. destruct (stat_file _ _ _ _ S) as (_ & _ & R).
  apply (stat_agree_file o w1 w); try assumption.
  - now symmetry.
  - now apply agree_off_sym.
  - apply (resolve_avoids_absent o _ _ _ _ R K).
Qed.

Lemma rmtree_ok_inv (path : string) (w w' : World) :
  OS.rmtree path w = (Ok tt, w') ->
  exists pos es n1 init nm parent,
    OS.stat w path = FS.At pos (Dir es)
    /\ w' = after w n1 [EvRmtree path]
    /\ OS.steps w path = init ++ [nm] /\ proper nm /\ pos = parent ++ [nm]
    /\ fold_left FS.step init [] = parent
    /\ kind pos n1 = Nothing
    /\ agree_off pos (fs w) n1.
Proof.
  unfold OS.rmtree.
  destruct (OS.stat w path) as [pos [c|es]| | |] eqn:S; try discriminate.
  destruct (FS.modify pos (fun _ => []) (fs w)) as [ne|] eqn:Ee; [|discriminate].
  unfold OS.rmdir. destruct (path =? ""); [discriminate|].
  change (OS.steps (set_fs ne (log (EvRmtree path) w)) path) with (OS.steps w path).
  destruct (FS.parent_and_name (OS.steps w path)) as [[init nm]|] eqn:P; [|discriminate].
  apply parent_and_name_inv in P. cbn [fs set_fs].
  destruct (FS.reach ne [] init) as [parent| |] eqn:R; try discriminate.
  destruct ((nm =? ".") || (nm =? "..")) eqn:D; [discriminate|].
  apply orb_false_iff in D as [D1 D2]. apply String.eqb_neq in D1, D2.
  destruct (FS.lookup (parent ++ [nm]) ne) as [[c|[|e es']]|] eqn:L; try discriminate.
  destruct (FS.modify parent (FS.remove_entry nm) ne) as [n1|] eqn:E1; [|discriminate].
  intros [= <-]. exists pos, es, n1, init, nm, parent.
  assert (pos = parent ++ [nm]) as ->.
  { destruct (stat_dir _ _ _ _ S) as (_ & Rs). apply resolve_final in Rs.
    rewrite Rs, P, fold_left_app, <- (reach_final _ _ _ _ R). simpl.
    now apply step_proper. }
  repeat split; try assumption.
  - symmetry. apply (reach_final _ _ _ _ R).
  - apply reach_dir in R. unfold kind in R.
    destruct (FS.lookup parent ne) as [[|esp]|] eqn:Lp; try discriminate.
    destruct (modify_dir parent (FS.remove_entry nm) _ _ Lp) as (n' & E' & L').
    rewrite E1 in E'. injection E' as <-.
    unfold kind. rewrite lookup_app, L'. simpl. now rewrite find_remove_entry_same.
  - apply (agree_off_trans _ _ ne).
    + now apply (agree_off_below _ (fun _ => [])).
    + apply (agree_off_entry parent nm _ _ _ E1). intros es0 c Hc.
      now apply find_remove_entry_other.
Qed.

Lemma mkdir_ok_inv (path : string) (w w' : World) :
  OS.mkdir path w = (Ok tt, w') ->
  exists init nm parent,
    path <> ""
    /\ OS.steps w path = init ++ [nm]
    /\ FS.reach (fs w) [] init = FS.Reached parent
    /\ proper nm
    /\ FS.lookup (parent ++ [nm]) (fs w) = None.
Proof.
  unfold OS.mkdir. destruct (String.eqb_spec path "") as [->|N]; [discriminate|].
  destruct (FS.parent_and_name (OS.steps w path)) as [[init nm]|] eqn:P; [|discriminate].
  apply parent_and_name_inv in P.
  destruct (FS.reach (fs w) [] init) as [parent| |] eqn:R; try discriminate.
  destruct ((nm =? ".") || (nm =? "..")) eqn:D; [discriminate|].
  apply orb_false_iff in D as [D1 D2]. apply String.eqb_neq in D1, D2.
  destruct (FS.lookup (parent ++ [nm]) (fs w)) eqn:L; [discriminate|].
  intros _. exists init, nm, parent. now repeat split.
Qed.

Lemma stat_file_or_not (w : World) (path : string) :
  (exists pos text, OS.stat w path = FS.At pos (File text))
  \/ (forall pos text, OS.stat w path <> FS.At pos (File text)).
Proof.
  destruct (OS.stat w path) as [pos [text|es]| | |];
    [left; now exists pos, text | right | right | right | right]; discriminate.
Qed.

Section Outcomes.

Variable json_load yaml_safe_load : string -> Result ConfigObjT.
Variable environment : string -> Config -> string.

(** The [try] block on a source path that leads to no file: [open] raises,
    nothing was read. *)
Lemma try_read_unreadable (file_path file_format : string) (w : World) :
  (forall pos text, OS.stat w file_path <> FS.At pos (File text)) ->
  try_ValidationError
    (with_open (OS.open_r file_path) file_path (fun file =>
       parser <- lift (get_config_parser json_load yaml_safe_load file_format) ;;
       lift (parser file))) w
  = (Raise (open_error (OS.stat w file_path) file_path),
     after w (fs w) [EvOpen file_path "r"]).
Proof.
  intros N. unfold try_ValidationError, with_open, OS.open_r.
  destruct (OS.stat w file_path) as [pos [text|es]| | |];
    [now destruct (N pos text) | reflexivity..].
Qed.


(** What [parse_and_render] has done when it returns a code. *)
Lemma parse_and_render_returns (file_path file_format out_dir : string)
    (w w' : World) (code : Z) :
  parse_and_render json_load yaml_safe_load environment
    file_path file_format out_dir w = (Ok code, w') ->
  exists spos text,
    OS.stat w file_path = FS.At spos (File text)
    /\ cwd w' = cwd w
    /\ ((code = 1%Z
         /\ exists messages,
              parsed json_load yaml_safe_load file_format text
              = Raise (ValidationError messages)
              /\ fs w' = fs w
              /\ stderr w' = stderr w ++ [Repr messages])
        \/ (code = 0%Z
            /\ exists config init nm parent,
                 parsed json_load yaml_safe_load file_format text = Ok config
                 /\ OS.steps w out_dir = init ++ [nm] /\ proper nm
                 /\ FS.reach (fs w) [] init = FS.Reached parent
                 /\ kind (parent ++ [nm]) (fs w) = Nothing
                 /\ OS.stat w' out_dir
                    = FS.At (parent ++ [nm]) (Dir (rendered environment config))
                 /\ agree_off (parent ++ [nm]) (fs w) (fs w')
                 /\ stderr w' = stderr w)).
Proof.
  destruct (stat_file_or_not w file_path) as [(spos & text & L)|N].
  2:{ unfold parse_and_render. unfold bind at 1.
      rewrite (try_read_unreadable _ _ _ N). discriminate. }
  intros H. exists spos, text. split; [exact L|].
  destruct (parsed json_load yaml_safe_load file_format text) as [config|e] eqn:P.
  - unfold parse_and_render in H. unfold bind at 1 in H.
    rewrite (try_read json_load yaml_safe_load _ _ _ _ _ L), P in H.
    simpl caught in H. cbv iota beta in H. unfold bind at 1 in H.
    destruct (OS.mkdir out_dir (after w (fs w) (read_events file_path)))
      as [[[]|e] w1] eqn:Em; [|discriminate H].
    destruct (mkdir_ok_inv _ _ _ Em) as (init & nm & parent & N & Es & Rp & Pn & Ln).
    destruct (parse_and_render_valid json_load yaml_safe_load environment
                file_path file_format out_dir text w spos config init nm parent
                L P N Es Rp Pn Ln) as (n' & R & So & A).
    unfold parse_and_render in R. unfold bind at 1 in R.
    rewrite (try_read json_load yaml_safe_load _ _ _ _ _ L), P in R.
    simpl caught in R. cbv iota beta in R. unfold bind at 1 in R.
    rewrite Em in R. rewrite R in H. injection H as <- <-.
    split; [reflexivity|]. right. split; [reflexivity|].
    exists config, init, nm, parent. repeat split; try assumption; try apply Pn.
    unfold kind. cbn [fs after] in Ln. now rewrite Ln.
  - destruct e; try (rewrite (parse_and_render_raise json_load yaml_safe_load
                               environment _ _ _ text w spos _ L P) in H;
                     [discriminate H | discriminate]).
    rewrite (parse_and_render_invalid json_load yaml_safe_load environment
               _ _ _ text w spos messages L P) in H.
    injection H as <- <-. split; [reflexivity|].
    left. split; [reflexivity|]. now exists messages.
Qed.

(** What [main] has done when it returns a code: it has refused, or it has
    got past the check of the output directory to a tree [n1] in which the
    source is read and nothing is at the output path. *)
Lemma main_returns (args : Args) (w w' : World) (code : Z) :
  main json_load yaml_safe_load environment args w = (Ok code, w') ->
  (code = 2%Z
   /\ force args = false
   /\ OS.path_exists w (out_dir_of args w) = true
   /\ cwd w' = cwd w /\ fs w' = fs w
   /\ stderr w' = stderr w ++ [refusal (out_dir_of args w)])
  \/ (exists file_format spos text n1,
        file_format_of args w = Ok file_format
        /\ OS.stat w (file_path_of args w) = FS.At spos (File text)
        /\ OS.stat (after w n1 []) (file_path_of args w) = FS.At spos (File text)
        /\ OS.path_exists (after w n1 []) (out_dir_of args w) = false
        /\ cwd w' = cwd w
        /\ ((code = 1%Z
             /\ exists messages,
                  parsed json_load yaml_safe_load file_format text
                  = Raise (ValidationError messages)
                  /\ fs w' = n1
                  /\ stderr w' = stderr w ++ [Repr messages])
            \/ (code = 0%Z
                /\ exists config init nm parent,
                     parsed json_load yaml_safe_load file_format text = Ok config
                     /\ OS.steps w (out_dir_of args w) = init ++ [nm] /\ proper nm
                     /\ FS.reach n1 [] init = FS.Reached parent
                     /\ kind (parent ++ [nm]) n1 = Nothing
                     /\ OS.stat w' (out_dir_of args w)
                        = FS.At (parent ++ [nm]) (Dir (rendered environment config))
                     /\ agree_off (parent ++ [nm]) n1 (fs w')
                     /\ stderr w' = stderr w))).
Proof.
  rewrite main_stages.
  destruct (file_format_of args w) as [file_format|e] eqn:F; [|discriminate].
  cbv zeta. destruct (OS.path_exists w (out_dir_of args w)) eqn:X.
  - destruct (force args) eqn:Hf.
    + destruct (OS.rmtree (out_dir_of args w)
                  (after w (fs w) [EvExists (out_dir_of args w)]))
        as [[[]|e] w2] eqn:Er; [|discriminate].
      destruct (rmtree_ok_inv _ _ _ Er)
        as (pos & es & n1 & init & nm & parent & S & -> & Es & Pn & -> & Fi & K & A).
      intros H. right. exists file_format.
      destruct (parse_and_render_returns _ _ _ _ _ _ H) as (spos & text & Ls & C & Cases).
      exists spos, text, n1. split; [reflexivity|]. split.
      { apply (stat_file_before (parent ++ [nm]) w
                 (after (after w (fs w) [EvExists (out_dir_of args w)]) n1
                    [EvRmtree (out_dir_of args w)])); try assumption. reflexivity. }
      split; [exact Ls|]. split.
      { apply (gone_not_exists _ _ init nm parent); try assumption.
        intros p R. apply reach_final in R. congruence. }
      split; [exact C|]. exact Cases.
    + intros [= <- <-]. left. now repeat split.
  - intros H. right. exists file_format.
    destruct (parse_and_render_returns _ _ _ _ _ _ H) as (spos & text & Ls & C & Cases).
    exists spos, text, (fs w). split; [reflexivity|]. split; [exact Ls|].
    split; [exact Ls|]. split; [now rewrite (path_exists_same w)|].
    split; [exact C|]. exact Cases.
Qed.

(** What an exit code tells.  [main] returns 0, 1 or 2 and nothing else.
    It returns 2 only when something was at the output path and [--force] was
    not given, and then the tree is as it was.  It returns 1 only when what
    the source file holds failed validation, and then the messages are printed
    and nothing is at the output path.  It returns 0 only when the source gave
    a config, and then the output path leads to a directory that holds the two
    files rendered from it and nothing else, and nothing was printed. *)
Theorem exit_code_meaning (args : Args) (w w' : World) (code : Z) :
  main json_load yaml_safe_load environment args w = (Ok code, w') ->
  (code = 0%Z \/ code = 1%Z \/ code = 2%Z)
  /\ (code = 2%Z ->
      force args = false
      /\ OS.path_exists w (out_dir_of args w) = true
      /\ fs w' = fs w
      /\ stderr w' = stderr w ++ [refusal (out_dir_of args w)])
  /\ (code = 1%Z ->
      exists file_format spos text messages,
        file_format_of args w = Ok file_format
        /\ OS.stat w (file_path_of args w) = FS.At spos (File text)
        /\ parsed json_load yaml_safe_load file_format text
           = Raise (ValidationError messages)
        /\ stderr w' = stderr w ++ [Repr messages]
        /\ OS.path_exists w' (out_dir_of args w) = false)
  /\ (code = 0%Z ->
      exists file_format spos text config pos,
        file_format_of args w = Ok file_format
        /\ OS.stat w (file_path_of args w) = FS.At spos (File text)
        /\ parsed json_load yaml_safe_load file_format text = Ok config
        /\ OS.stat w' (out_dir_of args w)
           = FS.At pos (Dir (rendered environment config))
        /\ stderr w' = stderr w).
Proof.
  intros H.
  destruct (main_returns args w w' code H)
    as [(-> & Hf & X & C & Ef & Es)
       |(file_format & spos & text & n1 & F & Ls & L1 & X1 & C
         & [(-> & m & P & Ef & Es)|(-> & config & init & nm & parent & P & _ & _ & _ & _
                                    & So & _ & Es)])].
  - split; [now right; right|]. repeat split; try assumption; discriminate.
  - split; [now right; left|]. split; [discriminate|]. split; [|discriminate].
    intros _. exists file_format, spos, text, m. repeat split; try assumption.
    rewrite <- X1. now apply path_exists_same.
  - split; [now left|]. split; [discriminate|]. split; [discriminate|].
    intros _. now exists file_format, spos, text, config, (parent ++ [nm]).
Qed.

(** ** What an exception tells *)















End Outcomes.

(** ** The driver on its other ways out *)

Lemma rpartition_last (c : ascii) (stem ext : string) :
  Str.contains c ext = false ->
  Str.rpartition c (stem +s String c ext) = Some (stem, ext).
Proof.
  intros H. induction stem as [|a stem IH]; simpl.
  - now rewrite (rpartition_without c ext H), Ascii.eqb_refl.
  - now rewrite IH.
Qed.

(** With no [--type], the format is the table's entry for the text after the
    last dot of the absolute path, and for nothing else of the path: dots
    before it, in the name or in a directory, do not matter. *)
Theorem format_is_read_after_the_last_dot (args : Args) (w : World)
    (stem ext : string) :
  format args = None ->
  file_path_of args w = stem +s "." +s ext ->
  Str.contains "."%char ext = false ->
  file_format_of args w = parse_ext_to_format ext.
Proof.
  intros Hf Hp Hd. unfold file_format_of, Str.rsplit1. rewrite Hf, Hp.
  change (stem +s "." +s ext) with (stem +s String "."%char ext).
  now rewrite (rpartition_last _ stem ext Hd).
Qed.

(** [os.mkdir] where the walk breaks off before the last step on a name
    that is not there. *)
Lemma mkdir_enoent (path : string) (w : World) :
  OS.stat w path = FS.ENOENT ->
  OS.mkdir path w = (Raise (FileNotFoundError path), log (EvMkdir path) w).
Proof.
  unfold OS.stat, OS.mkdir. destruct (path =? ""); [reflexivity|].
  unfold FS.resolve.
  destruct (FS.parent_and_name (OS.steps w path)) as [[init last]|].
  - destruct (FS.reach (fs w) [] init) as [parent| |]; try reflexivity.
    + destruct (FS.lookup (FS.step parent last) (fs w)) as [[c|es]|]; try discriminate.
      destruct (Str.endswith Posixpath.sep path); discriminate.
    + discriminate.
  - destruct (fs w) as [c|es]; [|discriminate].
    destruct (Str.endswith Posixpath.sep path); discriminate.
Qed.

(** The parser of a format is its deserializer, then the schema. *)
Lemma parsed_deserialized (json_load yaml_safe_load : string -> Result ConfigObjT)
    (file_format text : string) :
  parsed json_load yaml_safe_load file_format text
  = match deserialized json_load yaml_safe_load file_format text with
    | Ok data => ConfigSchema_load data
    | Raise e => Raise e
    end.
Proof.
  unfold parsed, deserialized.
  destruct (String.eqb_spec file_format "json") as [->|H1]; [reflexivity|].
  destruct (String.eqb_spec file_format "yaml") as [->|H2]; [reflexivity|].
  now rewrite get_config_parser_unknown.
Qed.

Section WaysOut.

Variable json_load yaml_safe_load : string -> Result ConfigObjT.
Variable environment : string -> Config -> string.

(** With [--force], an output path that leads to a regular file stops the
    run at [shutil.rmtree]: [NotADirectoryError], the file still there, the
    source never opened. *)
Theorem force_over_a_file_raises (args : Args) (w : World) (file_format text : string)
    (pos : list string) :
  file_format_of args w = Ok file_format ->
  force args = true ->
  OS.stat w (out_dir_of args w) = FS.At pos (File text) ->
  main json_load yaml_safe_load environment args w
  = (Raise (NotADirectoryError (out_dir_of args w)),
     after w (fs w) [EvExists (out_dir_of args w); EvRmtree (out_dir_of args w)]).
Proof.
  intros F Hf S. rewrite main_stages, F. cbv zeta.
  rewrite (stat_exists _ _ _ _ S), Hf. unfold OS.rmtree.
  change (OS.stat (after w (fs w) [EvExists (out_dir_of args w)]) (out_dir_of args w))
    with (OS.stat w (out_dir_of args w)).
  rewrite S. unfold log, after. simpl. now rewrite <- app_assoc.
Qed.




(** What the deserializer raises on the source is no validation failure:
    the exception leaves [main] uncaught, after the output directory was dealt
    with and the source closed; no output directory is made and nothing is
    printed. *)
Theorem malformed_source_raises (args : Args) (w : World)
    (file_format text : string) (spos : list string) (e : Exn) :
  file_format_of args w = Ok file_format ->
  deserialized json_load yaml_safe_load file_format text = Raise e ->
  (forall messages, e <> ValidationError messages) ->
  (OS.path_exists w (out_dir_of args w) = false
   \/ (force args = true
       /\ exists pos es,
            OS.stat w (out_dir_of args w) = FS.At pos (Dir es)
            /\ enters pos w (out_dir_of args w)
            /\ clear_of pos w (file_path_of args w))) ->
  OS.stat w (file_path_of args w) = FS.At spos (File text) ->
  exists w',
    main json_load yaml_safe_load environment args w = (Raise e, w')
    /\ OS.path_exists w' (out_dir_of args w) = false
    /\ stderr w' = stderr w.
Proof.
  intros F D NV C Ls.
  assert (parsed json_load yaml_safe_load file_format text = Raise e) as P
    by now rewrite parsed_deserialized, D.
  destruct (main_parser_fails json_load yaml_safe_load environment args w file_format
              text spos F C Ls) as (n1 & -> & S1 & X1).
  rewrite (parse_and_render_raise _ _ _ _ _ _ text _ spos _ S1 P NV).
  eexists. split; [reflexivity|]. split; [|reflexivity].
  now rewrite <- X1.
Qed.

(** An output directory to be made where the way to it is not there: the
    source is read and validated first, then [os.mkdir] raises; the tree is as
    it was and nothing is written. *)
Theorem missing_parent_raises (args : Args) (w : World)
    (file_format text : string) (config : Config) (spos : list string) :
  file_format_of args w = Ok file_format ->
  OS.stat w (out_dir_of args w) = FS.ENOENT ->
  OS.stat w (file_path_of args w) = FS.At spos (File text) ->
  parsed json_load yaml_safe_load file_format text = Ok config ->
  main json_load yaml_safe_load environment args w
  = (Raise (FileNotFoundError (out_dir_of args w)),
     after w (fs w)
       ([EvExists (out_dir_of args w)] ++ read_events (file_path_of args w)
        ++ [EvMkdir (out_dir_of args w)])).
Proof.
  intros F S Ls P.
  rewrite (main_absent _ _ _ args w file_format F)
    by (unfold OS.path_exists; now rewrite S).
  unfold parse_and_render. unfold bind at 1.
  rewrite (try_read json_load yaml_safe_load (file_path_of args w) file_format text
             (after w (fs w) [EvExists (out_dir_of args w)]) spos Ls), P.
  simpl caught. cbv iota beta. unfold bind at 1.
  rewrite mkdir_enoent by exact S.
  unfold log, after. simpl. now rewrite <- !app_assoc.
Qed.

End WaysOut.

(** ** The validator, back and forth *)

Lemma PageSchema_round_trip (p : Page) :
  Str.len (page_shortcut p) = 1 ->
  Marshmallow.PageSchema_do_load (page_to_data p) = inr p.
Proof.
  intros H. destruct p as [t h s]. cbn [page_shortcut] in H.
  unfold page_to_data, Marshmallow.PageSchema_do_load.
  cbn [page_title page_href page_shortcut].
  set (d := [("title", OStr t); ("href", OStr h); ("shortcut", OStr s)]).
  assert (Marshmallow.get d "title" = Some (OStr t)) as -> by reflexivity.
  assert (Marshmallow.get d "href" = Some (OStr h)) as -> by reflexivity.
  assert (Marshmallow.get d "shortcut" = Some (OStr s)) as -> by reflexivity.
  assert (Marshmallow.unknown_errors ["title"; "href"; "shortcut"] d = []) as ->
    by reflexivity.
  unfold Marshmallow.String_deserialize, Marshmallow.run_validators,
    Marshmallow.Length_equal_1.
  cbn [flat_map]. rewrite H. reflexivity.
Qed.

Lemma List_each_round_trip (ps : list Page) (idx : nat) :
  Forall (fun p => Str.len (page_shortcut p) = 1) ps ->
  Marshmallow.List_each idx (map page_to_data ps) = (ps, []).
Proof.
  intros H. revert idx. induction H as [|p ps Hp _ IH]; intros idx; [reflexivity|].
  cbn [map Marshmallow.List_each]. rewrite (IH (S idx)).
  change (Marshmallow.Nested_deserialize (page_to_data p))
    with (Marshmallow.PageSchema_do_load (page_to_data p)).
  now rewrite (PageSchema_round_trip p Hp).
Qed.

(** Every config whose shortcuts are one character long, counted as
    Python's [len] counts them, is accepted from the mapping that spells it
    out, and comes back as it is: titles, links, shortcuts, the number of
    pages and their order. *)
Theorem load_of_config_to_data (c : Config) :
  well_formed c -> ConfigSchema_load (config_to_data c) = Ok c.
Proof.
  intros H. destruct c as [t ps]. unfold well_formed in H. simpl in H.
  unfold ConfigSchema_load, config_to_data, Marshmallow.ConfigSchema_do_load.
  cbn [config_title config_pages].
  set (d := [("title", OStr t); ("pages", OList (map page_to_data ps))]).
  assert (Marshmallow.get d "title" = Some (OStr t)) as -> by reflexivity.
  assert (Marshmallow.get d "pages" = Some (OList (map page_to_data ps))) as ->
    by reflexivity.
  assert (Marshmallow.unknown_errors ["title"; "pages"] d = []) as ->
    by reflexivity.
  unfold Marshmallow.List_deserialize. cbn [Marshmallow.as_collection].
  rewrite (List_each_round_trip ps 0 H). reflexivity.
Qed.

Lemma String_deserialize_inr (validators : list (string -> list string))
    (v : option ConfigObjT) (s : string) :
  Marshmallow.String_deserialize validators v = inr s -> v = Some (OStr s).
Proof.
  destruct v as [[]|]; simpl; try discriminate.
  destruct (Marshmallow.run_validators validators s0); [|discriminate].
  now intros [= ->].
Qed.

Lemma unknown_errors_nil (fields : list string) (d : list (string * ConfigObjT)) :
  Marshmallow.unknown_errors fields d = [] ->
  forall k, In k (map fst d) -> In k fields.
Proof.
  unfold Marshmallow.unknown_errors. intros H k Hk.
  destruct (Str.mem k fields) eqn:E; [now apply mem_In|].
  assert (In k (filter (fun k => negb (Str.mem k fields)) (map fst d))) as Hin
    by (apply filter_In; split; [exact Hk | now rewrite E]).
  destruct (filter (fun k => negb (Str.mem k fields)) (map fst d));
    [destruct Hin | discriminate].
Qed.

Lemma get_field_of (d : list (string * ConfigObjT)) (k : string)
    (v : option ConfigObjT) :
  Marshmallow.get d k = v -> field_of d k v.
Proof. intros <-. apply field_of_get. Qed.

Lemma PageSchema_spells (each : ConfigObjT) (p : Page) :
  Marshmallow.PageSchema_do_load each = inr p -> spells_page each p.
Proof.
  destruct each as [d| | | | | |]; try discriminate.
  unfold Marshmallow.PageSchema_do_load.
  destruct (Marshmallow.String_deserialize [] (Marshmallow.get d "title"))
    as [mt|t] eqn:Et; [discriminate|].
  destruct (Marshmallow.String_deserialize [] (Marshmallow.get d "href"))
    as [mh|h] eqn:Eh; [discriminate|].
  destruct (Marshmallow.String_deserialize [Marshmallow.Length_equal_1]
              (Marshmallow.get d "shortcut")) as [ms|s] eqn:Es; [discriminate|].
  simpl.
  destruct (Marshmallow.unknown_errors ["title"; "href"; "shortcut"] d) eqn:U;
    [|discriminate].
  intros [= <-]. exists d. cbn [page_title page_href page_shortcut].
  apply String_deserialize_inr, get_field_of in Et, Eh, Es.
  repeat split; try assumption. exact (unknown_errors_nil _ d U).
Qed.

Lemma List_each_spells (l : list ConfigObjT) (idx : nat) (ps : list Page) :
  Marshmallow.List_each idx l = (ps, []) -> Forall2 spells_page l ps.
Proof.
  revert idx ps. induction l as [|each rest IH]; intros idx ps.
  - intros [= <-]. constructor.
  - cbn [Marshmallow.List_each].
    destruct (Marshmallow.List_each (S idx) rest) as [result errors] eqn:E.
    destruct (Marshmallow.Nested_deserialize each) as [m|p] eqn:N; [discriminate|].
    intros [= <- ->]. constructor; [|now apply (IH (S idx))].
    apply PageSchema_spells. now destruct each.
Qed.

(** Validation changes nothing: a loaded config holds the title the
    input has under [title], and its pages are the elements of the list the
    input has under [pages], one for one and in order, each with the three
    strings of its element; the input has no other key, at either level. *)
Theorem loaded_config_is_the_input (data : ConfigObjT) (c : Config) :
  ConfigSchema_load data = Ok c ->
  exists d l,
    data = ODict d
    /\ field_of d "title" (Some (OStr (config_title c)))
    /\ field_of d "pages" (Some (OList l))
    /\ Forall2 spells_page l (config_pages c)
    /\ forall k, In k (map fst d) -> In k ["title"; "pages"].
Proof.
  unfold ConfigSchema_load.
  destruct (Marshmallow.ConfigSchema_do_load data) as [m|c'] eqn:E; [discriminate|].
  intros [= ->]. destruct data as [d| | | | | |]; try discriminate.
  unfold Marshmallow.ConfigSchema_do_load in E.
  destruct (Marshmallow.String_deserialize [] (Marshmallow.get d "title"))
    as [mt|t] eqn:Et; [discriminate|].
  destruct (Marshmallow.List_deserialize (Marshmallow.get d "pages"))
    as [ml|ps] eqn:El; [discriminate|].
  simpl in E.
  destruct (Marshmallow.unknown_errors ["title"; "pages"] d) eqn:U; [|discriminate].
  injection E as <-. cbn [config_title config_pages].
  apply String_deserialize_inr, get_field_of in Et.
  unfold Marshmallow.List_deserialize in El.
  destruct (Marshmallow.get d "pages") as [v|] eqn:G; [|discriminate].
  destruct (Marshmallow.as_collection v) as [l|] eqn:C.
  2:{ now destruct v. }
  assert (v = OList l) as -> by (destruct v; try discriminate C; now injection C as ->).
  assert (Marshmallow.List_each 0 l = (ps, [])) as Le.
  { destruct (Marshmallow.List_each 0 l) as [r [|e es]];
      (discriminate El || now injection El as ->). }
  exists d, l. repeat split; try assumption.
  - now apply get_field_of.
  - now apply (List_each_spells l 0).
  - exact (unknown_errors_nil _ d U).
Qed.

(** A key that is no field is an error, not ignored: at the top level,
    and in a page under the page's index. *)
Theorem unknown_keys_are_rejected :
  (forall d k,
     In k (map fst d) -> k <> "title" -> k <> "pages" ->
     exists m,
       ConfigSchema_load (ODict d) = Raise (ValidationError m)
       /\ In ([Field k], Marshmallow.msg_unknown) (flatten m))
  /\ (forall d l i d' k,
        Marshmallow.get d "pages" = Some (OList l) ->
        nth_error l i = Some (ODict d') ->
        In k (map fst d') -> k <> "title" -> k <> "href" -> k <> "shortcut" ->
        exists m,
          ConfigSchema_load (ODict d) = Raise (ValidationError m)
          /\ In ([Field "pages"; Index i; Field k], Marshmallow.msg_unknown)
                (flatten m)).
Proof.
  assert (forall d path msg,
            ConfigViolation (ODict d) path msg ->
            exists m, ConfigSchema_load (ODict d) = Raise (ValidationError m)
                      /\ In (path, msg) (flatten m)) as K.
  { intros d path msg V. pose proof (ConfigSchema_report (ODict d)) as R.
    unfold ConfigSchema_load.
    destruct (Marshmallow.ConfigSchema_do_load (ODict d)) as [m|config].
    - exists m. split; [reflexivity | now apply R].
    - now destruct (proj2 R _ _ V). }
  split.
  - intros d k Hin H1 H2. apply K, CV_unknown. split; [exact Hin|].
    intros [<-|[<-|[]]]; congruence.
  - intros d l i d' k G Hn Hin H1 H2 H3. apply K.
    apply CV_pages with (Some (OList l)); [now apply get_field_of|].
    apply LV_element with (ODict d'); [exact Hn|].
    apply EV_page; [discriminate|]. apply PV_unknown. split; [exact Hin|].
    intros [<-|[<-|[<-|[]]]]; congruence.
Qed.

(** ** Rendering into what is there *)


Lemma stat_reached (w : World) (path : string) (pos : list string)
    (es : list (string * Node)) :
  path <> "" ->
  FS.reach (fs w) [] (OS.steps w path) = FS.Reached pos ->
  FS.lookup pos (fs w) = Some (Dir es) ->
  OS.stat w path = FS.At pos (Dir es).
Proof.
  intros N R L. destruct (stat_of_reach w path pos N R) as [es' S].
  rewrite S. destruct (stat_dir_reach _ _ _ _ S) as (_ & _ & L'). congruence.
Qed.

Section Rendering.

Variable environment : string -> Config -> string.

(** Rendering into a directory that holds other things: the two files
    are written over what files of their names were there, and every other
    entry of the directory stays as it is. *)
Theorem rendering_overwrites_and_keeps (config : Config) (out_dir : string)
    (w : World) (pos : list string) (es : list (string * Node)) :
  OS.stat w out_dir = FS.At pos (Dir es) ->
  (forall es', FS.find_entry "index.html" es <> Some (Dir es')) ->
  (forall es', FS.find_entry "index.js" es <> Some (Dir es')) ->
  exists w' entries,
    generate_jinja_templates environment config out_dir w = (Ok tt, w')
    /\ OS.stat w' out_dir = FS.At pos (Dir entries)
    /\ FS.find_entry "index.html" entries
       = Some (File (environment "index.html.jinja" config))
    /\ FS.find_entry "index.js" entries
       = Some (File (environment "index.js.jinja" config))
    /\ (forall nm, nm <> "index.html" -> nm <> "index.js" ->
          FS.find_entry nm entries = FS.find_entry nm es)
    /\ agree_off pos (fs w) (fs w').
Proof.
  intros S H1 H2. destruct (stat_dir_reach _ _ _ _ S) as (N & R & L).
  destruct (generate_in_dir environment config out_dir w pos es R L H1 H2)
    as (n' & E & L' & A & R').
  eexists. eexists. split; [exact E|]. split.
  { apply stat_reached; [exact N | exact R' | exact L']. }
  repeat split.
  - rewrite find_put_entry_other by discriminate. apply find_put_entry_same.
  - apply find_put_entry_same.
  - intros nm N1 N2. now rewrite !find_put_entry_other.
  - exact A.
Qed.

(** Rendering twice is rendering once: a second rendering of the same
    config into the same directory succeeds and leaves the directory as the
    first left it. *)
Theorem rendering_again_changes_nothing (config : Config) (out_dir : string)
    (w : World) (pos : list string) (es : list (string * Node)) :
  OS.stat w out_dir = FS.At pos (Dir es) ->
  (forall es', FS.find_entry "index.html" es <> Some (Dir es')) ->
  (forall es', FS.find_entry "index.js" es <> Some (Dir es')) ->
  exists w1 w2 entries,
    generate_jinja_templates environment config out_dir w = (Ok tt, w1)
    /\ generate_jinja_templates environment config out_dir w1 = (Ok tt, w2)
    /\ OS.stat w1 out_dir = FS.At pos (Dir entries)
    /\ OS.stat w2 out_dir = FS.At pos (Dir entries).
Proof.
  intros S H1 H2. destruct (stat_dir_reach _ _ _ _ S) as (N & R & L).
  destruct (generate_in_dir environment config out_dir w pos es R L H1 H2)
    as (n1 & E1 & L1 & A1 & R1).
  set (html := File (environment "index.html.jinja" config)) in *.
  set (js := File (environment "index.js.jinja" config)) in *.
  set (entries := FS.put_entry "index.js" js (FS.put_entry "index.html" html es)) in *.
  assert (FS.find_entry "index.html" entries = Some html) as Fh.
  { unfold entries. rewrite find_put_entry_other by discriminate.
    apply find_put_entry_same. }
  assert (FS.find_entry "index.js" entries = Some js) as Fj
    by apply find_put_entry_same.
  set (w1 := after w n1 (render_events environment config out_dir)) in *.
  destruct (generate_in_dir environment config out_dir w1 pos entries R1 L1)
    as (n2 & E2 & L2 & A2 & R2).
  { intros es'. rewrite Fh. discriminate. }
  { intros es'. rewrite Fj. discriminate. }
  exists w1. eexists. exists entries. split; [exact E1|]. split; [exact E2|].
  split; [now apply stat_reached|]. apply stat_reached; try assumption.
  simpl. etransitivity; [exact L2|].
  fold html js. now rewrite (put_entry_present _ _ _ Fh), (put_entry_present _ _ _ Fj).
Qed.


(** A failure in the middle leaves half an output: when [index.js]
    cannot be opened because a directory of that name is in the way,
    [index.html] has been written by then and stays. *)
Theorem rendering_can_stop_half_way (config : Config) (out_dir : string)
    (w : World) (pos : list string) (es sub : list (string * Node)) :
  OS.stat w out_dir = FS.At pos (Dir es) ->
  (forall es', FS.find_entry "index.html" es <> Some (Dir es')) ->
  FS.find_entry "index.js" es = Some (Dir sub) ->
  exists w',
    generate_jinja_templates environment config out_dir w
    = (Raise (IsADirectoryError (Posixpath.join out_dir "index.js")), w')
    /\ OS.stat w' out_dir
       = FS.At pos (Dir (FS.put_entry "index.html"
                           (File (environment "index.html.jinja" config)) es)).
Proof.
  intros S H1 H2. destruct (stat_dir_reach _ _ _ _ S) as (N & R & L).
  unfold generate_jinja_templates, for_each, bind, Template_load. simpl name.
  destruct (write_one_file out_dir "index.html"
              (environment ("index.html" +s ".jinja") config) w pos es
              plain_index_html R L H1) as (n1 & -> & L1 & A1 & R1).
  unfold with_open, OS.open_w.
  set (w1 := after w n1 _).
  assert ((Posixpath.join out_dir "index.js" =? "") = false) as Nj
    by (apply String.eqb_neq, join_nonempty; discriminate).
  rewrite Nj.
  change (OS.steps w1 (Posixpath.join out_dir "index.js"))
    with (OS.steps w (Posixpath.join out_dir "index.js")).
  rewrite (steps_join w out_dir "index.js" plain_index_js), parent_and_name_snoc.
  change (fs w1) with n1. rewrite R1. cbn [String.eqb Ascii.eqb Bool.eqb orb].
  rewrite lookup_app, L1. cbn [FS.lookup].
  rewrite find_put_entry_other by discriminate. rewrite H2.
  eexists. split; [reflexivity|]. apply stat_reached; assumption.
Qed.

End Rendering.

(** ** Running again *)

Section Reruns.

Variable json_load yaml_safe_load : string -> Result ConfigObjT.
Variable environment : string -> Config -> string.

(** Where the paths of a run lead depends on the world through its working
    directory only. *)
Lemma same_cwd_same_paths (args : Args) (w w1 : World) :
  cwd w1 = cwd w ->
  file_path_of args w1 = file_path_of args w
  /\ file_format_of args w1 = file_format_of args w
  /\ out_dir_of args w1 = out_dir_of args w
  /\ out_at args w1 = out_at args w
  /\ src_at args w1 = src_at args w.
Proof.
  intros H.
  unfold file_format_of, out_at, src_at, locate, out_dir_of, file_path_of.
  now rewrite H.
Qed.

(** After a run that returned 0, the same command without [--force] is
    refused: exit code 2, and the output of the first run is left as it is. *)
Theorem second_run_without_force_is_refused (args : Args) (w w1 : World) :
  main json_load yaml_safe_load environment args w = (Ok 0%Z, w1) ->
  force args = false ->
  main json_load yaml_safe_load environment args w1
  = (Ok 2%Z,
     mkWorld (cwd w1) (fs w1)
             (stderr w1 ++ [refusal (out_dir_of args w1)])
             (events w1 ++ [EvExists (out_dir_of args w1)])).
Proof.
  intros H Hf.
  destruct (main_returns json_load yaml_safe_load environment args w w1 0%Z H)
    as [([=] & _)
       |(file_format & spos & text & n1 & F & _ & _ & _ & C
         & [([=] & _)|(_ & config & init & nm & parent & _ & _ & _ & _ & _
                       & So & _)])].
  destruct (same_cwd_same_paths args w w1 C) as (_ & F1 & O1 & _).
  rewrite main_stages, F1, F. cbv zeta.
  rewrite <- O1 in So. now rewrite (stat_exists _ _ _ _ So), Hf.
Qed.

(** After a run that returned 0, the same command with [--force]
    returns 0 again and leaves the same output directory: the same two
    files, and nothing else. *)
Theorem second_run_with_force_renders_the_same (args : Args) (w w1 : World) :
  main json_load yaml_safe_load environment args w = (Ok 0%Z, w1) ->
  force args = true ->
  exists w2,
    main json_load yaml_safe_load environment args w1 = (Ok 0%Z, w2)
    /\ FS.lookup (out_at args w) (fs w2) = FS.lookup (out_at args w) (fs w1)
    /\ stderr w2 = stderr w1.
Proof.
  intros H Hf.
  destruct (main_returns json_load yaml_safe_load environment args w w1 0%Z H)
    as [([=] & _)
       |(file_format & spos & text & n1 & F & _ & Ls & _ & C
         & [([=] & _)|(_ & config & init & nm & parent & P & Es & Pn & Rp & K
                       & So & A & _)])].
  destruct (same_cwd_same_paths args w w1 C) as (P1 & F1 & O1 & _).
  set (pos := parent ++ [nm]) in *.
  assert (enters pos w1 (out_dir_of args w1)) as En.
  { unfold enters, OS.steps. rewrite C, O1. fold (OS.steps w (out_dir_of args w)).
    rewrite Es, removelast_last. unfold FS.passes.
    apply (reach_avoids n1 pos [] init parent Rp). rewrite K. discriminate. }
  assert (clear_of pos (after w n1 []) (file_path_of args w)) as Cl.
  { destruct (stat_file _ _ _ _ Ls) as (_ & _ & R).
    apply (resolve_avoids_absent pos _ _ _ _ R K). }
  assert (OS.stat w1 (file_path_of args w1) = FS.At spos (File text)) as Ls1.
  { rewrite P1. apply (stat_agree_file pos (after w n1 [])); assumption. }
  assert (clear_of pos w1 (file_path_of args w1)) as Cl1.
  { revert Cl. unfold clear_of, OS.steps. simpl cwd. now rewrite C, P1. }
  rewrite <- O1 in So. rewrite <- F1 in F.
  destruct (main_forced_valid json_load yaml_safe_load environment args w1
              file_format text config pos spos _ Hf So En F Ls1 Cl1 P)
    as (n2 & E2 & S2 & A2).
  eexists. split; [exact E2|]. split; [|reflexivity].
  assert (out_at args w = pos) as ->.
  { destruct (stat_dir _ _ _ _ So) as (_ & R). apply resolve_final in R.
    rewrite R. unfold out_at, locate. rewrite lexical_final.
    unfold OS.steps. now rewrite C, O1. }
  destruct (stat_dir_reach _ _ _ _ So) as (_ & _ & L1).
  destruct (stat_dir_reach _ _ _ _ S2) as (_ & _ & L2).
  simpl in L2 |- *. now rewrite L1, L2.
Qed.

End Reruns.

(** ** The driver and the schema together *)

Lemma bind_cong {A B} (c1 c2 : M A) (k : A -> M B) (w : World) :
  c1 w = c2 w -> bind c1 k w = bind c2 k w.
Proof. unfold bind. now intros ->. Qed.

Lemma parse_and_render_by_parsed
    (j1 y1 j2 y2 : string -> Result ConfigObjT)
    (environment : string -> Config -> string)
    (file_path file_format out_dir : string) (w : World) :
  (forall text, parsed j1 y1 file_format text = parsed j2 y2 file_format text) ->
  parse_and_render j1 y1 environment file_path file_format out_dir w
  = parse_and_render j2 y2 environment file_path file_format out_dir w.
Proof.
  intros H.
  assert (forall j y file w1,
            (parser <- lift (get_config_parser j y file_format) ;;
             lift (parser file)) w1
            = (parsed j y file_format file, w1)) as Body.
  { intros j y file w1. unfold bind, lift, parsed.
    now destruct (get_config_parser j y file_format). }
  assert (with_open (OS.open_r file_path) file_path (fun file =>
            parser <- lift (get_config_parser j1 y1 file_format) ;;
            lift (parser file)) w
          = with_open (OS.open_r file_path) file_path (fun file =>
              parser <- lift (get_config_parser j2 y2 file_format) ;;
              lift (parser file)) w) as Read.
  { unfold with_open.
    destruct (OS.open_r file_path w) as [[file|e] w1]; [|reflexivity].
    now rewrite !Body, H. }
  unfold parse_and_render. apply bind_cong.
  unfold try_ValidationError. now rewrite Read.
Qed.

(** Of the two deserializers only the one of the format in use bears on
    the run: two pairs of deserializers that agree on the format the run
    settles on give the same outcome and the same world. *)
Theorem only_the_deserializer_in_use_matters
    (j1 y1 j2 y2 : string -> Result ConfigObjT)
    (environment : string -> Config -> string) (args : Args) (w : World) :
  (forall file_format text,
     file_format_of args w = Ok file_format ->
     deserialized j1 y1 file_format text = deserialized j2 y2 file_format text) ->
  main j1 y1 environment args w = main j2 y2 environment args w.
Proof.
  intros H. rewrite !main_stages.
  destruct (file_format_of args w) as [file_format|e]; [|reflexivity].
  assert (forall w2,
            parse_and_render j1 y1 environment (file_path_of args w) file_format
              (out_dir_of args w) w2
            = parse_and_render j2 y2 environment (file_path_of args w) file_format
                (out_dir_of args w) w2) as Same.
  { intros w2. apply parse_and_render_by_parsed. intros text.
    now rewrite !parsed_deserialized, (H file_format text eq_refl). }
  cbv zeta. destruct (OS.path_exists w (out_dir_of args w)); [|apply Same].
  destruct (force args); [|reflexivity].
  destruct (OS.rmtree (out_dir_of args w)
              (after w (fs w) [EvExists (out_dir_of args w)])) as [[[]|e] w2];
    [apply Same | reflexivity].
Qed.

Section Schema.

Variable json_load yaml_safe_load : string -> Result ConfigObjT.
Variable environment : string -> Config -> string.

(** Exit code 1 comes with the whole report.  The deserializers
    raising no [ValidationError] of their own, the source file was
    deserialized, and what is printed is the list of the constraints that its
    data breaks, each under its path, none left out and none added. *)
Theorem exit_1_prints_every_violation (args : Args) (w w' : World) :
  no_ValidationError json_load ->
  no_ValidationError yaml_safe_load ->
  main json_load yaml_safe_load environment args w = (Ok 1%Z, w') ->
  exists file_format spos text data messages,
    file_format_of args w = Ok file_format
    /\ OS.stat w (file_path_of args w) = FS.At spos (File text)
    /\ deserialized json_load yaml_safe_load file_format text = Ok data
    /\ stderr w' = stderr w ++ [Repr messages]
    /\ forall path msg,
         In (path, msg) (flatten messages) <-> ConfigViolation data path msg.
Proof.
  intros Nj Ny H.
  destruct (main_returns json_load yaml_safe_load environment args w w' 1%Z H)
    as [([=] & _)
       |(file_format & spos & text & n1 & F & Ls & _ & _ & _
         & [(_ & m & P & _ & Es)|([=] & _)])].
  rewrite parsed_deserialized in P.
  destruct (deserialized json_load yaml_safe_load file_format text)
    as [data|e] eqn:D.
  - exists file_format, spos, text, data, m. repeat split; try assumption;
      pose proof (ConfigSchema_report data) as R; unfold ConfigSchema_load in P;
      destruct (Marshmallow.ConfigSchema_do_load data) as [m'|c]; try discriminate;
      injection P as <-; apply R.
  - injection P as ->. exfalso. revert D. unfold deserialized.
    destruct (file_format =? "json"); [apply Nj|].
    destruct (file_format =? "yaml"); [apply Ny | discriminate].
Qed.

(** Exit code 0 comes with a config that keeps the schema: the data of
    the source file breaks no constraint, every shortcut of the config made
    from it is one character long, and it is this config whose two files the
    output directory holds. *)
Theorem exit_0_renders_a_valid_config (args : Args) (w w' : World) :
  main json_load yaml_safe_load environment args w = (Ok 0%Z, w') ->
  exists file_format spos text data config pos,
    file_format_of args w = Ok file_format
    /\ OS.stat w (file_path_of args w) = FS.At spos (File text)
    /\ deserialized json_load yaml_safe_load file_format text = Ok data
    /\ ConfigSchema_load data = Ok config
    /\ (forall path msg, ~ ConfigViolation data path msg)
    /\ well_formed config
    /\ OS.stat w' (out_dir_of args w)
       = FS.At pos (Dir (rendered environment config)).
Proof.
  intros H.
  destruct (main_returns json_load yaml_safe_load environment args w w' 0%Z H)
    as [([=] & _)
       |(file_format & spos & text & n1 & F & Ls & _ & _ & _
         & [([=] & _)|(_ & config & init & nm & parent & P & _ & _ & _ & _
                       & So & _)])].
  rewrite parsed_deserialized in P.
  destruct (deserialized json_load yaml_safe_load file_format text)
    as [data|e] eqn:D; [|discriminate].
  exists file_format, spos, text, data, config, (parent ++ [nm]).
  pose proof (ConfigSchema_report data) as R. pose proof P as P'.
  unfold ConfigSchema_load in P'.
  destruct (Marshmallow.ConfigSchema_do_load data) as [m'|c]; [discriminate|].
  injection P' as ->. destruct R as [Wf NoV]. now repeat split.
Qed.

End Schema.

(** * The theorems at work on the sample site *)



Lemma validation_error_exits_1_witness :
  exists w',
    main sample_load sample_load sample_environment
         (mkArgs "bad.yaml" (Some "out") None false) sample_world = (Ok 1%Z, w')
    /\ stderr w'
       = [Repr (Errors
            [(Field "title", Msgs ["Not a valid string."]);
             (Field "pages",
              Errors [(Index 0, Errors [(Field "shortcut", Msgs ["Length must be 1."])]);
                      (Index 2, Msgs ["Field may not be null."])])])].
Proof.
  apply (validation_error_exits_1 sample_load sample_load sample_environment
           (mkArgs "bad.yaml" (Some "out") None false) sample_world "yaml"
           invalid_text ["srv"; "site"; "bad.yaml"]);
    [reflexivity | left; reflexivity | reflexivity | reflexivity].
Defined.

Lemma force_then_validation_error_loses_directory_witness :
  exists w',
    main sample_load sample_load sample_environment
         (mkArgs "bad.yaml" None None true) sample_world = (Ok 1%Z, w')
    /\ OS.path_exists w' "/srv/site/splugh_dist" = false
    /\ FS.lookup ["srv"; "site"; "splugh_dist"] (fs w') = None
    /\ stderr w'
       = [Repr (Errors
            [(Field "title", Msgs ["Not a valid string."]);
             (Field "pages",
              Errors [(Index 0, Errors [(Field "shortcut", Msgs ["Length must be 1."])]);
                      (Index 2, Msgs ["Field may not be null."])])])]
    /\ events w'
       = [EvExists "/srv/site/splugh_dist"; EvRmtree "/srv/site/splugh_dist";
          EvOpen "/srv/site/bad.yaml" "r"; EvClose "/srv/site/bad.yaml"].
Proof.
  apply (force_then_validation_error_loses_directory sample_load sample_load
           sample_environment (mkArgs "bad.yaml" None None true) sample_world
           "yaml" invalid_text _ ["srv"; "site"; "splugh_dist"]
           ["srv"; "site"; "bad.yaml"] [("old.txt", File "old")]);
    reflexivity.
Defined.

Lemma rendering_is_deterministic_witness :
  exists w1' w2',
    generate_jinja_templates sample_environment (mkConfig "Home" [])
      "/tmp/out" empty_world = (Ok tt, w1')
    /\ generate_jinja_templates sample_environment (mkConfig "Home" [])
         "out/" (mkWorld "/srv" (Dir [("srv", Dir [("out", Dir []); ("x", File "y")])]) [] [])
       = (Ok tt, w2')
    /\ OS.stat w1' "/tmp/out"
       = FS.At ["tmp"; "out"]
           (Dir [("index.html", File "index.html.jinja: Home");
                 ("index.js", File "index.js.jinja: Home")])
    /\ OS.stat w2' "out/"
       = FS.At ["srv"; "out"]
           (Dir [("index.html", File "index.html.jinja: Home");
                 ("index.js", File "index.js.jinja: Home")])
    /\ agree_off ["tmp"; "out"] (fs empty_world) (fs w1')
    /\ agree_off ["srv"; "out"]
         (Dir [("srv", Dir [("out", Dir []); ("x", File "y")])]) (fs w2')
    /\ events w1'
       = [EvOpen "/tmp/out/index.html" "+w";
          EvWrite "/tmp/out/index.html" "index.html.jinja: Home";
          EvClose "/tmp/out/index.html";
          EvOpen "/tmp/out/index.js" "+w";
          EvWrite "/tmp/out/index.js" "index.js.jinja: Home";
          EvClose "/tmp/out/index.js"]
    /\ events w2'
       = [EvOpen "out/index.html" "+w";
          EvWrite "out/index.html" "index.html.jinja: Home";
          EvClose "out/index.html";
          EvOpen "out/index.js" "+w";
          EvWrite "out/index.js" "index.js.jinja: Home";
          EvClose "out/index.js"].
Proof.
  apply (rendering_is_deterministic sample_environment (mkConfig "Home" [])
           "/tmp/out" "out/" empty_world
           (mkWorld "/srv" (Dir [("srv", Dir [("out", Dir []); ("x", File "y")])]) [] [])
           ["tmp"; "out"] ["srv"; "out"]);
    reflexivity.
Defined.

Lemma no_dot_in_absolute_path_raises_IndexError_witness :
  main sample_load sample_load sample_environment
       (mkArgs "./config" None None true) sample_world
  = (Raise IndexError, sample_world).
Proof.
  apply (no_dot_in_absolute_path_raises_IndexError sample_load sample_load
           sample_environment (mkArgs "./config" None None true) sample_world);
    reflexivity.
Defined.

Lemma unknown_type_fails_after_the_source_is_opened_witness :
  exists w',
    main sample_load sample_load sample_environment
         (mkArgs "config.yaml" None (Some "xml") true) sample_world
    = (Raise (KeyError "xml"), w')
    /\ events w'
       = [EvExists "/srv/site/splugh_dist"; EvRmtree "/srv/site/splugh_dist";
          EvOpen "/srv/site/config.yaml" "r"; EvClose "/srv/site/config.yaml"]
    /\ OS.path_exists w' "/srv/site/splugh_dist" = false
    /\ stderr w' = [].
Proof.
  apply (unknown_type_fails_after_the_source_is_opened sample_load sample_load
           sample_environment (mkArgs "config.yaml" None (Some "xml") true)
           sample_world "xml" valid_text ["srv"; "site"; "config.yaml"]);
    try reflexivity; try discriminate.
  right. split; [reflexivity|].
  exists ["srv"; "site"; "splugh_dist"], [("old.txt", File "old")].
  repeat split.
Defined.

Lemma shortcut_has_length_1_witness :
  (exists m,
     Marshmallow.PageSchema_do_load (sample_page "") = inl m
     /\ In ([Field "shortcut"], "Length must be 1.") (flatten m))
  /\ (exists m,
        Marshmallow.PageSchema_do_load (sample_page "ab") = inl m
        /\ In ([Field "shortcut"], "Length must be 1.") (flatten m))
  /\ Str.len (page_shortcut (mkPage "A" "/a" e_acute)) = 1
  /\ Forall (fun p => Str.len (page_shortcut p) = 1) [mkPage "A" "/a" "a"].
Proof.
  destruct shortcut_has_length_1 as (Bad & _ & Good & All).
  split; [|split; [|split]].
  - apply (Bad [("title", OStr "A"); ("href", OStr "/a"); ("shortcut", OStr "")] "");
      [apply get_field_of; reflexivity | discriminate].
  - apply (Bad [("title", OStr "A"); ("href", OStr "/a"); ("shortcut", OStr "ab")] "ab");
      [apply get_field_of; reflexivity | discriminate].
  - apply (Good (sample_page e_acute)). reflexivity.
  - apply (All sample_valid (mkConfig "Home" [mkPage "A" "/a" "a"])). reflexivity.
Defined.

Lemma validation_is_all_or_every_violation_witness :
  (exists m,
     ConfigSchema_load (ODict [("pages", OList [])]) = Raise (ValidationError m)
     /\ In ([Field "title"], "Missing data for required field.") (flatten m))
  /\ (exists m,
        ConfigSchema_load (ODict [("title", OStr "Home")]) = Raise (ValidationError m)
        /\ In ([Field "pages"], "Missing data for required field.") (flatten m))
  /\ (exists m,
        ConfigSchema_load sample_invalid = Raise (ValidationError m)
        /\ forall path msg,
             In (path, msg) (flatten m) <-> ConfigViolation sample_invalid path msg).
Proof.
  destruct validation_is_all_or_every_violation as (Title & Pages & All).
  split; [|split].
  - apply (Title [("pages", OList [])]). simpl. intros [H|[]]. discriminate.
  - apply (Pages [("title", OStr "Home")]). simpl. intros [H|[]]. discriminate.
  - destruct (All sample_invalid) as [(config & E & _)|H]; [discriminate E | exact H].
Defined.

Lemma unknown_extension_fails_before_any_call_witness :
  main sample_load sample_load sample_environment
       (mkArgs "notes.txt" None None true) sample_world
  = (Raise (KeyError "txt"), sample_world).
Proof.
  apply (unknown_extension_fails_before_any_call sample_load sample_load
           sample_environment (mkArgs "notes.txt" None None true) sample_world
           "/srv/site/notes" "txt");
    (reflexivity || discriminate).
Defined.

Lemma fresh_run_renders_witness :
  exists w',
    main sample_load sample_load sample_environment
         (mkArgs "config.yaml" (Some "out") None false) sample_world = (Ok 0%Z, w')
    /\ events w'
       = [EvExists "/srv/site/out";
          EvOpen "/srv/site/config.yaml" "r"; EvClose "/srv/site/config.yaml";
          EvMkdir "/srv/site/out";
          EvOpen "/srv/site/out/index.html" "+w";
          EvWrite "/srv/site/out/index.html" "index.html.jinja: Home";
          EvClose "/srv/site/out/index.html";
          EvOpen "/srv/site/out/index.js" "+w";
          EvWrite "/srv/site/out/index.js" "index.js.jinja: Home";
          EvClose "/srv/site/out/index.js"]
    /\ OS.stat w' "/srv/site/out"
       = FS.At ["srv"; "site"; "out"]
           (Dir [("index.html", File "index.html.jinja: Home");
                 ("index.js", File "index.js.jinja: Home")])
    /\ stderr w' = [].
Proof.
  apply (fresh_run_renders sample_load sample_load sample_environment
           (mkArgs "config.yaml" (Some "out") None false) sample_world "yaml"
           valid_text sample_config ["srv"; "site"] ["srv"; "site"; "config.yaml"]
           "out");
    reflexivity.
Defined.

Lemma main_leaves_files_outside_the_output_directory_witness :
  FS.lookup ["srv"; "site"; "bad.yaml"] (fs sample_world) = Some (File invalid_text)
  <-> FS.lookup ["srv"; "site"; "bad.yaml"]
        (fs (snd (main sample_load sample_load sample_environment
                    (mkArgs "config.yaml" None None true) sample_world)))
      = Some (File invalid_text).
Proof.
  apply (main_leaves_files_outside_the_output_directory sample_load sample_load
           sample_environment (mkArgs "config.yaml" None None true) sample_world).
  reflexivity.
Defined.

Lemma exit_code_meaning_witness :
  exists w',
    main sample_load sample_load sample_environment
         (mkArgs "config.yaml" None None true) sample_world = (Ok 0%Z, w')
    /\ exists file_format spos text config pos,
         file_format_of (mkArgs "config.yaml" None None true) sample_world
         = Ok file_format
         /\ OS.stat sample_world "/srv/site/config.yaml" = FS.At spos (File text)
         /\ parsed sample_load sample_load file_format text = Ok config
         /\ OS.stat w' "/srv/site/splugh_dist"
            = FS.At pos (Dir (rendered sample_environment config))
         /\ stderr w' = [].
Proof.
  assert (exists w',
            main sample_load sample_load sample_environment
                 (mkArgs "config.yaml" None None true) sample_world = (Ok 0%Z, w'))
    as [w' H] by (eexists; vm_compute; reflexivity).
  exists w'. split; [exact H|].
  destruct (exit_code_meaning sample_load sample_load sample_environment
              _ _ _ _ H) as (_ & _ & _ & H0).
  destruct (H0 eq_refl) as (file_format & spos & text & config & pos & F & Ls & P
                            & Lr & Es).
  exists file_format, spos, text, config, pos. repeat split; assumption.
Defined.


Lemma format_is_read_after_the_last_dot_witness :
  file_format_of (mkArgs "archive.v2.yml" None None false) dotted_world = Ok "yaml".
Proof.
  apply (format_is_read_after_the_last_dot
           (mkArgs "archive.v2.yml" None None false) dotted_world
           "/srv/my.site/archive.v2" "yml");
    reflexivity.
Defined.

Lemma force_over_a_file_raises_witness :
  main sample_load sample_load sample_environment
       (mkArgs "config.yaml" (Some "config") None true) sample_world
  = (Raise (NotADirectoryError "/srv/site/config"),
     mkWorld "/srv/site" (fs sample_world) []
       [EvExists "/srv/site/config"; EvRmtree "/srv/site/config"]).
Proof.
  apply (force_over_a_file_raises sample_load sample_load sample_environment
           (mkArgs "config.yaml" (Some "config") None true) sample_world
           "yaml" valid_text ["srv"; "site"; "config"]);
    reflexivity.
Defined.


Lemma malformed_source_raises_witness :
  exists w',
    main sample_json_load sample_load sample_environment
         (mkArgs "broken.json" None None true) broken_world
    = (Raise JSONDecodeError, w')
    /\ OS.path_exists w' "/srv/site/splugh_dist" = false
    /\ stderr w' = [].
Proof.
  apply (malformed_source_raises sample_json_load sample_load sample_environment
           (mkArgs "broken.json" None None true) broken_world "json" "{title: "
           ["srv"; "site"; "broken.json"]).
  - reflexivity.
  - reflexivity.
  - discriminate.
  - right. split; [reflexivity|].
    exists ["srv"; "site"; "splugh_dist"], []. repeat split.
  - reflexivity.
Defined.

Lemma missing_parent_raises_witness :
  main sample_load sample_load sample_environment
       (mkArgs "config.yaml" (Some "build/site") None false) sample_world
  = (Raise (FileNotFoundError "/srv/site/build/site"),
     mkWorld "/srv/site" (fs sample_world) []
       [EvExists "/srv/site/build/site";
        EvOpen "/srv/site/config.yaml" "r"; EvClose "/srv/site/config.yaml";
        EvMkdir "/srv/site/build/site"]).
Proof.
  apply (missing_parent_raises sample_load sample_load sample_environment
           (mkArgs "config.yaml" (Some "build/site") None false) sample_world
           "yaml" valid_text sample_config ["srv"; "site"; "config.yaml"]);
    reflexivity.
Defined.

Lemma load_of_config_to_data_witness :
  ConfigSchema_load (config_to_data (mkConfig "Home" [mkPage "A" "/a" e_acute]))
  = Ok (mkConfig "Home" [mkPage "A" "/a" e_acute]).
Proof.
  apply (load_of_config_to_data (mkConfig "Home" [mkPage "A" "/a" e_acute])).
  repeat constructor.
Defined.

Lemma loaded_config_is_the_input_witness :
  exists d l,
    sample_valid = ODict d
    /\ field_of d "title" (Some (OStr "Home"))
    /\ field_of d "pages" (Some (OList l))
    /\ Forall2 spells_page l [mkPage "A" "/a" "a"]
    /\ forall k, In k (map fst d) -> In k ["title"; "pages"].
Proof.
  apply (loaded_config_is_the_input sample_valid sample_config). reflexivity.
Defined.

Lemma unknown_keys_are_rejected_witness :
  exists m,
    ConfigSchema_load (ODict [("title", OStr "Home"); ("pages", OList []);
                              ("tilte", OStr "Home")])
    = Raise (ValidationError m)
    /\ In ([Field "tilte"], "Unknown field.") (flatten m).
Proof.
  destruct unknown_keys_are_rejected as [Top _].
  apply (Top [("title", OStr "Home"); ("pages", OList []); ("tilte", OStr "Home")]
             "tilte");
    [simpl; auto | discriminate | discriminate].
Defined.

Lemma rendering_overwrites_and_keeps_witness :
  exists w' entries,
    generate_jinja_templates sample_environment sample_config "out" stale_world
    = (Ok tt, w')
    /\ OS.stat w' "out" = FS.At ["srv"; "out"] (Dir entries)
    /\ FS.find_entry "index.html" entries = Some (File "index.html.jinja: Home")
    /\ FS.find_entry "index.js" entries = Some (File "index.js.jinja: Home")
    /\ (forall nm, nm <> "index.html" -> nm <> "index.js" ->
          FS.find_entry nm entries
          = FS.find_entry nm [("index.html", File "stale"); ("notes.txt", File "keep")])
    /\ agree_off ["srv"; "out"] (fs stale_world) (fs w').
Proof.
  apply (rendering_overwrites_and_keeps sample_environment sample_config "out"
           stale_world ["srv"; "out"]
           [("index.html", File "stale"); ("notes.txt", File "keep")]);
    [reflexivity | intros es'; discriminate | intros es'; discriminate].
Defined.

Lemma rendering_again_changes_nothing_witness :
  exists w1 w2 entries,
    generate_jinja_templates sample_environment sample_config "out" stale_world
    = (Ok tt, w1)
    /\ generate_jinja_templates sample_environment sample_config "out" w1
       = (Ok tt, w2)
    /\ OS.stat w1 "out" = FS.At ["srv"; "out"] (Dir entries)
    /\ OS.stat w2 "out" = FS.At ["srv"; "out"] (Dir entries).
Proof.
  apply (rendering_again_changes_nothing sample_environment sample_config "out"
           stale_world ["srv"; "out"]
           [("index.html", File "stale"); ("notes.txt", File "keep")]);
    [reflexivity | intros es'; discriminate | intros es'; discriminate].
Defined.


Lemma rendering_can_stop_half_way_witness :
  exists w',
    generate_jinja_templates sample_environment sample_config "out" blocked_world
    = (Raise (IsADirectoryError "out/index.js"), w')
    /\ OS.stat w' "out"
       = FS.At ["srv"; "out"]
           (Dir [("index.js", Dir []);
                 ("index.html", File "index.html.jinja: Home")]).
Proof.
  apply (rendering_can_stop_half_way sample_environment sample_config "out"
           blocked_world ["srv"; "out"] [("index.js", Dir [])] []);
    [reflexivity | intros es'; discriminate | reflexivity].
Defined.

Lemma second_run_without_force_is_refused_witness :
  exists w1,
    main sample_load sample_load sample_environment
         (mkArgs "config.yaml" (Some "out") None false) sample_world = (Ok 0%Z, w1)
    /\ main sample_load sample_load sample_environment
            (mkArgs "config.yaml" (Some "out") None false) w1
       = (Ok 2%Z,
          mkWorld (cwd w1) (fs w1)
            (stderr w1
             ++ [refusal (out_dir_of (mkArgs "config.yaml" (Some "out") None false) w1)])
            (events w1
             ++ [EvExists (out_dir_of (mkArgs "config.yaml" (Some "out") None false) w1)])).
Proof.
  assert (exists w1,
            main sample_load sample_load sample_environment
                 (mkArgs "config.yaml" (Some "out") None false) sample_world
            = (Ok 0%Z, w1))
    as [w1 H] by (eexists; vm_compute; reflexivity).
  exists w1. split; [exact H|].
  apply (second_run_without_force_is_refused sample_load sample_load
           sample_environment _ sample_world w1 H).
  reflexivity.
Defined.

Lemma second_run_with_force_renders_the_same_witness :
  exists w1 w2,
    main sample_load sample_load sample_environment
         (mkArgs "config.yaml" None None true) sample_world = (Ok 0%Z, w1)
    /\ main sample_load sample_load sample_environment
            (mkArgs "config.yaml" None None true) w1 = (Ok 0%Z, w2)
    /\ FS.lookup ["srv"; "site"; "splugh_dist"] (fs w2)
       = FS.lookup ["srv"; "site"; "splugh_dist"] (fs w1)
    /\ stderr w2 = stderr w1.
Proof.
  assert (exists w1,
            main sample_load sample_load sample_environment
                 (mkArgs "config.yaml" None None true) sample_world = (Ok 0%Z, w1))
    as [w1 H] by (eexists; vm_compute; reflexivity).
  exists w1.
  destruct (second_run_with_force_renders_the_same sample_load sample_load
              sample_environment _ sample_world w1 H eq_refl)
    as (w2 & E & L & S).
  exists w2. repeat split; assumption.
Defined.

Lemma only_the_deserializer_in_use_matters_witness :
  main sample_load (fun _ => Raise YAMLError) sample_environment
       (mkArgs "config.yaml" None (Some "json") true) sample_world
  = main sample_load sample_load sample_environment
         (mkArgs "config.yaml" None (Some "json") true) sample_world.
Proof.
  apply (only_the_deserializer_in_use_matters sample_load (fun _ => Raise YAMLError)
           sample_load sample_load sample_environment
           (mkArgs "config.yaml" None (Some "json") true) sample_world).
  intros file_format text [= <-]. reflexivity.
Defined.

(** The sample deserializer raises [YAMLError] and nothing else. *)
Lemma sample_load_no_ValidationError : no_ValidationError sample_load.
Proof.
  intros text messages. unfold sample_load.
  destruct (text =? valid_text); [discriminate|].
  destruct (text =? invalid_text); discriminate.
Qed.

Lemma exit_1_prints_every_violation_witness :
  exists w',
    main sample_load sample_load sample_environment
         (mkArgs "bad.yaml" None None true) sample_world = (Ok 1%Z, w')
    /\ exists file_format spos text data messages,
         file_format_of (mkArgs "bad.yaml" None None true) sample_world
         = Ok file_format
         /\ OS.stat sample_world "/srv/site/bad.yaml" = FS.At spos (File text)
         /\ deserialized sample_load sample_load file_format text = Ok data
         /\ stderr w' = [Repr messages]
         /\ forall path msg,
              In (path, msg) (flatten messages) <-> ConfigViolation data path msg.
Proof.
  assert (exists w',
            main sample_load sample_load sample_environment
                 (mkArgs "bad.yaml" None None true) sample_world = (Ok 1%Z, w'))
    as [w' H] by (eexists; vm_compute; reflexivity).
  exists w'. split; [exact H|].
  destruct (exit_1_prints_every_violation sample_load sample_load
              sample_environment _ _ _ sample_load_no_ValidationError
              sample_load_no_ValidationError H)
    as (file_format & spos & text & data & m & F & Ls & D & Es & R).
  exists file_format, spos, text, data, m. repeat split; try assumption; apply R.
Defined.

Lemma exit_0_renders_a_valid_config_witness :
  exists w',
    main sample_load sample_load sample_environment
         (mkArgs "config.yaml" None None true) sample_world = (Ok 0%Z, w')
    /\ exists file_format spos text data config pos,
         file_format_of (mkArgs "config.yaml" None None true) sample_world
         = Ok file_format
         /\ OS.stat sample_world "/srv/site/config.yaml" = FS.At spos (File text)
         /\ deserialized sample_load sample_load file_format text = Ok data
         /\ ConfigSchema_load data = Ok config
         /\ (forall path msg, ~ ConfigViolation data path msg)
         /\ well_formed config
         /\ OS.stat w' "/srv/site/splugh_dist"
            = FS.At pos (Dir (rendered sample_environment config)).
Proof.
  assert (exists w',
            main sample_load sample_load sample_environment
                 (mkArgs "config.yaml" None None true) sample_world = (Ok 0%Z, w'))
    as [w' H] by (eexists; vm_compute; reflexivity).
  exists w'. split; [exact H|].
  destruct (exit_0_renders_a_valid_config sample_load sample_load
              sample_environment _ _ _ H)
    as (file_format & spos & text & data & config & pos & F & Ls & D & P & NoV
        & Wf & Lr).
  exists file_format, spos, text, data, config, pos. repeat split; assumption.
Defined.

(** * Where the specification and the code part *)

(** C1 as written fails: with [--type xml] and [--force] over an existing
    output directory, the [KeyError] comes after the directory was removed and
    the source file opened; without [--force] there is no lookup error at all,
    the run exits with code 2. *)
Lemma unknown_type_fails_late :
  OS.stat sample_world "/srv/site/splugh_dist"
  = FS.At ["srv"; "site"; "splugh_dist"] (Dir [("old.txt", File "old")])
  /\ main sample_load sample_load sample_environment
          (mkArgs "config.yaml" None (Some "xml") true) sample_world
     = (Raise (KeyError "xml"),
        mkWorld "/srv/site"
          (Dir [("srv", Dir [("site", Dir [("config.yaml", File valid_text);
                                            ("bad.yaml", File invalid_text);
                                            ("config", File valid_text)])])])
          []
          [EvExists "/srv/site/splugh_dist"; EvRmtree "/srv/site/splugh_dist";
           EvOpen "/srv/site/config.yaml" "r"; EvClose "/srv/site/config.yaml"])
  /\ main sample_load sample_load sample_environment
          (mkArgs "config.yaml" None (Some "xml") false) sample_world
     = (Ok 2%Z,
        mkWorld "/srv/site" (fs sample_world)
          [Text "/srv/site/splugh_dist already exists. Refusing to operate."]
          [EvExists "/srv/site/splugh_dist"]).
Proof. repeat split. Qed.

(** C2 as written fails: the format is resolved from the path before the
    output directory is looked at.  With the source [config], no [--type], the
    output directory there and no [--force], the run raises [IndexError]: no
    message is printed and no exit code returned. *)
Lemma existing_directory_is_not_looked_at :
  OS.stat sample_world "/srv/site/splugh_dist"
  = FS.At ["srv"; "site"; "splugh_dist"] (Dir [("old.txt", File "old")])
  /\ OS.stat sample_world "/srv/site/config"
     = FS.At ["srv"; "site"; "config"] (File valid_text)
  /\ main sample_load sample_load sample_environment
          (mkArgs "config" None None false) sample_world
     = (Raise IndexError, sample_world).
Proof. repeat split. Qed.

(** C3 as written fails.  With the source inside the output directory,
    [--force] removes the valid config with the directory, and the [open] that
    follows raises [FileNotFoundError]; with [-o .], [shutil.rmtree] empties
    the working directory, the source with it, and raises [OSError] at the
    [rmdir] of a path that ends in a dot, the directory still there.  Neither
    run renders anything or returns an exit code. *)
Lemma force_can_delete_the_source :
  OS.stat nested_world "/srv/site/splugh_dist/config.yaml"
  = FS.At ["srv"; "site"; "splugh_dist"; "config.yaml"] (File valid_text)
  /\ parsed sample_load sample_load "yaml" valid_text = Ok sample_config
  /\ main sample_load sample_load sample_environment
          (mkArgs "splugh_dist/config.yaml" None None true) nested_world
     = (Raise (FileNotFoundError "/srv/site/splugh_dist/config.yaml"),
        mkWorld "/srv/site" (Dir [("srv", Dir [("site", Dir [])])]) []
          [EvExists "/srv/site/splugh_dist"; EvRmtree "/srv/site/splugh_dist";
           EvOpen "/srv/site/splugh_dist/config.yaml" "r"])
  /\ main sample_load sample_load sample_environment
          (mkArgs "config.yaml" (Some ".") None true) sample_world
     = (Raise (OSError "/srv/site/."),
        mkWorld "/srv/site" (Dir [("srv", Dir [("site", Dir [])])]) []
          [EvExists "/srv/site/."; EvRmtree "/srv/site/."]).
Proof. repeat split. Qed.

(** C7 as written fails: [yml] is no key of the table of parsers, so the
    token given as [--type yml] raises [KeyError], on a valid YAML source
    too. *)
Lemma yml_is_no_parser_token :
  get_config_parser sample_load sample_load "yml" = Raise (KeyError "yml")
  /\ main sample_load sample_load sample_environment
          (mkArgs "config.yaml" (Some "out") (Some "yml") false) sample_world
     = (Raise (KeyError "yml"),
        mkWorld "/srv/site" (fs sample_world) []
          [EvExists "/srv/site/out";
           EvOpen "/srv/site/config.yaml" "r"; EvClose "/srv/site/config.yaml"]).
Proof. split; reflexivity. Qed.

(** C10 as written fails: [SRC] is made absolute before it is split, so a
    dot in the working directory is found; the piece after it is no key of the
    table of extensions and a [KeyError] is raised, not an [IndexError]. *)
Lemma dot_in_working_directory_raises_KeyError :
  Str.contains "."%char "config" = false
  /\ main sample_load sample_load sample_environment
          (mkArgs "config" None None false) dotted_world
     = (Raise (KeyError "site/config"), dotted_world).
Proof. split; reflexivity. Qed.
